(** * Nakit ledger (app.py, db.py): a shallow embedding and its properties

    The development follows the two source files.

    - [PyStr], [PyFloat]: the Python string and number primitives the
      helpers call ([str.strip], [str.replace], [str.split], [in],
      [float], the [f"{v:,.{d}f}"] format).
    - [Amount]: [format_amount_display] and [parse_amount_input].
    - [Db]: db.py, the [transactions] table with its AUTOINCREMENT key.
    - [Ledger]: the [CashApp] methods that change the table
      ([_push_undo], [undo], [sort_by_column], [parse_date], [add_item],
      [remove_selected], [load_sample]).
    - [Views]: the totals of [update_summary_and_view], and the
      predicates the invariants of the ledger are stated with.
    - The definitions come first; the properties follow, one module per
      subject: the stable sort, the sort of the table, the undo log,
      [add_item], [add_item] then [undo], the dot of an amount, and the
      round trip of an amount through its text, and removals of what is
      not there; then what db.py reads
      back ([DbProps]), what a sort gives ([SortProps]), removals and
      their undo ([LedgerProps]), the signs of amounts and totals
      ([SignProps]), amounts that are refused ([ParseProps]), the sample
      and the error paths ([EdgeProps]), and the text of an amount
      ([FormatProps]).

    Conventions of the model.

    - A Python [str] is a list of characters; a character is a code point
      below 256 (Rocq's [ascii], read as Latin-1).  The white-space and
      lower-case tables below are the Unicode ones restricted to that
      range.
    - A Python [float] is an exact rational ([Q], kept in lowest terms by
      [Qred]).  Binary64 rounding, the negative zero, infinities and NaN
      are not modelled: [py_float] reads every numeral exactly and
      answers [None] on the texts Python reads as [inf] or [nan].  The
      properties are stated where this makes no difference: on the order
      of keys read off a row (not on the percent key, which the program
      computes from rounded totals), on signs, and on bounds wide enough
      for the rounding.
    - Widgets, message boxes, the chart and the autosave file are left
      out; an operation returns the new state and an [outcome] that says
      which dialog the user would have seen. *)

From Stdlib Require Import String Ascii List ZArith NArith QArith Qabs Bool Lia.
From Stdlib Require Import Permutation Lqa.
Import ListNotations.

Local Open Scope list_scope.

(* ================================================================== *)
(** * Python strings *)

Module PyStr.

Definition str := list ascii.

Definition lit (s : string) : str := list_ascii_of_string s.

Definition ord (c : ascii) : N := N_of_ascii c.

Definition chr_eqb (a b : ascii) : bool := Ascii.eqb a b.

(** [c.isspace()] for code points below 256. *)
Definition is_space (c : ascii) : bool :=
  let n := ord c in
  ((9 <=? n) && (n <=? 13) || (28 <=? n) && (n <=? 32)
   || (n =? 133) || (n =? 160))%N.

Fixpoint lstrip (s : str) : str :=
  match s with
  | c :: t => if is_space c then lstrip t else s
  | [] => []
  end.

Definition rstrip (s : str) : str := rev (lstrip (rev s)).

(** [s.strip()] *)
Definition strip (s : str) : str := rstrip (lstrip s).

Fixpoint str_eqb (a b : str) : bool :=
  match a, b with
  | [], [] => true
  | x :: a', y :: b' => chr_eqb x y && str_eqb a' b'
  | _, _ => false
  end.

(** [s.startswith(p)] *)
Fixpoint startswith (p s : str) : bool :=
  match p, s with
  | [], _ => true
  | x :: p', y :: s' => chr_eqb x y && startswith p' s'
  | _ :: _, [] => false
  end.

(** [sub in s] *)
Fixpoint str_in (sub s : str) : bool :=
  startswith sub s ||
  match s with
  | [] => false
  | _ :: t => str_in sub t
  end.

(** [s.replace(old, new)]: occurrences are found from the left and do
    not overlap.  [skip] counts the characters of a match still to be
    passed over. *)
Fixpoint replace_from (old new : str) (skip : nat) (s : str) : str :=
  match s with
  | [] => []
  | c :: t =>
      match skip with
      | S k => replace_from old new k t
      | O =>
          if startswith old s
          then new ++ replace_from old new (List.length old - 1) t
          else c :: replace_from old new 0 t
      end
  end.

Definition replace (old new s : str) : str :=
  match old with
  | [] => new ++ flat_map (fun c => c :: new) s
  | _ :: _ => replace_from old new 0 s
  end.

(** [s.split(sep)] for a separator of one character, the only kind the
    program uses. *)
Fixpoint split (sep : ascii) (s : str) : list str :=
  match s with
  | [] => [[]]
  | c :: t =>
      if chr_eqb c sep then [] :: split sep t
      else match split sep t with
           | p :: ps => (c :: p) :: ps
           | [] => [[c]]
           end
  end.

(** ["".join(parts)] *)
Definition join (parts : list str) : str := List.concat parts.

(** [c.lower()] for code points below 256: A-Z, and the Latin-1 capitals
    U+00C0..U+00DE except the multiplication sign U+00D7. *)
Definition lower_chr (c : ascii) : ascii :=
  let n := ord c in
  if ((65 <=? n) && (n <=? 90)
      || (192 <=? n) && (n <=? 222) && negb (n =? 215))%N
  then ascii_of_N (n + 32) else c.

Definition lower (s : str) : str := map lower_chr s.

(** [a <= b] on strings: lexicographic on code points. *)
Fixpoint str_leb (a b : str) : bool :=
  match a, b with
  | [], _ => true
  | _ :: _, [] => false
  | x :: a', y :: b' =>
      if (ord x <? ord y)%N then true
      else if (ord y <? ord x)%N then false
      else str_leb a' b'
  end.

Definition is_digit (c : ascii) : bool :=
  let n := ord c in ((48 <=? n) && (n <=? 57))%N.

Definition digit_val (c : ascii) : N := (ord c - 48)%N.

(** Reading decimal digits, most significant first, from a start value. *)
Definition read (ds : str) (v : N) : N :=
  fold_left (fun acc c => (10 * acc + digit_val c)%N) ds v.

(** The number a run of decimal digits denotes. *)
Definition digits_value (ds : str) : N := read ds 0.

Definition digit_chr (n : N) : ascii := ascii_of_N (48 + n).

(** Decimal digits of [n], most significant first; [fuel] bounds the
    number of digits. *)
Fixpoint digits_from (fuel : nat) (n : N) (acc : str) : str :=
  match fuel with
  | O => acc
  | S k =>
      let acc' := digit_chr (n mod 10) :: acc in
      if (n <? 10)%N then acc' else digits_from k (n / 10) acc'
  end.

Definition digits_of (n : N) : str := digits_from (S (N.to_nat (N.log2 n))) n [].

(** How often [c] occurs in [s], and [s] without it. *)
Definition count_chr (c : ascii) (s : str) : nat :=
  List.length (filter (fun x => chr_eqb x c) s).

Definition remove_chr (c : ascii) (s : str) : str :=
  filter (fun x => negb (chr_eqb x c)) s.

(** The text before the first [c] of [s], and the text after it. *)
Fixpoint before_chr (c : ascii) (s : str) : str :=
  match s with
  | [] => []
  | x :: t => if chr_eqb x c then [] else x :: before_chr c t
  end.

Fixpoint after_chr (c : ascii) (s : str) : str :=
  match s with
  | [] => []
  | x :: t => if chr_eqb x c then t else after_chr c t
  end.

(** [span p s]: the longest prefix of [s] whose characters satisfy [p],
    and the rest. *)
Fixpoint span (p : ascii -> bool) (s : str) : str * str :=
  match s with
  | c :: t => if p c then let '(a, b) := span p t in (c :: a, b) else ([], s)
  | [] => ([], [])
  end.

End PyStr.

(* ================================================================== *)
(** * Python numbers: [float(s)] and the fixed-point format *)

Module PyFloat.
Import PyStr.

(** [float] first turns the Unicode spaces beyond ASCII into blanks. *)
Definition space_to_ascii (c : ascii) : ascii :=
  if ((ord c =? 133) || (ord c =? 160))%N then " "%char else c.

(** The white space [float] skips at both ends (C's [isspace]). *)
Definition float_space (c : ascii) : bool :=
  let n := ord c in ((9 <=? n) && (n <=? 13) || (n =? 32))%N.

Fixpoint float_lstrip (s : str) : str :=
  match s with
  | c :: t => if float_space c then float_lstrip t else s
  | [] => []
  end.

Definition float_strip (s : str) : str :=
  rev (float_lstrip (rev (float_lstrip s))).

(** What is used of a digit: it is none of the marks and no space, and
    the conversions leave it alone. *)
Definition plain_chr (c : ascii) : Prop :=
  chr_eqb c "," = false /\ chr_eqb c "." = false /\ chr_eqb c "_" = false
  /\ chr_eqb c " " = false /\ chr_eqb c "'" = false
  /\ chr_eqb c "-" = false /\ chr_eqb c "+" = false
  /\ chr_eqb c "e" = false /\ chr_eqb c "E" = false
  /\ is_space c = false /\ float_space c = false /\ space_to_ascii c = c.

(** Underscores may stand between two digits only; they are dropped.
    [prev] is the character before the current one. *)
Fixpoint drop_underscores (prev : option ascii) (s : str) : option str :=
  let is_us (o : option ascii) :=
    match o with Some c => chr_eqb c "_" | None => false end in
  let is_dg (o : option ascii) :=
    match o with Some c => is_digit c | None => false end in
  match s with
  | [] => if is_us prev then None else Some []
  | c :: t =>
      if chr_eqb c "_" then
        if is_dg prev then drop_underscores (Some c) t else None
      else if is_us prev && negb (is_digit c) then None
      else option_map (cons c) (drop_underscores (Some c) t)
  end.

(** An optional sign in front of digits. *)
Definition take_sign (s : str) : bool * str :=
  match s with
  | c :: t =>
      if chr_eqb c "-" then (true, t)
      else if chr_eqb c "+" then (false, t)
      else (false, s)
  | [] => (false, [])
  end.

(** The exponent part: nothing, or [e]/[E], an optional sign and at least
    one digit, up to the end of the text. *)
Definition exponent (s : str) : option Z :=
  match s with
  | [] => Some 0%Z
  | c :: t =>
      if chr_eqb c "e" || chr_eqb c "E" then
        let '(neg, t') := take_sign t in
        let '(ds, rest) := span is_digit t' in
        match ds, rest with
        | _ :: _, [] =>
            let e := Z.of_N (digits_value ds) in
            Some (if neg then (- e)%Z else e)
        | _, _ => None
        end
      else None
  end.

(** The largest finite double, [(2 - 2^-52) * 2^1023]: a numeral beyond
    it [float] reads as [inf]. *)
Definition DBL_MAX : Q := inject_Z (2 ^ 1024 - 2 ^ 971).

(** [m * 10^e], signed, in lowest terms. *)
Definition decimal_Q (neg : bool) (m : N) (e : Z) : Q :=
  let z := if neg then (- Z.of_N m)%Z else Z.of_N m in
  Qred match e with
       | Z0 => z # 1
       | Zpos p => (z * 10 ^ Zpos p) # 1
       | Zneg p => z # (10 ^ p)
       end.

(** [float(s)] on a finite decimal numeral; [None] is ValueError. *)
Definition py_float (s : str) : option Q :=
  match drop_underscores None (map space_to_ascii s) with
  | None => None
  | Some s1 =>
      let '(neg, body) := take_sign (float_strip s1) in
      let '(ip, rest) := span is_digit body in
      let '(fp, rest') :=
        match rest with
        | c :: t => if chr_eqb c "." then span is_digit t else ([], rest)
        | [] => ([], [])
        end in
      match ip ++ fp with
      | [] => None
      | _ :: _ =>
          match exponent rest' with
          | Some e =>
              Some (decimal_Q neg (digits_value (ip ++ fp))
                      (e - Z.of_nat (List.length fp)))
          | None => None
          end
      end
  end.

(** Rounding [num / den] ([num >= 0]) to the nearest integer, ties to the
    even one: the rounding of Python's number formatting. *)
Definition round_half_even (num : Z) (den : positive) : Z :=
  let q := (num / Zpos den)%Z in
  let r := (num mod Zpos den)%Z in
  match (2 * r ?= Zpos den)%Z with
  | Lt => q
  | Gt => (q + 1)%Z
  | Eq => if Z.even q then q else (q + 1)%Z
  end.

(** [|v| * 10^d] rounded to an integer. *)
Definition scaled (v : Q) (d : nat) : N :=
  Z.to_N (round_half_even (Z.abs (Qnum v) * 10 ^ Z.of_nat d) (Qden v)).

Definition pad_left (n : nat) (ds : str) : str :=
  repeat "0"%char (n - List.length ds) ++ ds.

(** A comma after every third digit, counted from the right.  The digits
    are taken from the right; the number says how many digits the
    leading group of the result has so far. *)
Fixpoint group3_from (ds : str) : nat * str :=
  match ds with
  | [] => (0%nat, [])
  | c :: t =>
      let '(k, g) := group3_from t in
      if (k =? 3)%nat then (1%nat, c :: ","%char :: g) else (S k, c :: g)
  end.

Definition group3 (ds : str) : str := snd (group3_from ds).

(** [f"{v:,.{d}f}"] *)
Definition py_format_f (v : Q) (d : nat) : str :=
  let ds := pad_left (S d) (digits_of (scaled v d)) in
  let k := (List.length ds - d)%nat in
  (if (Qnum v <? 0)%Z then ["-"%char] else [])
  ++ group3 (firstn k ds)
  ++ match d with O => [] | S _ => "."%char :: skipn k ds end.

End PyFloat.

(* ================================================================== *)
(** * Amounts: app.py, the two helpers *)

Module Amount.
Import PyStr PyFloat.

(** [format_amount_display(value, decimals=2)] on a float. *)
Definition format_amount_display (value : Q) (decimals : nat) : str :=
  let s := py_format_f value decimals in
  replace (lit "_TMP_") (lit ".")
    (replace (lit ".") (lit ",") (replace (lit ",") (lit "_TMP_") s)).

(** What the three replacements of [format_amount_display] do to one
    character: comma and dot change places. *)
Definition swap_marks (c : ascii) : ascii :=
  if chr_eqb c "," then "."%char
  else if chr_eqb c "." then ","%char
  else c.

(** [10^-d], the tolerance of a round trip with [d] decimals. *)
Definition ten_to_minus (d : nat) : Q := 1 # Z.to_pos (10 ^ Z.of_nat d).

(** The two ValueErrors of [parse_amount_input]. *)
Inductive ValueError := EmptyAmount | BadAmountFormat (s : str).

(** Lines 61-75: the decimal point and the grouping marks of the body. *)
Definition separators (s_body : str) : str :=
  if str_in (lit ".") s_body && str_in (lit ",") s_body then
    replace (lit ",") (lit ".") (replace (lit ".") (lit "") s_body)
  else if str_in (lit ",") s_body && negb (str_in (lit ".") s_body) then
    replace (lit ",") (lit ".") s_body
  else if str_in (lit ".") s_body && negb (str_in (lit ",") s_body) then
    let parts := split "." s_body in
    if (2 <? List.length parts)%nat then join parts
    else
      let integer_part := nth 0 parts [] in
      let frac_part := nth 1 parts [] in
      if (List.length frac_part =? 3)%nat && (List.length integer_part <=? 3)%nat
      then integer_part ++ frac_part
      else s_body
  else s_body.

(** The rule of lines 66-75, said of the body: its dots are grouping
    marks when there are two of them or more, or when one dot has exactly
    three characters after it and at most three before it. *)
Definition dots_are_grouping (s_body : str) : bool :=
  (2 <=? count_chr "." s_body)%nat
  || ((List.length (after_chr "." s_body) =? 3)%nat
      && (List.length (before_chr "." s_body) <=? 3)%nat).

(** The sign and the body [parse_amount_input] takes from the stripped
    text (lines 56-60). *)
Definition sign_of (s : str) : Z :=
  if startswith (lit "-") s then (-1)%Z else 1%Z.

Definition body_of (s : str) : str :=
  if str_in (firstn 1 s) (lit "+-") then strip (skipn 1 s) else s.

(** [parse_amount_input(s)] *)
Definition parse_amount_input (s : str) : ValueError + Q :=
  let s := strip s in
  if str_eqb s [] then inl EmptyAmount
  else
    let sign := sign_of s in
    let s_body := body_of s in
    let s_body := separators s_body in
    let s_body := replace (lit " ") (lit "") s_body in
    let s_body := replace (lit "'") (lit "") s_body in
    match py_float s_body with
    | None => inl (BadAmountFormat s)
    | Some val => inr (inject_Z sign * val)
    end.

End Amount.

(* ================================================================== *)
(** * A stable sort

    pandas sorts with [kind="mergesort"], a stable sort.  The result of a
    stable sort does not depend on the algorithm, so the model uses the
    insertion sort, which is stable as well: an element goes in front of
    the first element that is not smaller, and [sort] inserts from the
    right, so equal elements keep their order. *)

Module StableSort.
Section Sort.
Context {A : Type} (leb : A -> A -> bool).

Fixpoint insert (x : A) (l : list A) : list A :=
  match l with
  | [] => [x]
  | y :: t => if leb x y then x :: l else y :: insert x t
  end.

Fixpoint sort (l : list A) : list A :=
  match l with
  | [] => []
  | x :: t => insert x (sort t)
  end.

(** Each element is below its successor. *)
Fixpoint sorted (l : list A) : bool :=
  match l with
  | x :: t => match t with y :: _ => leb x y | [] => true end && sorted t
  | [] => true
  end.

End Sort.

(** The orders a sort key is compared with. *)
Definition total {K : Type} (leb : K -> K -> bool) : Prop :=
  forall a b, leb a b = true \/ leb b a = true.

Definition transitive {K : Type} (leb : K -> K -> bool) : Prop :=
  forall a b c, leb a b = true -> leb b c = true -> leb a c = true.

End StableSort.

(* ================================================================== *)
(** * db.py: the [transactions] table *)

Module Db.
Import PyStr.

Record Row := mkRow {
  id : Z;
  date : str;
  group : str;
  description : str;
  amount : Q
}.

(** A connection: the rows of [transactions], and the largest id the
    table has ever given out (the [sqlite_sequence] entry that
    AUTOINCREMENT keeps). *)
Record Conn := mkConn {
  table : list Row;
  seq : Z
}.

(** sqlite3 exceptions.  Every function below takes [io]: [false] makes
    each statement of the call raise [OperationalError] (the file cannot
    be written or read). *)
Inductive Error := OperationalError | IntegrityError.

Definition Result (A : Type) : Type := (Error + A)%type.

Definition max_id (rows : list Row) : Z :=
  fold_right (fun r m => Z.max (id r) m) 0%Z rows.

Definition has_id (rid : Z) (rows : list Row) : bool :=
  existsb (fun r => (id r =? rid)%Z) rows.

(** [init_db(conn)]: CREATE TABLE IF NOT EXISTS keeps an existing table. *)
Definition init_db (io : bool) (conn : Conn) : Result Conn :=
  if io then inr conn else inl OperationalError.

(** [get_all(conn)]: SELECT ... ORDER BY id. *)
Definition get_all (io : bool) (conn : Conn) : Result (list Row) :=
  if io
  then inr (StableSort.sort (fun a b => (id a <=? id b)%Z) (table conn))
  else inl OperationalError.

(** The id AUTOINCREMENT gives the next row: one more than the largest
    id the table has ever held. *)
Definition next_id (conn : Conn) : Z :=
  (Z.max (seq conn) (max_id (table conn)) + 1)%Z.

(** [insert(conn, date, group, description, amount)] *)
Definition insert (io : bool) (conn : Conn)
    (date group description : str) (amount : Q) : Result (Conn * Z) :=
  if io then
    let lastrowid := next_id conn in
    inr (mkConn (table conn ++ [mkRow lastrowid date group description amount])
           lastrowid,
         lastrowid)
  else inl OperationalError.

(** [delete_ids(conn, ids)] *)
Definition delete_ids (io : bool) (conn : Conn) (ids : list Z) : Result Conn :=
  match ids with
  | [] => inr conn
  | _ :: _ =>
      if io then
        inr (mkConn
               (filter (fun r => negb (existsb (Z.eqb (id r)) ids)) (table conn))
               (seq conn))
      else inl OperationalError
  end.

(** [clear_all(conn)] *)
Definition clear_all (io : bool) (conn : Conn) : Result Conn :=
  if io then inr (mkConn [] (seq conn)) else inl OperationalError.

(** The INSERT with an explicit id that [undo] runs on its own cursor: a
    taken id violates the primary key. *)
Definition insert_with_id (io : bool) (conn : Conn) (r : Row) : Result Conn :=
  if io then
    if has_id (id r) (table conn) then inl IntegrityError
    else inr (mkConn (table conn ++ [r]) (Z.max (seq conn) (id r)))
  else inl OperationalError.

End Db.

(* ================================================================== *)
(** * app.py: the [CashApp] state and its operations *)

Module Ledger.
Import PyStr Amount Db.

(** The [datetime] library.  A datetime is an instant (a [Z]); a parser
    answers [None] where Python raises. *)
Class PyDatetime := {
  fromisoformat : str -> option Z;   (* datetime.fromisoformat(s) *)
  strptime : str -> str -> option Z; (* datetime.strptime(s, fmt) *)
  date_isoformat : Z -> str;         (* dt.date().isoformat() *)
  datetime_min : Z                   (* datetime.min *)
}.

(** The columns a heading sorts by. *)
Inductive Column := ColDate | ColGroup | ColDescription | ColAmount | ColPercent.

Definition Column_eqb (a b : Column) : bool :=
  match a, b with
  | ColDate, ColDate | ColGroup, ColGroup | ColDescription, ColDescription
  | ColAmount, ColAmount | ColPercent, ColPercent => true
  | _, _ => false
  end.

(** [self.sort_state]: [{"col": ..., "asc": ...}] *)
Record SortState := mkSort {
  col : option Column;
  asc : bool
}.

(** An entry of [self.undo_stack]. *)
Inductive Action :=
| ActAdd (rid : Z)
| ActDelete (rows : list Row).

Record App := mkApp {
  db_conn : Conn;
  df : list Row;
  sort_state : SortState;
  undo_stack : list Action
}.

(** What the user sees when an operation returns. *)
Inductive Outcome :=
| Completed                              (* the status line changed *)
| Restored (n : nat)                     (* a delete undone, [n] rows back *)
| NothingToUndo | NoUndoRows             (* dialogs of [undo] *)
| MissingAmount | InvalidAmount (e : ValueError)
| NoSelection | Declined
| Unexpected (e : Error).                (* the outer [except Exception] *)

Definition UNDO_STACK_MAX : nat := 100.

Definition group_order : list str :=
  [lit "Gelir"; lit "Gider"; lit "Aktif"; lit "Pasif"].

(** [__init__], with the table loaded from the database. *)
Definition load_db_into_df (io : bool) (app : App) : Result App :=
  match get_all io (db_conn app) with
  | inl e => inl e
  | inr rows => inr (mkApp (db_conn app) rows (sort_state app) (undo_stack app))
  end.

(** [_push_undo(action)] *)
Definition _push_undo (action : Action) (app : App) : App :=
  let stack := undo_stack app ++ [action] in
  let stack := if (UNDO_STACK_MAX <? List.length stack)%nat then tl stack else stack in
  mkApp (db_conn app) (df app) (sort_state app) stack.

(** [df.sort_values(by=key, ascending=..., kind="mergesort")]: stable in
    both directions, rows with equal keys keep their order. *)
Definition row_leb {K : Type} (key : Row -> K) (leb : K -> K -> bool)
    (ascending : bool) (a b : Row) : bool :=
  if ascending then leb (key a) (key b) else leb (key b) (key a).

Definition sort_values {K : Type} (key : Row -> K) (leb : K -> K -> bool)
    (ascending : bool) (rows : list Row) : list Row :=
  StableSort.sort (row_leb key leb ascending) rows.

(** [order_map.get(x, 9999)] *)
Fixpoint order_index (x : str) (order : list str) (i : Z) : Z :=
  match order with
  | [] => 9999%Z
  | k :: t => if str_eqb k x then i else order_index x t (i + 1)%Z
  end.

Definition group_key (r : Row) : Z := order_index (group r) group_order 0.

(** [df[df['group'] == g]['amount'].sum()] *)
Definition group_total (g : str) (rows : list Row) : Q :=
  fold_left Qplus (map amount (filter (fun r => str_eqb (group r) g) rows)) 0.

Definition Qltb (a b : Q) : bool := negb (Qle_bool b a).

(** The three denominators [sort_by_column] computes for the percent
    column: [abs_total_gelir], [abs_total_gider], [abs_total_aktif_pasif]. *)
Definition abs_totals (rows : list Row) : Q * Q * Q :=
  let total_gelir := group_total (lit "Gelir") rows in
  let total_gider := group_total (lit "Gider") rows in
  let total_aktif := group_total (lit "Aktif") rows in
  let total_pasif := group_total (lit "Pasif") rows in
  let abs_total_gelir := if negb (Qeq_bool total_gelir 0) then Qabs total_gelir else 0 in
  let abs_total_gider := if negb (Qeq_bool total_gider 0) then Qabs total_gider else 0 in
  let abs_total_aktif_pasif :=
    if negb (Qeq_bool total_aktif 0) || negb (Qeq_bool total_pasif 0)
    then Qabs total_aktif + Qabs total_pasif else 0 in
  (abs_total_gelir, abs_total_gider, abs_total_aktif_pasif).

(** Two triples of denominators that are equal as numbers. *)
Definition totals_eq (t t' : Q * Q * Q) : Prop :=
  fst (fst t) == fst (fst t') /\ snd (fst t) == snd (fst t') /\ snd t == snd t'.

(** [_pct(row)], the closure of [sort_by_column] over the denominators. *)
Definition _pct (totals : Q * Q * Q) (row : Row) : Q :=
  let '(abs_total_gelir, abs_total_gider, abs_total_aktif_pasif) := totals in
  let grp := group row in
  let amt := amount row in
  if str_eqb grp (lit "Gelir") && Qltb 0 abs_total_gelir then
    (Qabs amt / abs_total_gelir) * 100
  else if str_eqb grp (lit "Gider") && Qltb 0 abs_total_gider then
    (Qabs amt / abs_total_gider) * 100
  else if (str_eqb grp (lit "Aktif") || str_eqb grp (lit "Pasif"))
          && Qltb 0 abs_total_aktif_pasif then
    (Qabs amt / abs_total_aktif_pasif) * 100
  else 0.

(** The percent key of a row of the table [rows]. *)
Definition pct (rows : list Row) (row : Row) : Q := _pct (abs_totals rows) row.

Section WithDatetime.
Context {DT : PyDatetime}.

(** [_parse(d)] of [sort_by_column] *)
Definition _parse (d : str) : Z :=
  match fromisoformat d with
  | Some t => t
  | None =>
      match strptime d (lit "%d.%m.%Y") with
      | Some t => t
      | None => datetime_min
      end
  end.

(** The table sorted by a column in a direction: the branches of
    [sort_by_column]. *)
Definition sort_rows (c : Column) (ascending : bool) (rows : list Row) : list Row :=
  match c with
  | ColGroup => sort_values group_key Z.leb ascending rows
  | ColAmount => sort_values amount Qle_bool ascending rows
  | ColDate => sort_values (fun r => _parse (date r)) Z.leb ascending rows
  | ColPercent => sort_values (pct rows) Qle_bool ascending rows
  | ColDescription =>
      sort_values (fun r => lower (description r)) str_leb ascending rows
  end.

(** The table is in the order of a column and a direction. *)
Definition rows_sorted (c : Column) (ascending : bool) (rows : list Row) : bool :=
  match c with
  | ColGroup => StableSort.sorted (row_leb group_key Z.leb ascending) rows
  | ColAmount => StableSort.sorted (row_leb amount Qle_bool ascending) rows
  | ColDate =>
      StableSort.sorted (row_leb (fun r => _parse (date r)) Z.leb ascending) rows
  | ColPercent => StableSort.sorted (row_leb (pct rows) Qle_bool ascending) rows
  | ColDescription =>
      StableSort.sorted
        (row_leb (fun r => lower (description r)) str_leb ascending) rows
  end.

(** [sort_by_column(col)] *)
Definition sort_by_column (c : Column) (app : App) : App :=
  let ascending :=
    match col (sort_state app) with
    | Some c' => if Column_eqb c' c then negb (asc (sort_state app)) else true
    | None => true
    end in
  mkApp (db_conn app) (sort_rows c ascending (df app))
    (mkSort (Some c) ascending) (undo_stack app).

(** The lines that end every operation:
    [if self.sort_state["col"]: self.sort_by_column(self.sort_state["col"])]. *)
Definition reapply_sort (app : App) : App :=
  match col (sort_state app) with
  | Some c => sort_by_column c app
  | None => app
  end.

(** The [for fmt in (...)] loop of [parse_date]. *)
Fixpoint try_formats (s : str) (fmts : list str) : str :=
  match fmts with
  | [] => s
  | fmt :: rest =>
      match strptime s fmt with
      | Some dt => date_isoformat dt
      | None => try_formats s rest
      end
  end.

Definition date_formats : list str :=
  [lit "%Y-%m-%d"; lit "%d.%m.%Y"; lit "%d/%m/%Y"; lit "%d-%m-%Y"].

(** [parse_date(s)]; [today] is [date.today().isoformat()]. *)
Definition parse_date (today : str) (s : str) : str :=
  let s := strip s in
  if str_eqb s [] then today
  else
    match fromisoformat s with
    | Some dt => date_isoformat dt
    | None => try_formats s date_formats
    end.

(** The entry fields [add_item] reads. *)
Record Form := mkForm {
  date_var : str;
  group_var : str;
  desc_var : str;
  amount_var : str
}.

(** Lines 369-373 of [add_item]: the sign follows the group. *)
Definition signed_amount (grp : str) (raw_amt : Q) : Q :=
  let mag := Qabs raw_amt in
  if str_eqb grp (lit "Gider") || str_eqb grp (lit "Pasif")
  then - mag else mag.

(** [add_item()] *)
Definition add_item (io : bool) (today : str) (form : Form) (app : App)
    : App * Outcome :=
  let date_text := parse_date today (date_var form) in
  let grp := group_var form in
  let desc := strip (desc_var form) in
  let amt_text := strip (amount_var form) in
  if str_eqb amt_text [] then (app, MissingAmount)
  else
    match parse_amount_input amt_text with
    | inl e => (app, InvalidAmount e)
    | inr raw_amt =>
        let amt_signed := signed_amount grp raw_amt in
        match insert io (db_conn app) date_text grp desc amt_signed with
        | inl e => (app, Unexpected e)
        | inr (conn, new_id) =>
            let new_row := mkRow new_id date_text grp desc amt_signed in
            let app1 :=
              mkApp conn (df app ++ [new_row]) (sort_state app) (undo_stack app) in
            let app2 := _push_undo (ActAdd new_id) app1 in
            (reapply_sort app2, Completed)
        end
    end.

(** The row [add_item] makes of a form whose amount reads as [raw]. *)
Definition new_row (today : str) (form : Form) (app : App) (raw : Q) : Row :=
  mkRow (next_id (db_conn app)) (parse_date today (date_var form))
    (group_var form) (strip (desc_var form))
    (signed_amount (group_var form) raw).

(** The state of [add_item] before the sort is applied again. *)
Definition appended (today : str) (form : Form) (app : App) (raw : Q) : App :=
  _push_undo (ActAdd (next_id (db_conn app)))
    (mkApp (mkConn (table (db_conn app) ++ [new_row today form app raw])
              (next_id (db_conn app)))
       (df app ++ [new_row today form app raw])
       (sort_state app) (undo_stack app)).

(** The table in memory and the table of the database hold the same
    rows (the order apart). *)
Definition mirrored (app : App) : Prop :=
  forall r, In r (df app) <-> In r (table (db_conn app)).

(** [remove_selected()]: [sel] is the selection of the tree, whose item
    ids are row ids; [confirm] is the answer to the dialog. *)
Definition remove_selected (io confirm : bool) (sel : list Z) (app : App)
    : App * Outcome :=
  match sel with
  | [] => (app, NoSelection)
  | _ :: _ =>
      let ids := sel in
      if negb confirm then (app, Declined)
      else
        let rows :=
          flat_map
            (fun rid =>
               match filter (fun r => (id r =? rid)%Z) (df app) with
               | r :: _ => [r]
               | [] => []
               end) ids in
        match delete_ids io (db_conn app) ids with
        | inl e => (app, Unexpected e)
        | inr conn =>
            let df' := filter (fun r => negb (existsb (Z.eqb (id r)) ids)) (df app) in
            let app1 := mkApp conn df' (sort_state app) (undo_stack app) in
            let app2 :=
              match rows with
              | [] => app1
              | _ :: _ => _push_undo (ActDelete rows) app1
              end in
            (reapply_sort app2, Completed)
        end
  end.

(** One turn of the reinsertion loop of [undo]: the row with its old id,
    with a fresh id when that one is taken, or skipped. *)
Definition reinsert (io : bool) (st : Conn * list Z) (r : Row) : Conn * list Z :=
  let '(conn, reinserted) := st in
  match insert_with_id io conn r with
  | inr conn' => (conn', reinserted ++ [id r])
  | inl IntegrityError =>
      match insert io conn (date r) (group r) (description r) (amount r) with
      | inr (conn', lastrowid) => (conn', reinserted ++ [lastrowid])
      | inl _ => (conn, reinserted)
      end
  | inl OperationalError => (conn, reinserted)
  end.

(** [undo()] *)
Definition undo (io : bool) (app : App) : App * Outcome :=
  match rev (undo_stack app) with
  | [] => (app, NothingToUndo)
  | action :: older =>
      let stack := rev older in
      match action with
      | ActAdd rid =>
          let conn :=
            match delete_ids io (db_conn app) [rid] with
            | inr conn => conn
            | inl _ => db_conn app
            end in
          let df' := filter (fun r => negb (id r =? rid)%Z) (df app) in
          (reapply_sort (mkApp conn df' (sort_state app) stack), Completed)
      | ActDelete rows =>
          match rows with
          | [] => (mkApp (db_conn app) (df app) (sort_state app) stack, NoUndoRows)
          | _ :: _ =>
              let '(conn, reinserted) := fold_left (reinsert io) rows (db_conn app, []) in
              let app1 := mkApp conn (df app) (sort_state app) stack in
              match load_db_into_df io app1 with
              | inl e => (app1, Unexpected e)
              | inr app2 => (reapply_sort app2, Restored (List.length reinserted))
              end
          end
      end
  end.

(** The rows of [load_sample]; the first description is spelled without
    its two letters beyond Latin-1. *)
Definition sample : list (str * str * str * Q) :=
  [ (lit "2025-01-05", lit "Gelir", lit "Satis", 5000);
    (lit "2025-01-20", lit "Gider", lit "Kira", 1200);
    (lit "2025-02-10", lit "Gider", lit "Tedarik", 1800);
    (lit "2025-02-15", lit "Gelir", lit "Hizmet", 3000);
    (lit "2025-03-01", lit "Aktif", lit "Bina", 25000);
    (lit "2025-03-15", lit "Pasif", lit "Kredi", 10000) ].

(** [load_sample()] *)
Definition load_sample (io : bool) (app : App) : App * Outcome :=
  match clear_all io (db_conn app) with
  | inl e => (app, Unexpected e)
  | inr conn0 =>
      let step (acc : Result Conn) (r : str * str * str * Q) : Result Conn :=
        match acc with
        | inl e => inl e
        | inr conn =>
            let '(d, g, ds, a) := r in
            let mag := Qabs a in
            let amt :=
              if str_eqb g (lit "Gider") || str_eqb g (lit "Pasif")
              then - mag else mag in
            match insert io conn d g ds amt with
            | inl e => inl e
            | inr (conn', _) => inr conn'
            end
        end in
      match fold_left step sample (inr conn0) with
      | inl e => (app, Unexpected e)
      | inr conn =>
          match load_db_into_df io (mkApp conn (df app) (sort_state app) (undo_stack app)) with
          | inl e => (app, Unexpected e)
          | inr app1 =>
              (reapply_sort (mkApp (db_conn app1) (df app1) (sort_state app1) []),
               Completed)
          end
      end
  end.

End WithDatetime.

End Ledger.

(* ================================================================== *)
(** * A reference [datetime] for the examples

    Plain calendar dates written with digits: a datetime is the number
    YYYYMMDD of its day, which orders days as the calendar does.  Times of
    day and the further ISO forms that [fromisoformat] reads are not
    covered; no property below depends on this instance. *)

Module RefDates.
Import PyStr Ledger.

Definition num (s : str) : Z := Z.of_N (digits_value s).

Definition is_leap (y : Z) : bool :=
  ((y mod 4 =? 0) && negb (y mod 100 =? 0) || (y mod 400 =? 0))%Z.

Definition days_in_month (y m : Z) : Z :=
  (if m =? 2 then (if is_leap y then 29 else 28)
   else if (m =? 4) || (m =? 6) || (m =? 9) || (m =? 11) then 30 else 31)%Z.

(** A four-digit year and a month and a day of [lo] to two digits, if
    they name a day of the calendar. *)
Definition make (lo : nat) (ys ms ds : str) : option Z :=
  let y := num ys in let m := num ms in let d := num ds in
  if forallb is_digit (ys ++ ms ++ ds)
     && (List.length ys =? 4)%nat
     && (lo <=? List.length ms)%nat && (List.length ms <=? 2)%nat
     && (lo <=? List.length ds)%nat && (List.length ds <=? 2)%nat
     && (1 <=? y)%Z && (1 <=? m)%Z && (m <=? 12)%Z
     && (1 <=? d)%Z && (d <=? days_in_month y m)%Z
  then Some (y * 10000 + m * 100 + d)%Z
  else None.

Definition ref_fromisoformat (s : str) : option Z :=
  match split "-" s with
  | [y; m; d] => make 2 y m d
  | _ => None
  end.

Definition ref_strptime (s fmt : str) : option Z :=
  if str_eqb fmt (lit "%Y-%m-%d") then
    match split "-" s with [y; m; d] => make 1 y m d | _ => None end
  else if str_eqb fmt (lit "%d.%m.%Y") then
    match split "." s with [d; m; y] => make 1 y m d | _ => None end
  else if str_eqb fmt (lit "%d/%m/%Y") then
    match split "/" s with [d; m; y] => make 1 y m d | _ => None end
  else if str_eqb fmt (lit "%d-%m-%Y") then
    match split "-" s with [d; m; y] => make 1 y m d | _ => None end
  else None.

Definition pad (n : nat) (z : Z) : str :=
  let ds := digits_of (Z.to_N z) in
  repeat "0"%char (n - List.length ds) ++ ds.

Definition ref_date_isoformat (t : Z) : str :=
  pad 4 (t / 10000) ++ lit "-" ++ pad 2 ((t / 100) mod 100) ++ lit "-"
  ++ pad 2 (t mod 100).

#[export] Instance ref_datetime : PyDatetime := {|
  fromisoformat := ref_fromisoformat;
  strptime := ref_strptime;
  date_isoformat := ref_date_isoformat;
  datetime_min := 10101
|}.

End RefDates.

(* ================================================================== *)
(** * Concrete states used by the examples *)

Module Examples.
Import PyStr Amount Db Ledger RefDates.

Definition today : str := lit "2025-06-01".

Definition row (i : Z) (g : string) (a : Q) : Row :=
  mkRow i (lit "2025-01-05") (lit g) (lit "") a.

(** Two rows, ids 1 and 2, amounts 1 and 2, as two adds leave them. *)
Definition two_rows : list Row := [row 1 "Gelir" 1; row 2 "Gelir" 2].

Definition app_unsorted : App :=
  mkApp (mkConn two_rows 2) two_rows (mkSort None true)
    [ActAdd 1; ActAdd 2].

(** The same after one click on the amount heading. *)
Definition app_by_amount : App := sort_by_column ColAmount app_unsorted.

Definition form (g amt : string) : Form :=
  mkForm (lit "2025-01-05") (lit g) (lit "") (lit amt).

(** One income and one expense of the same size: each is the whole of
    its group. *)
Definition mixed_rows : list Row := [row 1 "Gelir" 1; row 2 "Gider" (-1)].

Definition app_by_percent : App :=
  sort_by_column ColPercent
    (mkApp (mkConn mixed_rows 2) mixed_rows (mkSort None true)
       [ActAdd 1; ActAdd 2]).

(** A fresh ledger, and 101 undo entries. *)
Definition app_empty : App := mkApp (mkConn [] 0) [] (mkSort None true) [].

Definition entries_101 : list Action :=
  map (fun n => ActAdd (Z.of_nat n)) (List.seq 1 101).

End Examples.

(* ================================================================== *)
(** * The summary of the view, and what a sound ledger looks like *)

Module Views.
Import PyStr Db Ledger.

(** The six totals of [update_summary_and_view] (lines 561-566; the same
    sums open [export_text], lines 454-459). *)
Record Totals := mkTotals {
  total_gelir : Q;
  total_gider : Q;
  total_aktif : Q;
  total_pasif : Q;
  net_assets : Q;
  cash_on_hand : Q
}.

Definition totals (rows : list Row) : Totals :=
  let total_gelir := group_total (lit "Gelir") rows in
  let total_gider := group_total (lit "Gider") rows in
  let total_aktif := group_total (lit "Aktif") rows in
  let total_pasif := group_total (lit "Pasif") rows in
  mkTotals total_gelir total_gider total_aktif total_pasif
    (total_aktif + total_pasif) (total_gelir + total_gider).


(** The order of [ORDER BY id]. *)
Definition id_leb (a b : Row) : bool := (id a <=? id b)%Z.

(** No two rows share an id (the primary key). *)
Definition unique_ids (rows : list Row) : Prop := NoDup (map id rows).

(** A sound ledger: memory mirrors the database and ids are unique. *)
Definition well_formed (app : App) : Prop :=
  mirrored app /\ unique_ids (table (db_conn app)) /\ unique_ids (df app).

(** The sign of an amount follows its group, as [add_item] stores it. *)
Definition sign_ok (r : Row) : Prop :=
  if str_eqb (group r) (lit "Gider") || str_eqb (group r) (lit "Pasif")
  then amount r <= 0 else 0 <= amount r.

(** Two rows have equal keys in a column of the table [rows]. *)
Definition tied {DT : PyDatetime} (c : Column) (rows : list Row)
    (a b : Row) : bool :=
  match c with
  | ColGroup =>
      row_leb group_key Z.leb true a b && row_leb group_key Z.leb true b a
  | ColAmount =>
      row_leb amount Qle_bool true a b && row_leb amount Qle_bool true b a
  | ColDate =>
      row_leb (fun r => _parse (date r)) Z.leb true a b
      && row_leb (fun r => _parse (date r)) Z.leb true b a
  | ColPercent =>
      row_leb (pct rows) Qle_bool true a b && row_leb (pct rows) Qle_bool true b a
  | ColDescription =>
      row_leb (fun r => lower (description r)) str_leb true a b
      && row_leb (fun r => lower (description r)) str_leb true b a
  end.

(** The rows [remove_selected] keeps: those whose id is not selected. *)
Definition not_selected (sel : list Z) (r : Row) : bool :=
  negb (existsb (Z.eqb (id r)) sel).

(** The rows [remove_selected] records for the undo log (lines 419-424):
    for each selected id, the first row of the table with that id. *)
Definition selected_rows (sel : list Z) (rows : list Row) : list Row :=
  flat_map
    (fun rid =>
       match filter (fun r => (id r =? rid)%Z) rows with
       | r :: _ => [r]
       | [] => []
       end) sel.

(** The rows [load_sample] stores (lines 530-546) in a database whose id
    counter stands at [base]: the sample in its order, with ids from
    [base + 1] on and the sign of the group. *)
Definition sample_rows {DT : PyDatetime} (base : Z) : list Row :=
  map (fun kr : Z * (str * str * str * Q) =>
         let '(k, (d, g, ds, a)) := kr in
         mkRow (base + k) d g ds (signed_amount g a))
    (combine [1; 2; 3; 4; 5; 6]%Z sample).

(** One turn of the loop of [load_sample] (lines 541-544) on a database
    that can be written: the sample row is inserted with the sign of its
    group. *)
Definition sample_step (conn : Conn) (r : str * str * str * Q) : Conn :=
  let '(d, g, ds, a) := r in
  let mag := Qabs a in
  let amt :=
    if str_eqb g (lit "Gider") || str_eqb g (lit "Pasif") then - mag else mag in
  match insert true conn d g ds amt with
  | inr (conn', _) => conn'
  | inl _ => conn
  end.

(** [load_sample()] on a database that fails in the middle.  Every
    statement of db.py commits on its own (lines 43 and 58), and the
    [except] of [load_sample] takes nothing back.  [ok] counts the
    statements that succeed before one raises: the DELETE of [clear_all]
    first, then the INSERTs of the sample in their order.  The table and
    the undo log are touched only after the last INSERT (lines 546-548):
    when seven statements or more succeed, the operation is the one of
    [load_sample]. *)
Definition load_sample_failing {DT : PyDatetime} (ok : nat) (app : App)
    : App * Outcome :=
  match ok with
  | O => (app, Unexpected OperationalError)
  | S n =>
      if (n <? List.length sample)%nat then
        let conn :=
          fold_left sample_step (firstn n sample)
            (mkConn [] (seq (db_conn app))) in
        (mkApp conn (df app) (sort_state app) (undo_stack app),
         Unexpected OperationalError)
      else load_sample true app
  end.

(** The rows an undo entry holds. *)
Definition action_rows (a : Action) : list Row :=
  match a with
  | ActAdd _ => []
  | ActDelete rows => rows
  end.

(** Every amount the ledger holds, in the table, in the database and in
    the undo log, has the sign of its group. *)
Definition signed (app : App) : Prop :=
  Forall sign_ok (df app)
  /\ Forall sign_ok (table (db_conn app))
  /\ Forall (fun a => Forall sign_ok (action_rows a)) (undo_stack app).

End Views.

(* ================================================================== *)
(** * Properties *)

(* ------------------------------------------------------------------ *)
(** ** The stable sort *)

Module SortFacts.
Import StableSort.

Section Ext.
Context {A : Type} (f g : A -> A -> bool).
Hypothesis fg : forall a b, f a b = g a b.

Lemma insert_ext x l : insert f x l = insert g x l.
Proof.
  induction l as [|y t IH]; simpl; [reflexivity|].
  rewrite fg, IH. reflexivity.
Qed.

Lemma sort_ext l : sort f l = sort g l.
Proof.
  induction l as [|x t IH]; simpl; [reflexivity|].
  rewrite IH. apply insert_ext.
Qed.

End Ext.

Section Order.
Context {A : Type} (leb : A -> A -> bool).
Hypothesis leb_total : forall a b, leb a b = true \/ leb b a = true.
Hypothesis leb_trans :
  forall a b c, leb a b = true -> leb b c = true -> leb a c = true.

Lemma insert_perm x l : Permutation (x :: l) (insert leb x l).
Proof.
  induction l as [|y t IH]; simpl; [apply Permutation_refl|].
  destruct (leb x y); [apply Permutation_refl|].
  eapply perm_trans; [apply perm_swap|]. apply perm_skip, IH.
Qed.

Lemma sort_perm l : Permutation l (sort leb l).
Proof.
  induction l as [|x t IH]; simpl; [constructor|].
  eapply perm_trans; [apply perm_skip, IH|]. apply insert_perm.
Qed.

Lemma sort_In x l : In x (sort leb l) <-> In x l.
Proof.
  split; intro H.
  - eapply Permutation_in; [apply Permutation_sym, sort_perm|exact H].
  - eapply Permutation_in; [apply sort_perm|exact H].
Qed.

Lemma sorted_cons x l :
  sorted leb (x :: l) = true ->
  sorted leb l = true /\ forall z, In z l -> leb x z = true.
Proof.
  revert x. induction l as [|y t IH]; intros x H.
  - split; [reflexivity|intros z []].
  - simpl in H. apply andb_prop in H as [Hxy Hs].
    split; [exact Hs|].
    intros z [<-|Hz]; [exact Hxy|].
    apply leb_trans with y; [exact Hxy|].
    apply (IH y Hs); exact Hz.
Qed.

Lemma insert_least x l :
  (forall z, In z l -> leb x z = true) -> insert leb x l = x :: l.
Proof.
  destruct l as [|y t]; simpl; intro H; [reflexivity|].
  rewrite (H y (or_introl eq_refl)). reflexivity.
Qed.

Lemma insert_sorted x l :
  sorted leb l = true -> sorted leb (insert leb x l) = true.
Proof.
  induction l as [|y t IH]; intro Hs; [reflexivity|].
  simpl. destruct (leb x y) eqn:Hxy.
  - change (leb x y && sorted leb (y :: t) = true). rewrite Hxy, Hs. reflexivity.
  - assert (Hyx : leb y x = true)
      by (destruct (leb_total x y) as [H|H]; [congruence|exact H]).
    simpl in Hs. apply andb_prop in Hs as [Hh Ht].
    specialize (IH Ht). simpl.
    rewrite IH, andb_true_r.
    destruct t as [|z t']; simpl; [exact Hyx|].
    destruct (leb x z); [exact Hyx|exact Hh].
Qed.

Lemma sort_sorted l : sorted leb (sort leb l) = true.
Proof.
  induction l as [|x t IH]; [reflexivity|]. simpl. apply insert_sorted, IH.
Qed.

Lemma sort_of_sorted l : sorted leb l = true -> sort leb l = l.
Proof.
  induction l as [|x t IH]; intro Hs; [reflexivity|].
  destruct (sorted_cons _ _ Hs) as [Ht Hle].
  simpl. rewrite (IH Ht). apply insert_least, Hle.
Qed.

(** Sorting twice is sorting once. *)
Lemma sort_idem l : sort leb (sort leb l) = sort leb l.
Proof. apply sort_of_sorted, sort_sorted. Qed.

Lemma filter_insert p x l :
  sorted leb l = true ->
  filter p (insert leb x l) =
  if p x then insert leb x (filter p l) else filter p l.
Proof.
  induction l as [|y t IH]; intro Hs.
  - simpl. destruct (p x); reflexivity.
  - destruct (sorted_cons _ _ Hs) as [Ht Hle].
    simpl insert. destruct (leb x y) eqn:Hxy.
    + change (filter p (x :: y :: t)) with
        (if p x then x :: filter p (y :: t) else filter p (y :: t)).
      destruct (p x); [|reflexivity].
      symmetry. apply insert_least.
      intros z Hz. apply filter_In in Hz as [Hz _].
      destruct Hz as [<-|Hz]; [exact Hxy|].
      apply leb_trans with y; [exact Hxy|apply Hle, Hz].
    + simpl. rewrite (IH Ht).
      destruct (p x), (p y); simpl; try rewrite Hxy; reflexivity.
Qed.

(** Dropping rows and sorting commute. *)
Lemma filter_sort p l : filter p (sort leb l) = sort leb (filter p l).
Proof.
  induction l as [|x t IH]; [reflexivity|].
  simpl. rewrite filter_insert by apply sort_sorted.
  rewrite IH. destruct (p x); reflexivity.
Qed.

(** Two insertions commute when the elements are not tied. *)
Lemma insert_comm x y l :
  leb y x = false ->
  insert leb x (insert leb y l) = insert leb y (insert leb x l).
Proof.
  intro Hyx.
  assert (Hxy : leb x y = true)
    by (destruct (leb_total x y) as [H|H]; [exact H|congruence]).
  induction l as [|z t IH]; simpl.
  - rewrite Hxy, Hyx. reflexivity.
  - destruct (leb y z) eqn:Hyz, (leb x z) eqn:Hxz; simpl;
      rewrite ?Hxy, ?Hyx, ?Hyz, ?Hxz; try reflexivity.
    + rewrite (leb_trans x y z Hxy Hyz) in Hxz. discriminate.
    + rewrite IH. reflexivity.
Qed.

(** Sorting what the opposite order has sorted: the ties are still in
    their first order, so the result is the sort of the first list. *)
Lemma sort_insert_flip x l :
  sort leb (insert (fun a b => leb b a) x l) = insert leb x (sort leb l).
Proof.
  induction l as [|y t IH]; [reflexivity|].
  simpl. destruct (leb y x) eqn:Hyx; [reflexivity|].
  simpl. rewrite IH. symmetry. apply insert_comm, Hyx.
Qed.

Lemma sort_sort_flip l :
  sort leb (sort (fun a b => leb b a) l) = sort leb l.
Proof.
  induction l as [|x t IH]; [reflexivity|].
  simpl. rewrite sort_insert_flip, IH. reflexivity.
Qed.

End Order.

End SortFacts.

(* ------------------------------------------------------------------ *)
(** ** The orders of the sort keys *)

Module OrderFacts.
Import PyStr StableSort.

Lemma Zleb_total : total Z.leb.
Proof. intros a b. rewrite !Z.leb_le. lia. Qed.

Lemma Zleb_trans : transitive Z.leb.
Proof. intros a b c. rewrite !Z.leb_le. lia. Qed.

Lemma Qleb_total : total Qle_bool.
Proof.
  intros a b. rewrite !Qle_bool_iff.
  destruct (Qlt_le_dec a b) as [H|H]; [left; apply Qlt_le_weak, H|right; exact H].
Qed.

Lemma Qleb_trans : transitive Qle_bool.
Proof. intros a b c. rewrite !Qle_bool_iff. apply Qle_trans. Qed.

Lemma str_leb_total : total str_leb.
Proof.
  intros a. induction a as [|x a IH]; intros [|y b]; simpl; auto.
  destruct (N.ltb_spec (ord x) (ord y)), (N.ltb_spec (ord y) (ord x));
    auto; lia.
Qed.

Lemma str_leb_trans : transitive str_leb.
Proof.
  intros a. induction a as [|x a IH]; intros [|y b] [|z c]; simpl; auto;
    try discriminate.
  destruct (N.ltb_spec (ord x) (ord y)), (N.ltb_spec (ord y) (ord x)),
    (N.ltb_spec (ord y) (ord z)), (N.ltb_spec (ord z) (ord y)),
    (N.ltb_spec (ord x) (ord z)), (N.ltb_spec (ord z) (ord x));
    try discriminate; try reflexivity; try lia.
  apply IH.
Qed.

Create HintDb orders.

#[export] Hint Resolve Zleb_total Zleb_trans Qleb_total Qleb_trans
  str_leb_total str_leb_trans : orders.

End OrderFacts.

(* ------------------------------------------------------------------ *)
(** ** [sort_values] *)

Module SortValuesFacts.
Import Db Ledger StableSort OrderFacts.

Section Keyed.
Context {K : Type} (key : Row -> K) (leb : K -> K -> bool).
Hypothesis Htotal : total leb.
Hypothesis Htrans : transitive leb.

Let cmp := row_leb key leb.

Lemma cmp_total ascending a b :
  row_leb key leb ascending a b = true \/ row_leb key leb ascending b a = true.
Proof. unfold cmp, row_leb. destruct ascending; apply Htotal. Qed.

Lemma cmp_trans ascending a b c :
  row_leb key leb ascending a b = true ->
  row_leb key leb ascending b c = true ->
  row_leb key leb ascending a c = true.
Proof.
  unfold cmp, row_leb. destruct ascending; intros H1 H2.
  - eapply Htrans; eassumption.
  - eapply Htrans; eassumption.
Qed.

Lemma sort_values_perm ascending rows :
  Permutation rows (sort_values key leb ascending rows).
Proof. apply SortFacts.sort_perm. Qed.

Lemma sort_values_sorted ascending rows :
  StableSort.sorted (row_leb key leb ascending)
    (sort_values key leb ascending rows) = true.
Proof.
  apply (SortFacts.sort_sorted (cmp ascending)); solve [apply cmp_total | apply cmp_trans].
Qed.

Lemma sort_values_idem ascending rows :
  sort_values key leb ascending (sort_values key leb ascending rows)
  = sort_values key leb ascending rows.
Proof.
  apply (SortFacts.sort_idem (cmp ascending)); solve [apply cmp_total | apply cmp_trans].
Qed.

Lemma sort_values_fixed ascending rows :
  StableSort.sorted (row_leb key leb ascending) rows = true ->
  sort_values key leb ascending rows = rows.
Proof.
  apply (SortFacts.sort_of_sorted (cmp ascending)). apply cmp_trans.
Qed.

Lemma sort_values_filter p ascending rows :
  filter p (sort_values key leb ascending rows)
  = sort_values key leb ascending (filter p rows).
Proof.
  apply (SortFacts.filter_sort (cmp ascending)); solve [apply cmp_total | apply cmp_trans].
Qed.

(** Sorting one way what was sorted the other way. *)
Lemma sort_values_flip ascending rows :
  sort_values key leb ascending (sort_values key leb (negb ascending) rows)
  = sort_values key leb ascending rows.
Proof.
  unfold sort_values.
  rewrite (SortFacts.sort_ext (row_leb key leb (negb ascending))
             (fun a b => cmp ascending b a)).
  - apply (SortFacts.sort_sort_flip (cmp ascending));
      solve [apply cmp_total | apply cmp_trans].
  - intros a b. unfold cmp, row_leb. destruct ascending; reflexivity.
Qed.

End Keyed.

End SortValuesFacts.

(* ------------------------------------------------------------------ *)
(** ** The percent key does not depend on the order of the table *)

Module PercentFacts.
Import PyStr Db Ledger.

Lemma filter_perm {A : Type} (p : A -> bool) l l' :
  Permutation l l' -> Permutation (filter p l) (filter p l').
Proof.
  induction 1 as [|x l l' _ IH|x y l|l l' l'' _ IH1 _ IH2]; simpl.
  - constructor.
  - destruct (p x); [apply perm_skip|]; exact IH.
  - destruct (p x), (p y); try apply Permutation_refl. apply perm_swap.
  - eapply perm_trans; eassumption.
Qed.

Lemma fold_Qplus_Qeq l : forall a b, a == b ->
  fold_left Qplus l a == fold_left Qplus l b.
Proof.
  induction l as [|x l IH]; intros a b Hab; simpl; [exact Hab|].
  apply IH. rewrite Hab. reflexivity.
Qed.

Lemma fold_Qplus_perm l l' :
  Permutation l l' -> forall a, fold_left Qplus l a == fold_left Qplus l' a.
Proof.
  induction 1 as [|x l l' _ IH|x y l|l l' l'' _ IH1 _ IH2]; intro a; simpl.
  - reflexivity.
  - apply IH.
  - apply fold_Qplus_Qeq. ring.
  - rewrite IH1. apply IH2.
Qed.

Lemma group_total_perm g l l' :
  Permutation l l' -> group_total g l == group_total g l'.
Proof.
  intro H. unfold group_total.
  apply fold_Qplus_perm, Permutation_map, filter_perm, H.
Qed.

Lemma abs_total_Qeq t t' :
  t == t' ->
  (if negb (Qeq_bool t 0) then Qabs t else 0)
  == (if negb (Qeq_bool t' 0) then Qabs t' else 0).
Proof.
  intro H. rewrite (Qeqb_comp t t' H 0 0 (Qeq_refl 0)).
  destruct (Qeq_bool t' 0); simpl; [reflexivity|]. rewrite H. reflexivity.
Qed.

Lemma abs_total2_Qeq t t' u u' :
  t == t' -> u == u' ->
  (if negb (Qeq_bool t 0) || negb (Qeq_bool u 0) then Qabs t + Qabs u else 0)
  == (if negb (Qeq_bool t' 0) || negb (Qeq_bool u' 0)
      then Qabs t' + Qabs u' else 0).
Proof.
  intros Ht Hu.
  rewrite (Qeqb_comp t t' Ht 0 0 (Qeq_refl 0)).
  rewrite (Qeqb_comp u u' Hu 0 0 (Qeq_refl 0)).
  destruct (negb (Qeq_bool t' 0) || negb (Qeq_bool u' 0)); [|reflexivity].
  rewrite Ht, Hu. reflexivity.
Qed.

Lemma abs_totals_perm l l' :
  Permutation l l' -> totals_eq (abs_totals l) (abs_totals l').
Proof.
  intro H. unfold totals_eq, abs_totals; cbn [fst snd].
  repeat split;
    [apply abs_total_Qeq | apply abs_total_Qeq | apply abs_total2_Qeq];
    apply group_total_perm, H.
Qed.

Lemma _pct_Qeq t t' r : totals_eq t t' -> _pct t r == _pct t' r.
Proof.
  destruct t as [[a b] c], t' as [[a' b'] c'].
  unfold totals_eq; cbn [fst snd]. intros (Ha & Hb & Hc).
  unfold _pct, Qltb.
  rewrite (Qleb_comp a a' Ha 0 0 (Qeq_refl 0)).
  rewrite (Qleb_comp b b' Hb 0 0 (Qeq_refl 0)).
  rewrite (Qleb_comp c c' Hc 0 0 (Qeq_refl 0)).
  repeat match goal with
         | |- context [if ?x then _ else _] => destruct x
         end; rewrite ?Ha, ?Hb, ?Hc; reflexivity.
Qed.

Lemma pct_perm l l' r : Permutation l l' -> pct l r == pct l' r.
Proof. intro H. apply _pct_Qeq, abs_totals_perm, H. Qed.

Lemma pct_leb_perm l l' ascending a b :
  Permutation l l' ->
  row_leb (pct l) Qle_bool ascending a b
  = row_leb (pct l') Qle_bool ascending a b.
Proof.
  intro H. unfold row_leb.
  destruct ascending; apply Qleb_comp; apply pct_perm, H.
Qed.

End PercentFacts.

(* ------------------------------------------------------------------ *)
(** ** Sorting the table by a column *)

Module SortRowsFacts.
Import PyStr Db Ledger OrderFacts SortValuesFacts PercentFacts.

Lemma sorted_ext {A : Type} (f g : A -> A -> bool) l :
  (forall a b, f a b = g a b) ->
  StableSort.sorted f l = StableSort.sorted g l.
Proof.
  intro fg. induction l as [|x t IH]; [reflexivity|].
  simpl. rewrite IH. destruct t; rewrite ?fg; reflexivity.
Qed.

Section WithDatetime.
Context {DT : PyDatetime}.

Lemma sort_rows_perm c a l : Permutation l (sort_rows c a l).
Proof. destruct c; apply sort_values_perm. Qed.

(** The percent sort of a table whose keys are those of a reordering. *)
Lemma sort_percent_key a l l' :
  Permutation l l' ->
  sort_values (pct l') Qle_bool a l = sort_values (pct l) Qle_bool a l.
Proof.
  intro H. apply SortFacts.sort_ext. intros x y.
  symmetry. apply pct_leb_perm, H.
Qed.

Lemma sort_rows_percent_key a l l' :
  Permutation l l' ->
  sort_rows ColPercent a l' = sort_values (pct l) Qle_bool a l'.
Proof.
  intro H. unfold sort_rows. apply SortFacts.sort_ext. intros x y.
  apply pct_leb_perm, Permutation_sym, H.
Qed.

Lemma sort_rows_idem c a l :
  sort_rows c a (sort_rows c a l) = sort_rows c a l.
Proof.
  destruct c;
    try (apply sort_values_idem; auto with orders).
  rewrite (sort_rows_percent_key a l) by apply sort_rows_perm.
  apply sort_values_idem; auto with orders.
Qed.

Lemma sort_rows_flip c a l :
  sort_rows c a (sort_rows c (negb a) l) = sort_rows c a l.
Proof.
  destruct c;
    try (apply sort_values_flip; auto with orders).
  rewrite (sort_rows_percent_key a l) by apply sort_rows_perm.
  apply sort_values_flip; auto with orders.
Qed.

Lemma sort_rows_fixed c a l :
  rows_sorted c a l = true -> sort_rows c a l = l.
Proof.
  destruct c; apply sort_values_fixed; auto with orders.
Qed.

Lemma sort_rows_sorted c a l : rows_sorted c a (sort_rows c a l) = true.
Proof.
  destruct c;
    try (apply sort_values_sorted; auto with orders).
  unfold rows_sorted.
  rewrite (sorted_ext _ (row_leb (pct l) Qle_bool a)).
  - apply sort_values_sorted; auto with orders.
  - intros x y. apply pct_leb_perm, Permutation_sym, sort_rows_perm.
Qed.

(** Dropping rows and sorting commute for the four columns whose key is
    read off the row alone. *)
Lemma sort_rows_filter c a p l :
  c <> ColPercent ->
  filter p (sort_rows c a l) = sort_rows c a (filter p l).
Proof.
  destruct c; intro Hc; try congruence;
    apply sort_values_filter; auto with orders.
Qed.

End WithDatetime.

End SortRowsFacts.

(* ------------------------------------------------------------------ *)
(** ** [sort_by_column] and the operations that call it again *)

Module SortClaims.
Import PyStr Amount Db Ledger SortRowsFacts.

Section WithDatetime.
Context {DT : PyDatetime}.

Lemma sort_by_column_df c app :
  df (sort_by_column c app)
  = sort_rows c (asc (sort_state (sort_by_column c app))) (df app).
Proof. reflexivity. Qed.

Lemma sort_by_column_active c a app :
  sort_state app = mkSort (Some c) a ->
  sort_by_column c app
  = mkApp (db_conn app) (sort_rows c (negb a) (df app))
      (mkSort (Some c) (negb a)) (undo_stack app).
Proof.
  intro H. unfold sort_by_column. rewrite H. simpl.
  destruct c; reflexivity.
Qed.

(** What [reapply_sort] does when a sort is active: the direction turns
    round, because [sort_by_column] is called with the active column. *)
Lemma reapply_sort_active c a app :
  sort_state app = mkSort (Some c) a ->
  reapply_sort app
  = mkApp (db_conn app) (sort_rows c (negb a) (df app))
      (mkSort (Some c) (negb a)) (undo_stack app).
Proof.
  intro H. unfold reapply_sort. rewrite H. simpl.
  apply sort_by_column_active, H.
Qed.

Lemma reapply_sort_inactive app :
  col (sort_state app) = None -> reapply_sort app = app.
Proof. intro H. unfold reapply_sort. rewrite H. reflexivity. Qed.

(** C2, as the code has it.  For the columns whose key is read off the
    row itself (date, group, description, amount): sorting by a fixed
    column in a fixed direction is idempotent, a second sort leaves the
    order of the first.  [sort_by_column] takes the column alone and
    turns the direction round when that column is the active one, so the
    second of two calls in succession sorts the table in the opposite
    direction, and a third call gives the order of the first again.  (The
    percent key is computed from the totals of the table; nothing is said
    here of the order it gives.) *)
Theorem sort_by_column_again (c : Column) (app : App) :
  c <> ColPercent ->
  let app1 := sort_by_column c app in
  let app2 := sort_by_column c app1 in
  (forall a rows, sort_rows c a (sort_rows c a rows) = sort_rows c a rows)
  /\ sort_state app2 = mkSort (Some c) (negb (asc (sort_state app1)))
  /\ df app2 = sort_rows c (negb (asc (sort_state app1))) (df app)
  /\ df (sort_by_column c app2) = df app1.
Proof.
  intros _ app1 app2.
  assert (H1 : sort_state app1 = mkSort (Some c) (asc (sort_state app1)))
    by reflexivity.
  assert (E2 : app2 = mkApp (db_conn app1)
                 (sort_rows c (negb (asc (sort_state app1))) (df app1))
                 (mkSort (Some c) (negb (asc (sort_state app1))))
                 (undo_stack app1))
    by (apply sort_by_column_active, H1).
  assert (D2 : df app2 = sort_rows c (negb (asc (sort_state app1))) (df app)).
  { rewrite E2. cbn [df].
    change (df app1) with (sort_rows c (asc (sort_state app1)) (df app)).
    rewrite <- (negb_involutive (asc (sort_state app1))) at 2.
    apply sort_rows_flip. }
  split; [intros a rows; apply sort_rows_idem|].
  split; [rewrite E2; reflexivity|].
  split; [exact D2|].
  rewrite (sort_by_column_active c (negb (asc (sort_state app1))) app2)
    by (rewrite E2; reflexivity).
  cbn [df]. rewrite D2, negb_involutive, sort_rows_flip.
  reflexivity.
Qed.

End WithDatetime.

Import RefDates Examples.

(** C2, the claim as stated: two calls on the amount column do not give
    the order of one call (ids 2, 1 against 1, 2). *)
Lemma sort_by_column_twice_differs :
  df (sort_by_column ColAmount (sort_by_column ColAmount app_unsorted))
  <> df (sort_by_column ColAmount app_unsorted).
Proof. vm_compute. discriminate. Qed.

(** C2 on the amount column of the table of two rows: the second call
    sorts in descending order, the third gives the order of the first. *)
Lemma sort_by_column_again_witness :
  sort_state (sort_by_column ColAmount (sort_by_column ColAmount app_unsorted))
  = mkSort (Some ColAmount) false
  /\ df (sort_by_column ColAmount
           (sort_by_column ColAmount (sort_by_column ColAmount app_unsorted)))
     = df (sort_by_column ColAmount app_unsorted).
Proof.
  destruct (sort_by_column_again ColAmount app_unsorted) as (_ & Hs & _ & Hd);
    [discriminate|].
  split; [exact Hs|exact Hd].
Defined.

(** C1, the code at the failing input.  The table holds the amounts 1, 2
    in ascending order of amount; after adding an income of 3 the active
    sort is descending and the table reads 3, 2, 1. *)
Theorem add_item_reverses_active_sort :
  let app' := fst (add_item true today (form "Gelir" "3") app_by_amount) in
  sort_state app_by_amount = mkSort (Some ColAmount) true
  /\ map amount (df app_by_amount) = [1; 2]
  /\ sort_state app' = mkSort (Some ColAmount) false
  /\ map amount (df app') = [3; 2; 1]
  /\ rows_sorted ColAmount true (df app') = false.
Proof. vm_compute. repeat split; reflexivity. Qed.

End SortClaims.

(* ------------------------------------------------------------------ *)
(** ** Strings: equality and blank texts *)

Module StrFacts.
Import PyStr.

Lemma chr_eqb_eq a b : chr_eqb a b = true <-> a = b.
Proof. apply Ascii.eqb_eq. Qed.

Lemma str_eqb_eq a b : str_eqb a b = true <-> a = b.
Proof.
  revert b. induction a as [|x a IH]; intros [|y b]; simpl;
    try (split; [discriminate|discriminate]); [tauto|].
  rewrite andb_true_iff, chr_eqb_eq, IH.
  split; [intros [-> ->]; reflexivity|intro H; inversion H; auto].
Qed.

Lemma str_eqb_refl a : str_eqb a a = true.
Proof. apply str_eqb_eq. reflexivity. Qed.

Lemma str_eqb_nil s : str_eqb s [] = false <-> s <> [].
Proof. destruct s; simpl; split; congruence. Qed.

Lemma lstrip_blank s : forallb is_space s = true -> lstrip s = [].
Proof.
  induction s as [|c t IH]; simpl; [reflexivity|].
  intro H. apply andb_prop in H as [Hc Ht]. rewrite Hc. apply IH, Ht.
Qed.

(** A text of white space only strips to the empty text. *)
Lemma strip_blank s : forallb is_space s = true -> strip s = [].
Proof. intro H. unfold strip. rewrite (lstrip_blank s H). reflexivity. Qed.

End StrFacts.

(* ------------------------------------------------------------------ *)
(** ** [parse_date] *)

Module DateClaims.
Import PyStr Ledger StrFacts.

Section WithDatetime.
Context {DT : PyDatetime}.

Lemma try_formats_none s fmts :
  (forall fmt, In fmt fmts -> strptime s fmt = None) ->
  try_formats s fmts = s.
Proof.
  induction fmts as [|f t IH]; intro H; [reflexivity|].
  simpl. rewrite (H f (or_introl eq_refl)).
  apply IH. intros fmt Hin. apply H. right. exact Hin.
Qed.

(** The first format that reads the text decides. *)
Lemma try_formats_first s pre fmt post dt :
  (forall f, In f pre -> strptime s f = None) ->
  strptime s fmt = Some dt ->
  try_formats s (pre ++ fmt :: post) = date_isoformat dt.
Proof.
  intros Hpre Hfmt. induction pre as [|f t IH]; cbn [Datatypes.app try_formats].
  - rewrite Hfmt. reflexivity.
  - rewrite (Hpre f (or_introl eq_refl)).
    apply IH. intros g Hg. apply Hpre. right. exact Hg.
Qed.

(** C10.  An empty or white-space-only date text is normalized to
    today's ISO date, whatever the parsers would say of it.  A text that
    is not blank is normalized to the ISO form of the date it reads as:
    the one [fromisoformat] reads, or else the one read by the first of
    the four [strptime] formats that accepts it.  The text itself
    (stripped) comes back only when neither [fromisoformat] nor any of
    the four formats reads it. *)
Theorem parse_date_blank_is_today (today s : str) :
  (forallb is_space s = true -> parse_date today s = today)
  /\ (strip s <> [] ->
      forall dt, fromisoformat (strip s) = Some dt ->
      parse_date today s = date_isoformat dt)
  /\ (strip s <> [] ->
      fromisoformat (strip s) = None ->
      forall pre fmt post dt,
        date_formats = pre ++ fmt :: post ->
        (forall f, In f pre -> strptime (strip s) f = None) ->
        strptime (strip s) fmt = Some dt ->
        parse_date today s = date_isoformat dt)
  /\ (strip s <> [] ->
      fromisoformat (strip s) = None ->
      (forall fmt, In fmt date_formats -> strptime (strip s) fmt = None) ->
      parse_date today s = strip s).
Proof.
  split; [|split; [|split]].
  - intro H. unfold parse_date. rewrite (strip_blank s H). reflexivity.
  - intros Hne dt Hiso. unfold parse_date.
    apply str_eqb_nil in Hne. rewrite Hne, Hiso. reflexivity.
  - intros Hne Hiso pre fmt post dt Hfm Hpre Hfmt. unfold parse_date.
    apply str_eqb_nil in Hne. rewrite Hne, Hiso, Hfm.
    apply try_formats_first; assumption.
  - intros Hne Hiso Hfmt. unfold parse_date.
    apply str_eqb_nil in Hne. rewrite Hne, Hiso.
    apply try_formats_none, Hfmt.
Qed.

End WithDatetime.

Import RefDates Examples.

(** C10 at four inputs: blanks and a tab give today's date; a date in
    ISO form with blanks around it and a date written day first both come
    back in ISO form; a word no parser reads comes back stripped. *)
Lemma parse_date_blank_is_today_witness :
  parse_date today [" "; "009"; " "]%char = today
  /\ parse_date today (lit " 2025-01-05 ") = lit "2025-01-05"
  /\ parse_date today (lit "05.01.2025") = lit "2025-01-05"
  /\ parse_date today (lit " soon ") = lit "soon".
Proof.
  destruct (parse_date_blank_is_today today [" "; "009"; " "]%char)
    as (H1 & _).
  destruct (parse_date_blank_is_today today (lit " 2025-01-05 "))
    as (_ & H2 & _).
  destruct (parse_date_blank_is_today today (lit "05.01.2025"))
    as (_ & _ & H3 & _).
  destruct (parse_date_blank_is_today today (lit " soon "))
    as (_ & _ & _ & H4).
  split; [|split; [|split]].
  - apply H1. reflexivity.
  - apply (H2 ltac:(vm_compute; discriminate) 20250105%Z). reflexivity.
  - apply (H3 ltac:(vm_compute; discriminate) eq_refl
             [lit "%Y-%m-%d"] (lit "%d.%m.%Y")
             [lit "%d/%m/%Y"; lit "%d-%m-%Y"] 20250105%Z).
    + reflexivity.
    + intros f [<-|[]]. reflexivity.
    + reflexivity.
  - apply H4.
    + vm_compute. discriminate.
    + reflexivity.
    + intros fmt Hin. simpl in Hin.
      destruct Hin as [<-|[<-|[<-|[<-|[]]]]]; reflexivity.
Defined.

End DateClaims.

(* ------------------------------------------------------------------ *)
(** ** The undo log *)

Module UndoClaims.
Import PyStr Amount Db Ledger SortClaims.

Lemma push_undo_stack a app :
  undo_stack (_push_undo a app)
  = (if (List.length (undo_stack app) <? UNDO_STACK_MAX)%nat
     then undo_stack app else tl (undo_stack app)) ++ [a].
Proof.
  unfold _push_undo; cbn [undo_stack].
  rewrite length_app; cbn [List.length].
  destruct (Nat.ltb_spec UNDO_STACK_MAX (List.length (undo_stack app) + 1)) as [L|L];
    destruct (Nat.ltb_spec (List.length (undo_stack app)) UNDO_STACK_MAX) as [M|M];
    try reflexivity; unfold UNDO_STACK_MAX in *; try lia.
  destruct (undo_stack app); [cbn [List.length] in L; lia|reflexivity].
Qed.

Lemma push_undo_length a app :
  (List.length (undo_stack app) <= UNDO_STACK_MAX)%nat ->
  (List.length (undo_stack (_push_undo a app)) <= UNDO_STACK_MAX)%nat.
Proof.
  intro H. rewrite push_undo_stack.
  destruct (Nat.ltb_spec (List.length (undo_stack app)) UNDO_STACK_MAX) as [L|L];
    rewrite length_app; cbn [List.length].
  - unfold UNDO_STACK_MAX in *; lia.
  - destruct (undo_stack app); cbn [List.length tl] in *;
      unfold UNDO_STACK_MAX in *; lia.
Qed.

(** Pushing a run of entries keeps the last [UNDO_STACK_MAX] of them. *)
Lemma push_many acts : forall app,
  (List.length (undo_stack app) <= UNDO_STACK_MAX)%nat ->
  undo_stack (fold_left (fun s a => _push_undo a s) acts app)
  = skipn (List.length (undo_stack app ++ acts) - UNDO_STACK_MAX)
      (undo_stack app ++ acts).
Proof.
  induction acts as [|a acts IH]; intros app H.
  - cbn [fold_left]. rewrite app_nil_r.
    replace (List.length (undo_stack app) - UNDO_STACK_MAX)%nat with 0%nat by lia.
    reflexivity.
  - cbn [fold_left]. rewrite (IH _ (push_undo_length a app H)).
    rewrite push_undo_stack.
    destruct (Nat.ltb_spec (List.length (undo_stack app)) UNDO_STACK_MAX) as [L|L].
    + rewrite <- app_assoc. reflexivity.
    + destruct (undo_stack app) as [|x st] eqn:E;
        [cbn [List.length] in L; unfold UNDO_STACK_MAX in L; lia|].
      cbn [tl]. rewrite <- !app_assoc. cbn [Datatypes.app].
      cbn [List.length] in *.
      assert (Hl : (UNDO_STACK_MAX <= List.length (st ++ a :: acts))%nat)
        by (rewrite length_app; cbn [List.length]; lia).
      replace (S (List.length (st ++ a :: acts)) - UNDO_STACK_MAX)%nat
        with (S (List.length (st ++ a :: acts) - UNDO_STACK_MAX))%nat by lia.
      reflexivity.
Qed.

Section WithDatetime.
Context {DT : PyDatetime}.

Lemma sort_by_column_undo_stack c app :
  undo_stack (sort_by_column c app) = undo_stack app.
Proof. reflexivity. Qed.

Lemma reapply_sort_undo_stack app :
  undo_stack (reapply_sort app) = undo_stack app.
Proof. unfold reapply_sort. destruct (col (sort_state app)); reflexivity. Qed.

Lemma add_item_undo_bound io today form app :
  (List.length (undo_stack app) <= UNDO_STACK_MAX)%nat ->
  (List.length (undo_stack (fst (add_item io today form app))) <= UNDO_STACK_MAX)%nat.
Proof.
  intro H. unfold add_item.
  destruct (str_eqb _ _); [exact H|].
  destruct (parse_amount_input _); [exact H|].
  destruct (insert _ _ _ _ _ _) as [e|[conn nid]]; [exact H|].
  cbn [fst]. rewrite reapply_sort_undo_stack.
  apply push_undo_length. exact H.
Qed.

Lemma remove_selected_undo_bound io confirm sel app :
  (List.length (undo_stack app) <= UNDO_STACK_MAX)%nat ->
  (List.length (undo_stack (fst (remove_selected io confirm sel app)))
   <= UNDO_STACK_MAX)%nat.
Proof.
  intro H. unfold remove_selected.
  destruct sel as [|i sel]; [exact H|].
  destruct (negb confirm); [exact H|].
  destruct (delete_ids _ _ _); [exact H|].
  cbn [fst]. rewrite reapply_sort_undo_stack.
  destruct (flat_map _ _); [exact H|].
  apply push_undo_length. exact H.
Qed.

Lemma undo_pops io app :
  undo_stack (fst (undo io app)) = removelast (undo_stack app).
Proof.
  unfold undo.
  destruct (undo_stack app) as [|x st] eqn:E using rev_ind; [cbn; exact E|].
  rewrite rev_app_distr. cbn [rev Datatypes.app]. rewrite rev_involutive.
  rewrite removelast_last.
  destruct x as [rid|rows].
  - cbn [fst]. rewrite reapply_sort_undo_stack. reflexivity.
  - destruct rows as [|r rows]; [reflexivity|].
    destruct (fold_left _ _ _) as [conn re].
    unfold load_db_into_df. cbn [db_conn].
    destruct (get_all io conn); [reflexivity|].
    cbn [fst]. rewrite reapply_sort_undo_stack. reflexivity.
Qed.

Lemma undo_undo_bound io app :
  (List.length (undo_stack app) <= UNDO_STACK_MAX)%nat ->
  (List.length (undo_stack (fst (undo io app))) <= UNDO_STACK_MAX)%nat.
Proof.
  intro H. rewrite undo_pops.
  destruct (undo_stack app) as [|x st] using rev_ind; [exact H|].
  rewrite removelast_last. rewrite length_app in H. lia.
Qed.

Lemma load_sample_undo_bound io app :
  (List.length (undo_stack app) <= UNDO_STACK_MAX)%nat ->
  (List.length (undo_stack (fst (load_sample io app))) <= UNDO_STACK_MAX)%nat.
Proof.
  intro H. unfold load_sample.
  destruct (clear_all io (db_conn app)); [exact H|].
  destruct (fold_left _ _ _); [exact H|].
  destruct (load_db_into_df _ _); [exact H|].
  cbn [fst]. rewrite reapply_sort_undo_stack. cbn. lia.
Qed.

(** C7.  From a log of at most 100 entries: a push appends the entry
    and, when the log was full, drops the oldest one (index 0), so the
    log still has at most 100 entries; every operation of the ledger
    keeps that bound; and 101 pushes on an empty log leave exactly the
    last 100 of them. *)
Theorem undo_stack_bounded (app : App) :
  (List.length (undo_stack app) <= UNDO_STACK_MAX)%nat ->
  (forall a,
      undo_stack (_push_undo a app)
      = (if (List.length (undo_stack app) <? UNDO_STACK_MAX)%nat
         then undo_stack app else tl (undo_stack app)) ++ [a]
      /\ (List.length (undo_stack (_push_undo a app)) <= UNDO_STACK_MAX)%nat)
  /\ (forall io today form,
        (List.length (undo_stack (fst (add_item io today form app)))
         <= UNDO_STACK_MAX)%nat)
  /\ (forall io confirm sel,
        (List.length (undo_stack (fst (remove_selected io confirm sel app)))
         <= UNDO_STACK_MAX)%nat)
  /\ (forall io,
        (List.length (undo_stack (fst (undo io app))) <= UNDO_STACK_MAX)%nat)
  /\ (forall io,
        (List.length (undo_stack (fst (load_sample io app)))
         <= UNDO_STACK_MAX)%nat)
  /\ (forall c,
        (List.length (undo_stack (sort_by_column c app)) <= UNDO_STACK_MAX)%nat)
  /\ (forall acts,
        undo_stack app = [] -> List.length acts = 101%nat ->
        let app' := fold_left (fun s a => _push_undo a s) acts app in
        undo_stack app' = tl acts
        /\ List.length (undo_stack app') = 100%nat).
Proof.
  intro H.
  split; [intro a; split; [apply push_undo_stack|apply push_undo_length, H]|].
  split; [intros; apply add_item_undo_bound; exact H|].
  split; [intros; apply remove_selected_undo_bound; exact H|].
  split; [intros; apply undo_undo_bound; exact H|].
  split; [intros; apply load_sample_undo_bound; exact H|].
  split; [intros; exact H|].
  intros acts Hemp Hlen app'. unfold app'.
  rewrite (push_many acts app H), Hemp. cbn [Datatypes.app].
  rewrite Hlen. destruct acts as [|a acts]; [discriminate|].
  change (skipn (101 - UNDO_STACK_MAX) (a :: acts)) with acts.
  split; [reflexivity|]. cbn [List.length] in Hlen. lia.
Qed.

End WithDatetime.

Import RefDates Examples.

(** C7 at concrete states: the log of [app_unsorted] has two entries,
    and 101 pushes on the empty log of [app_empty] leave the last 100. *)
Lemma undo_stack_bounded_witness :
  (forall io,
      (List.length (undo_stack (fst (undo io app_unsorted)))
       <= UNDO_STACK_MAX)%nat)
  /\ undo_stack (fold_left (fun s a => _push_undo a s) entries_101 app_empty)
     = tl entries_101
  /\ List.length
       (undo_stack (fold_left (fun s a => _push_undo a s) entries_101 app_empty))
     = 100%nat.
Proof.
  assert (H : (List.length (undo_stack app_unsorted) <= UNDO_STACK_MAX)%nat)
    by (vm_compute; lia).
  assert (H0 : (List.length (undo_stack app_empty) <= UNDO_STACK_MAX)%nat)
    by (vm_compute; lia).
  destruct (undo_stack_bounded app_unsorted H) as (_ & _ & _ & H4 & _).
  destruct (undo_stack_bounded app_empty H0) as (_ & _ & _ & _ & _ & _ & H7).
  split; [exact H4|].
  apply (H7 entries_101); reflexivity.
Defined.

End UndoClaims.

(* ------------------------------------------------------------------ *)
(** ** [add_item] *)

Module AddClaims.
Import PyStr Amount Db Ledger StrFacts SortRowsFacts SortClaims.

Section WithDatetime.
Context {DT : PyDatetime}.

Lemma add_item_success today form app raw :
  strip (amount_var form) <> [] ->
  parse_amount_input (strip (amount_var form)) = inr raw ->
  add_item true today form app
  = (reapply_sort (appended today form app raw), Completed).
Proof.
  intros Hne Hp. unfold add_item.
  apply str_eqb_nil in Hne. rewrite Hne, Hp. reflexivity.
Qed.

Lemma reapply_sort_db_conn app : db_conn (reapply_sort app) = db_conn app.
Proof. unfold reapply_sort. destruct (col (sort_state app)); reflexivity. Qed.

Lemma reapply_sort_perm app : Permutation (df app) (df (reapply_sort app)).
Proof.
  unfold reapply_sort. destruct (col (sort_state app)) as [c|];
    [apply sort_rows_perm|apply Permutation_refl].
Qed.

(** C8.  When the insert into the database fails, [add_item] stops with
    the error and leaves the whole state as it was: no row in the table,
    no entry in the undo log, the database as before. *)
Theorem add_item_insert_fails io today form app raw e :
  strip (amount_var form) <> [] ->
  parse_amount_input (strip (amount_var form)) = inr raw ->
  insert io (db_conn app) (parse_date today (date_var form)) (group_var form)
    (strip (desc_var form)) (signed_amount (group_var form) raw) = inl e ->
  add_item io today form app = (app, Unexpected e).
Proof.
  intros Hne Hp Hins. unfold add_item.
  apply str_eqb_nil in Hne. rewrite Hne, Hp, Hins. reflexivity.
Qed.

(** C5.  A valid add stores one new row, in the database and in the
    table, whose amount is exactly [-|raw|] for the groups Gider
    (expense) and Pasif (liability) and exactly [|raw|] for Gelir
    (income) and Aktif (asset), where [raw] is what the typed text reads
    as, sign included. *)
Theorem add_item_stored_sign today form app raw :
  strip (amount_var form) <> [] ->
  parse_amount_input (strip (amount_var form)) = inr raw ->
  let app' := fst (add_item true today form app) in
  let g := group_var form in
  exists r : Row,
    table (db_conn app') = table (db_conn app) ++ [r]
    /\ In r (df app')
    /\ id r = next_id (db_conn app)
    /\ group r = g
    /\ (g = lit "Gider" \/ g = lit "Pasif" -> amount r = - Qabs raw)
    /\ (g = lit "Gelir" \/ g = lit "Aktif" -> amount r = Qabs raw).
Proof.
  intros Hne Hp app' g. unfold app'.
  rewrite (add_item_success today form app raw Hne Hp). cbn [fst].
  exists (new_row today form app raw).
  split; [rewrite reapply_sort_db_conn; reflexivity|].
  split.
  { eapply Permutation_in; [apply reapply_sort_perm|].
    cbn [appended _push_undo df]. apply in_or_app. right. left. reflexivity. }
  split; [reflexivity|]. split; [reflexivity|].
  cbn [new_row amount]. unfold signed_amount. fold g.
  split; intros [-> | ->]; reflexivity.
Qed.

End WithDatetime.

Import RefDates Examples.

(** C8 with the database out of reach. *)
Lemma add_item_insert_fails_witness :
  add_item false today (form "Gider" "12,50") app_by_amount
  = (app_by_amount, Unexpected OperationalError).
Proof.
  apply (add_item_insert_fails false today (form "Gider" "12,50")
           app_by_amount (25 # 2) OperationalError).
  - vm_compute. discriminate.
  - vm_compute. reflexivity.
  - reflexivity.
Defined.

(** C5 for an expense typed with a plus sign: the row stored has the
    amount [-(25/2)]. *)
Lemma add_item_stored_sign_witness :
  exists r : Row,
    table (db_conn (fst (add_item true today (form "Gider" "+12,50") app_unsorted)))
    = table (db_conn app_unsorted) ++ [r]
    /\ In r (df (fst (add_item true today (form "Gider" "+12,50") app_unsorted)))
    /\ id r = 3%Z
    /\ amount r = - Qabs (25 # 2).
Proof.
  destruct (add_item_stored_sign today (form "Gider" "+12,50") app_unsorted
              (25 # 2))
    as (r & Ht & Hin & Hid & _ & Hneg & _).
  - vm_compute. discriminate.
  - vm_compute. reflexivity.
  - exists r. split; [exact Ht|]. split; [exact Hin|].
    split; [exact Hid|]. apply Hneg. left. reflexivity.
Defined.

End AddClaims.

(* ------------------------------------------------------------------ *)
(** ** [add_item] followed by [undo] *)

Module AddUndoClaims.
Import PyStr Amount Db Ledger StrFacts SortRowsFacts SortClaims UndoClaims
  AddClaims.

Lemma max_id_ge r rows : In r rows -> (id r <= max_id rows)%Z.
Proof.
  induction rows as [|x t IH]; [intros []|].
  simpl. intros [->|H]; [lia|]. specialize (IH H). lia.
Qed.

Lemma next_id_fresh conn r : In r (table conn) -> (id r <> next_id conn)%Z.
Proof. intro H. apply max_id_ge in H. unfold next_id. lia. Qed.

(** Dropping the row just appended gives the rows of before. *)
Lemma filter_drop_last (rows : list Row) (r : Row) :
  (forall x, In x rows -> id x <> id r) ->
  filter (fun x => negb (id x =? id r)%Z) (rows ++ [r]) = rows.
Proof.
  intro H. rewrite filter_app. simpl. rewrite Z.eqb_refl. simpl.
  rewrite app_nil_r.
  induction rows as [|x t IH]; [reflexivity|].
  simpl. destruct (Z.eqb_spec (id x) (id r)) as [E|_].
  - exfalso. apply (H x); [left; reflexivity|exact E].
  - simpl. f_equal. apply IH. intros y Hy. apply H. right. exact Hy.
Qed.

Section WithDatetime.
Context {DT : PyDatetime}.

(** [undo] on a log whose last entry is an add. *)
Lemma undo_add app older rid :
  undo_stack app = older ++ [ActAdd rid] ->
  undo true app
  = (reapply_sort
       (mkApp
          (mkConn (filter (fun r => negb (existsb (Z.eqb (id r)) [rid]))
                     (table (db_conn app)))
             (seq (db_conn app)))
          (filter (fun r => negb (id r =? rid)%Z) (df app))
          (sort_state app) older),
     Completed).
Proof.
  intro H. unfold undo. rewrite H, rev_app_distr. cbn [rev Datatypes.app].
  rewrite rev_involutive. reflexivity.
Qed.

(** C6, as the code has it.  After a valid add and an undo right after
    it, the database holds exactly the rows of before, the table holds
    the same rows with the ids they had (in some order), and the sort
    state is the one of before.  The order of the table is the one of
    before when no sort is active, and when the active sort is by date,
    group, description or amount and the table was in that order.  (Under
    a percent sort, rows with the same percent may change places.) *)
Theorem add_then_undo today form app raw :
  strip (amount_var form) <> [] ->
  parse_amount_input (strip (amount_var form)) = inr raw ->
  mirrored app ->
  let app1 := fst (add_item true today form app) in
  let app2 := fst (undo true app1) in
  table (db_conn app2) = table (db_conn app)
  /\ Permutation (df app) (df app2)
  /\ sort_state app2 = sort_state app
  /\ (col (sort_state app) = None -> df app2 = df app)
  /\ (forall c a,
        sort_state app = mkSort (Some c) a -> c <> ColPercent ->
        rows_sorted c a (df app) = true -> df app2 = df app).
Proof.
  intros Hne Hp Hm app1 app2.
  set (r := new_row today form app raw).
  set (p := fun x : Row => negb (id x =? id r)%Z).
  assert (Hdf : filter p (df app ++ [r]) = df app).
  { apply filter_drop_last. intros x Hx.
    apply (next_id_fresh (db_conn app)), Hm, Hx. }
  assert (Htb : filter (fun x => negb (existsb (Z.eqb (id x)) [id r]))
                  (table (db_conn app) ++ [r]) = table (db_conn app)).
  { rewrite <- (filter_drop_last (table (db_conn app)) r) at 2
      by (intros x Hx; apply (next_id_fresh (db_conn app)), Hx).
    apply filter_ext. intro x. cbn [existsb]. rewrite orb_false_r. reflexivity. }
  assert (E1 : app1 = reapply_sort (appended today form app raw))
    by (unfold app1; rewrite (add_item_success today form app raw Hne Hp);
        reflexivity).
  assert (Hst : undo_stack app1
                = (if (List.length (undo_stack app) <? UNDO_STACK_MAX)%nat
                   then undo_stack app else tl (undo_stack app))
                  ++ [ActAdd (id r)]).
  { rewrite E1, reapply_sort_undo_stack. unfold appended.
    rewrite push_undo_stack. reflexivity. }
  assert (E2 : app2 = fst (undo true app1)) by reflexivity.
  rewrite (undo_add app1 _ _ Hst) in E2. cbn [fst] in E2.
  assert (Hconn : table (db_conn app1) = table (db_conn app) ++ [r])
    by (rewrite E1, reapply_sort_db_conn; reflexivity).
  rewrite Hconn, Htb in E2.
  destruct (sort_state app) as [[c|] a] eqn:Hs.
  - (* a sort is active: both calls turn the direction round *)
    assert (S1 : sort_state (appended today form app raw) = mkSort (Some c) a)
      by exact Hs.
    rewrite (reapply_sort_active c a _ S1) in E1.
    assert (D1 : df app1 = sort_rows c (negb a) (df app ++ [r]))
      by (rewrite E1; reflexivity).
    assert (S2 : sort_state app1 = mkSort (Some c) (negb a))
      by (rewrite E1; reflexivity).
    rewrite S2, D1 in E2.
    rewrite (reapply_sort_active c (negb a)) in E2 by reflexivity.
    cbn [df db_conn undo_stack] in E2. rewrite negb_involutive in E2.
    rewrite E2. cbn [db_conn df sort_state table col].
    split; [reflexivity|].
    split.
    { eapply perm_trans; [|apply sort_rows_perm].
      rewrite <- Hdf at 1. apply PercentFacts.filter_perm, sort_rows_perm. }
    split; [reflexivity|].
    split; [discriminate|].
    intros c' a' Hca Hc Hsorted. inversion Hca; subst c' a'.
    rewrite (sort_rows_filter c (negb a) p _ Hc), Hdf.
    rewrite sort_rows_flip. apply sort_rows_fixed, Hsorted.
  - (* no sort is active *)
    assert (S1 : col (sort_state (appended today form app raw)) = None)
      by (unfold appended, _push_undo; cbn [sort_state]; rewrite Hs; reflexivity).
    rewrite (reapply_sort_inactive _ S1) in E1.
    assert (D1 : df app1 = df app ++ [r]) by (rewrite E1; reflexivity).
    assert (S2 : sort_state app1 = mkSort None a)
      by (rewrite E1; exact Hs).
    rewrite S2, D1 in E2.
    rewrite reapply_sort_inactive in E2 by reflexivity.
    rewrite E2. cbn [db_conn df sort_state table col].
    fold p. rewrite Hdf.
    split; [reflexivity|].
    split; [apply Permutation_refl|].
    split; [reflexivity|].
    split; [reflexivity|].
    intros c' a' Hca. discriminate.
Qed.

End WithDatetime.

Import RefDates Examples.

(** C6, the claim as stated.  The table holds an income of 1 and an
    expense of 1 in that order, sorted by percent (each is 100% of its
    group).  Adding a second income of 1 and undoing it leaves the
    expense in front of the income. *)
Lemma add_then_undo_reorders :
  df (fst (undo true (fst (add_item true today (form "Gelir" "1") app_by_percent))))
  <> df app_by_percent.
Proof. vm_compute. discriminate. Qed.

(** C6 on the amount-sorted table: the add of an expense and its undo
    give back the table and the rows of the database. *)
Lemma add_then_undo_witness :
  table (db_conn
           (fst (undo true
                   (fst (add_item true today (form "Gider" "7,5") app_by_amount)))))
  = table (db_conn app_by_amount)
  /\ df (fst (undo true
                (fst (add_item true today (form "Gider" "7,5") app_by_amount))))
     = df app_by_amount.
Proof.
  destruct (add_then_undo today (form "Gider" "7,5") app_by_amount (15 # 2))
    as (Ht & _ & _ & _ & Horder).
  - vm_compute. discriminate.
  - vm_compute. reflexivity.
  - intro r. vm_compute. tauto.
  - split; [exact Ht|].
    apply (Horder ColAmount true); [reflexivity|discriminate|reflexivity].
Defined.

End AddUndoClaims.

(* ------------------------------------------------------------------ *)
(** ** [split], [in] and [replace] on one character *)

Module SplitFacts.
Import PyStr StrFacts.

Lemma startswith_chr c x t : startswith [c] (x :: t) = chr_eqb c x.
Proof. simpl. apply andb_true_r. Qed.

Lemma chr_eqb_sym a b : chr_eqb a b = chr_eqb b a.
Proof. apply Ascii.eqb_sym. Qed.

Lemma str_in_chr c s : str_in [c] s = existsb (fun x => chr_eqb x c) s.
Proof.
  induction s as [|x t IH]; [reflexivity|].
  cbn [str_in existsb]. rewrite startswith_chr, IH, (chr_eqb_sym c x).
  reflexivity.
Qed.

Lemma str_in_chr_count c s : str_in [c] s = (0 <? count_chr c s)%nat.
Proof.
  rewrite str_in_chr. unfold count_chr.
  induction s as [|x t IH]; [reflexivity|].
  simpl. destruct (chr_eqb x c); [reflexivity|exact IH].
Qed.

Lemma split_cons c s : exists p ps, split c s = p :: ps.
Proof.
  destruct s as [|x t]; simpl; [eauto|].
  destruct (chr_eqb x c); [eauto|].
  destruct (split c t); eauto.
Qed.

Lemma split_length c s : List.length (split c s) = S (count_chr c s).
Proof.
  unfold count_chr. induction s as [|x t IH]; [reflexivity|].
  simpl. destruct (chr_eqb x c); simpl; [rewrite IH; reflexivity|].
  destruct (split_cons c t) as (p & ps & E). rewrite E in *. exact IH.
Qed.

Lemma split_join c s : join (split c s) = remove_chr c s.
Proof.
  unfold join, remove_chr. induction s as [|x t IH]; [reflexivity|].
  simpl. destruct (chr_eqb x c); simpl; [exact IH|].
  destruct (split_cons c t) as (p & ps & E). rewrite E in *.
  simpl in *. rewrite IH. reflexivity.
Qed.

Lemma split_first c s : nth 0 (split c s) [] = before_chr c s.
Proof.
  induction s as [|x t IH]; [reflexivity|].
  simpl. destruct (chr_eqb x c); [reflexivity|].
  destruct (split_cons c t) as (p & ps & E). rewrite E in *.
  simpl in *. rewrite IH. reflexivity.
Qed.

Lemma split_none c s : count_chr c s = 0%nat -> split c s = [s].
Proof.
  unfold count_chr. induction s as [|x t IH]; [reflexivity|].
  simpl. destruct (chr_eqb x c); simpl; [discriminate|].
  intro H. rewrite (IH H). reflexivity.
Qed.

Lemma split_second c s :
  count_chr c s = 1%nat -> nth 1 (split c s) [] = after_chr c s.
Proof.
  unfold count_chr. induction s as [|x t IH]; [discriminate|].
  simpl. destruct (chr_eqb x c); simpl; intro H.
  - rewrite split_none; [reflexivity|]. unfold count_chr. lia.
  - destruct (split_cons c t) as (p & ps & E). rewrite E in *.
    simpl in *. apply IH, H.
Qed.

Lemma before_after c s :
  count_chr c s = 1%nat -> before_chr c s ++ after_chr c s = remove_chr c s.
Proof.
  unfold count_chr, remove_chr. induction s as [|x t IH]; [discriminate|].
  simpl. destruct (chr_eqb x c); simpl; intro H.
  - symmetry. apply forallb_filter_id.
    assert (Hn : filter (fun y => chr_eqb y c) t = [])
      by (destruct (filter _ t); [reflexivity|discriminate]).
    clear -Hn. induction t as [|y t IH]; [reflexivity|].
    simpl in *. destruct (chr_eqb y c); [discriminate|]. simpl. apply IH, Hn.
  - f_equal. apply IH, H.
Qed.

(** Replacing one character: each occurrence gives way to [new]. *)
Lemma replace_chr c new s :
  replace [c] new s = flat_map (fun x => if chr_eqb x c then new else [x]) s.
Proof.
  unfold replace. induction s as [|x t IH]; [reflexivity|].
  cbn [replace_from flat_map]. rewrite startswith_chr, (chr_eqb_sym c x).
  cbn [List.length Nat.sub]. rewrite IH.
  destruct (chr_eqb x c); reflexivity.
Qed.

Lemma replace_chr_empty c s : replace [c] [] s = remove_chr c s.
Proof.
  rewrite replace_chr. unfold remove_chr.
  induction s as [|x t IH]; [reflexivity|].
  simpl. destruct (chr_eqb x c); simpl; rewrite IH; reflexivity.
Qed.

Lemma remove_chr_absent c s : count_chr c s = 0%nat -> remove_chr c s = s.
Proof.
  unfold count_chr, remove_chr. induction s as [|x t IH]; [reflexivity|].
  simpl. destruct (chr_eqb x c); simpl; [discriminate|].
  intro H. rewrite (IH H). reflexivity.
Qed.

End SplitFacts.

(* ------------------------------------------------------------------ *)
(** ** The dot in [parse_amount_input] *)

Module DotClaims.
Import PyStr PyFloat Amount StrFacts SplitFacts.

Lemma parse_amount_input_body s :
  strip s <> [] ->
  parse_amount_input s
  = match py_float
            (replace (lit "'") (lit "")
               (replace (lit " ") (lit "") (separators (body_of (strip s)))))
    with
    | None => inl (BadAmountFormat (strip s))
    | Some val => inr (inject_Z (sign_of (strip s)) * val)
    end.
Proof.
  intro H. unfold parse_amount_input.
  apply str_eqb_nil in H. rewrite H. reflexivity.
Qed.

(** Lines 61-75 on a body with a dot and no comma. *)
Lemma separators_dot_only (s_body : str) :
  In "."%char s_body -> ~ In ","%char s_body ->
  separators s_body
  = if dots_are_grouping s_body then remove_chr "." s_body else s_body.
Proof.
  intros Hdot Hcomma.
  assert (Hd : str_in (lit ".") s_body = true).
  { change (lit ".") with ["."%char]. rewrite str_in_chr.
    apply existsb_exists. exists "."%char. split; [exact Hdot|reflexivity]. }
  assert (Hc : str_in (lit ",") s_body = false).
  { change (lit ",") with [","%char]. rewrite str_in_chr.
    apply not_true_is_false. intro H. apply existsb_exists in H as (x & Hx & E).
    apply chr_eqb_eq in E. subst x. exact (Hcomma Hx). }
  unfold separators, dots_are_grouping. rewrite Hd, Hc. cbn [andb negb].
  rewrite split_length, split_join, split_first.
  change (lit ".") with ["."%char] in Hd. rewrite str_in_chr_count in Hd.
  apply Nat.ltb_lt in Hd.
  destruct (Nat.ltb_spec 2 (S (count_chr "." s_body))) as [L|L].
  - destruct (Nat.leb_spec 2 (count_chr "." s_body)) as [M|M]; [reflexivity|lia].
  - assert (H1 : count_chr "." s_body = 1%nat) by lia.
    rewrite (split_second _ _ H1), (before_after _ _ H1), H1.
    reflexivity.
Qed.

(** C4, as the code has it.  When the body of the text (the text
    stripped, without its sign) has a dot and no comma, the dots are taken
    for grouping marks, and all of them dropped, exactly when the body
    has two dots or more, or one dot with exactly three characters after
    it and at most three before it; otherwise the body goes to [float] as
    it is, its one dot the decimal point. *)
Theorem parse_dot_only (s : str) :
  strip s <> [] ->
  In "."%char (body_of (strip s)) -> ~ In ","%char (body_of (strip s)) ->
  parse_amount_input s
  = match py_float
            (replace (lit "'") (lit "")
               (replace (lit " ") (lit "")
                  (if dots_are_grouping (body_of (strip s))
                   then remove_chr "." (body_of (strip s))
                   else body_of (strip s))))
    with
    | None => inl (BadAmountFormat (strip s))
    | Some val => inr (inject_Z (sign_of (strip s)) * val)
    end.
Proof.
  intros Hne Hdot Hcomma.
  rewrite (parse_amount_input_body s Hne).
  rewrite (separators_dot_only _ Hdot Hcomma). reflexivity.
Qed.

(** C4 on [1.234], grouped, and on [-12.5], a decimal. *)
Lemma parse_dot_only_witness :
  parse_amount_input (lit "1.234") = inr 1234
  /\ parse_amount_input (lit "-12.5") = inr (- (25 # 2)).
Proof.
  split.
  - rewrite (parse_dot_only (lit "1.234")).
    + reflexivity.
    + vm_compute. discriminate.
    + vm_compute. tauto.
    + vm_compute. intros [H|[H|[H|[H|[H|[]]]]]]; discriminate.
  - rewrite (parse_dot_only (lit "-12.5")).
    + reflexivity.
    + vm_compute. discriminate.
    + vm_compute. tauto.
    + vm_compute. intros [H|[H|[H|[H|[]]]]]; discriminate.
Defined.

(** C4, the claim as stated: [123.45] has two digits after its dot and
    three before it; the claim's rule makes it 12345, the code reads it
    as 123.45. *)
Lemma parse_123_45_is_decimal :
  parse_amount_input (lit "123.45") = inr (2469 # 20)
  /\ ~ (2469 # 20 == 12345).
Proof. split; [reflexivity|]. intro H. vm_compute in H. discriminate. Qed.

End DotClaims.

(* ------------------------------------------------------------------ *)
(** ** Decimal digits *)

Module DigitFacts.
Import PyStr PyFloat StrFacts.

Lemma digit_cases c : is_digit c = true -> In c (lit "0123456789").
Proof.
  destruct c as [[] [] [] [] [] [] [] []]; intro H;
    try discriminate H; simpl; tauto.
Qed.

Lemma digit_plain c : is_digit c = true -> plain_chr c.
Proof.
  intro H. apply digit_cases in H. simpl in H.
  repeat (destruct H as [<-|H]; [repeat split|]); destruct H.
Qed.

Lemma digit_chr_digit m :
  (m < 10)%N -> is_digit (digit_chr m) = true /\ digit_val (digit_chr m) = m.
Proof.
  intro H.
  assert (E : (m = 0 \/ m = 1 \/ m = 2 \/ m = 3 \/ m = 4 \/ m = 5 \/ m = 6
               \/ m = 7 \/ m = 8 \/ m = 9)%N) by lia.
  repeat (destruct E as [->|E]; [split; reflexivity|]).
  subst m. split; reflexivity.
Qed.

Lemma digits_from_digits fuel : forall n acc,
  forallb is_digit acc = true -> forallb is_digit (digits_from fuel n acc) = true.
Proof.
  induction fuel as [|k IH]; intros n acc H; [exact H|].
  assert (Hd : forallb is_digit (digit_chr (n mod 10) :: acc) = true).
  { simpl. rewrite H, andb_true_r.
    apply digit_chr_digit, N.mod_lt. discriminate. }
  simpl. destruct (n <? 10)%N; [exact Hd|apply IH, Hd].
Qed.

Lemma digits_from_length fuel : forall n acc,
  (List.length acc <= List.length (digits_from fuel n acc))%nat.
Proof.
  induction fuel as [|k IH]; intros n acc; [apply Nat.le_refl|].
  simpl. destruct (n <? 10)%N; [simpl; lia|].
  eapply Nat.le_trans; [|apply IH]. simpl. lia.
Qed.

Lemma digits_from_value fuel : forall n acc,
  (n < 10 ^ N.of_nat fuel)%N ->
  read (digits_from fuel n acc) 0 = read acc n.
Proof.
  induction fuel as [|k IH]; intros n acc H.
  - simpl in H. assert (n = 0%N) by lia. subst. reflexivity.
  - cbn [digits_from].
    destruct (N.ltb_spec n 10) as [L|L].
    + unfold read. cbn [fold_left].
      destruct (digit_chr_digit (n mod 10)) as [_ Hv];
        [apply N.mod_lt; discriminate|].
      rewrite Hv, N.mod_small by exact L. reflexivity.
    + rewrite IH.
      * unfold read. cbn [fold_left].
        destruct (digit_chr_digit (n mod 10)) as [_ Hv];
          [apply N.mod_lt; discriminate|].
        rewrite Hv. f_equal.
        rewrite (N.div_mod n 10) at 3 by discriminate. reflexivity.
      * rewrite Nat2N.inj_succ, N.pow_succ_r' in H.
        apply N.Div0.div_lt_upper_bound. exact H.
Qed.

Lemma digits_of_digits n : forallb is_digit (digits_of n) = true.
Proof. apply digits_from_digits. reflexivity. Qed.

Lemma digits_of_value n : digits_value (digits_of n) = n.
Proof.
  unfold digits_value, digits_of. apply (digits_from_value _ n []).
  destruct n as [|p]; [reflexivity|].
  rewrite Nat2N.inj_succ, N2Nat.id.
  eapply N.lt_le_trans; [apply N.log2_spec; reflexivity|].
  apply N.pow_le_mono_l. discriminate.
Qed.

Lemma digits_of_nonempty n : digits_of n <> [].
Proof.
  unfold digits_of. simpl.
  destruct (n <? 10)%N; [discriminate|].
  intro H.
  pose proof (digits_from_length (N.to_nat (N.log2 n)) (n / 10)
                [digit_chr (n mod 10)]) as L.
  rewrite H in L. simpl in L. lia.
Qed.

Lemma read_zeros k ds : read (repeat "0"%char k ++ ds) 0 = read ds 0.
Proof.
  induction k as [|k IH]; [reflexivity|]. exact IH.
Qed.

Lemma pad_left_value m ds : digits_value (pad_left m ds) = digits_value ds.
Proof. apply read_zeros. Qed.

Lemma pad_left_digits m ds :
  forallb is_digit ds = true -> forallb is_digit (pad_left m ds) = true.
Proof.
  intro H. unfold pad_left. rewrite forallb_app, H, andb_true_r.
  induction (m - List.length ds)%nat as [|k IH]; [reflexivity|exact IH].
Qed.

Lemma pad_left_length m ds : (m <= List.length (pad_left m ds))%nat.
Proof.
  unfold pad_left. rewrite length_app, repeat_length. lia.
Qed.

End DigitFacts.

(* ------------------------------------------------------------------ *)
(** ** The text [format_amount_display] writes *)

Module FormatFacts.
Import PyStr PyFloat Amount StrFacts SplitFacts DigitFacts.

(** The three replacements swap comma and dot, in a text without
    underscores. *)
Lemma three_replaces s :
  count_chr "_" s = 0%nat ->
  replace (lit "_TMP_") (lit ".")
    (replace (lit ".") (lit ",") (replace (lit ",") (lit "_TMP_") s))
  = map swap_marks s.
Proof.
  change (lit ".") with ["."%char]. change (lit ",") with [","%char].
  rewrite !replace_chr.
  change (lit "_TMP_") with ["_"; "T"; "M"; "P"; "_"]%char.
  unfold replace, count_chr.
  induction s as [|c t IH]; [reflexivity|].
  cbn [filter]. destruct (chr_eqb c "_") eqn:Eu; [discriminate|].
  intro H. specialize (IH H).
  cbn [flat_map map]. unfold swap_marks at 1.
  destruct (chr_eqb c ",") eqn:Ec.
  - cbn. rewrite IH. reflexivity.
  - cbn [flat_map Datatypes.app]. destruct (chr_eqb c ".") eqn:Ed.
    + cbn. rewrite IH. reflexivity.
    + cbn [Datatypes.app replace_from startswith].
      rewrite (chr_eqb_sym "_" c), Eu. cbn [andb]. rewrite IH. reflexivity.
Qed.

Lemma swap_digit c : is_digit c = true -> swap_marks c = c.
Proof.
  intro H. destruct (digit_plain c H) as (H1 & H2 & _).
  unfold swap_marks. rewrite H1, H2. reflexivity.
Qed.

Lemma map_swap_digits ds : forallb is_digit ds = true -> map swap_marks ds = ds.
Proof.
  induction ds as [|c t IH]; [reflexivity|].
  simpl. intro H. apply andb_prop in H as [Hc Ht].
  rewrite (swap_digit c Hc), (IH Ht). reflexivity.
Qed.

(** The grouped digits, commas turned to dots: without the dots they are
    the digits; they hold no comma, space, apostrophe or underscore; and
    [split] cuts them into a leading group of up to three digits and
    groups of three. *)
Lemma grouped_dots ds :
  forallb is_digit ds = true ->
  let k := fst (group3_from ds) in
  let g := map swap_marks (group3 ds) in
  (k <= 3)%nat
  /\ remove_chr "." g = ds
  /\ Forall (fun c => is_digit c = true \/ c = "."%char) g
  /\ (exists p ps,
        split "." g = p :: ps /\ List.length p = k
        /\ Forall (fun q => List.length q = 3%nat) ps)
  /\ (forall c t, ds = c :: t -> exists g', g = c :: g').
Proof.
  unfold group3.
  induction ds as [|c t IH]; intro H.
  - simpl. repeat split; try lia; try constructor.
    + exists [], []. repeat split. constructor.
    + intros c t E. discriminate.
  - simpl in H. apply andb_prop in H as [Hc Ht].
    specialize (IH Ht).
    cbn [group3_from]. destruct (group3_from t) as [k g].
    cbn [fst snd] in IH.
    destruct IH as (Hk & Hrem & Hall & (p & ps & Hsp & Hp & Hps) & _).
    destruct (digit_plain c Hc) as (_ & Hdot & _).
    destruct (Nat.eqb_spec k 3) as [E|E]; cbn [fst snd map].
    + rewrite (swap_digit c Hc).
      change (swap_marks ","%char) with "."%char.
      repeat split.
      * lia.
      * unfold remove_chr in *. cbn [filter]. rewrite Hdot. cbn.
        rewrite Hrem. reflexivity.
      * constructor; [left; exact Hc|]. constructor; [right; reflexivity|].
        exact Hall.
      * exists [c], (p :: ps). cbn [split]. rewrite Hdot. cbn.
        rewrite Hsp. repeat split.
        constructor; [lia|exact Hps].
      * intros c' t' E'. inversion E'; subst. eauto.
    + rewrite (swap_digit c Hc).
      repeat split.
      * lia.
      * unfold remove_chr in *. cbn [filter]. rewrite Hdot. cbn.
        rewrite Hrem. reflexivity.
      * constructor; [left; exact Hc|exact Hall].
      * exists (c :: p), ps. cbn [split]. rewrite Hdot, Hsp.
        repeat split; [cbn; lia|exact Hps].
      * intros c' t' E'. inversion E'; subst. eauto.
Qed.

End FormatFacts.

(* ------------------------------------------------------------------ *)
(** ** Texts of digits and dots *)

Module NumeralFacts.
Import PyStr PyFloat Amount StrFacts SplitFacts DigitFacts FormatFacts.

Lemma numeral_chr c :
  is_digit c = true \/ c = "."%char ->
  chr_eqb c "," = false /\ chr_eqb c "_" = false /\ chr_eqb c " " = false
  /\ chr_eqb c "'" = false /\ is_space c = false /\ float_space c = false
  /\ space_to_ascii c = c.
Proof.
  intros [H| ->]; [|repeat split].
  destruct (digit_plain c H) as (H1 & _ & H3 & H4 & H5 & _ & _ & _ & _ & H10 & H11 & H12).
  repeat split; assumption.
Qed.

Lemma digits_numeral ds :
  forallb is_digit ds = true ->
  Forall (fun c => is_digit c = true \/ c = "."%char) ds.
Proof.
  intro H. apply Forall_forall. intros c Hc. left.
  rewrite forallb_forall in H. apply H, Hc.
Qed.

Lemma count_chr_app c a b :
  count_chr c (a ++ b) = (count_chr c a + count_chr c b)%nat.
Proof. unfold count_chr. rewrite filter_app, length_app. reflexivity. Qed.

Lemma remove_chr_app c a b :
  remove_chr c (a ++ b) = remove_chr c a ++ remove_chr c b.
Proof. unfold remove_chr. apply filter_app. Qed.

Lemma count_chr_none (P : ascii -> Prop) c s :
  (forall x, P x -> chr_eqb x c = false) -> Forall P s -> count_chr c s = 0%nat.
Proof.
  intros HP H. unfold count_chr. induction H as [|x t Hx _ IH]; [reflexivity|].
  simpl. rewrite (HP x Hx). exact IH.
Qed.

Lemma count_digits c ds :
  (forall x, is_digit x = true -> chr_eqb x c = false) ->
  forallb is_digit ds = true -> count_chr c ds = 0%nat.
Proof.
  intros HP H. apply (count_chr_none (fun x => is_digit x = true)); [exact HP|].
  apply Forall_forall. rewrite forallb_forall in H. exact H.
Qed.

Lemma lstrip_id s : Forall (fun c => is_space c = false) s -> lstrip s = s.
Proof. intros [|c t Hc _]; [reflexivity|]. simpl. rewrite Hc. reflexivity. Qed.

(** A text without white space is its own [strip]. *)
Lemma strip_id s : Forall (fun c => is_space c = false) s -> strip s = s.
Proof.
  intro H. unfold strip, rstrip. rewrite (lstrip_id s H).
  rewrite lstrip_id by (apply Forall_rev, H). apply rev_involutive.
Qed.

Lemma float_lstrip_id s :
  Forall (fun c => float_space c = false) s -> float_lstrip s = s.
Proof. intros [|c t Hc _]; [reflexivity|]. simpl. rewrite Hc. reflexivity. Qed.

Lemma float_strip_id s :
  Forall (fun c => float_space c = false) s -> float_strip s = s.
Proof.
  intro H. unfold float_strip. rewrite (float_lstrip_id s H).
  rewrite float_lstrip_id by (apply Forall_rev, H). apply rev_involutive.
Qed.

Lemma drop_underscores_id s : forall prev,
  Forall (fun c => chr_eqb c "_" = false) s ->
  match prev with Some c => chr_eqb c "_" | None => false end = false ->
  drop_underscores prev s = Some s.
Proof.
  induction s as [|c t IH]; intros prev H Hp.
  - simpl. rewrite Hp. reflexivity.
  - inversion H as [|? ? Hc Ht]; subst.
    cbn [drop_underscores]. rewrite Hc, Hp. cbn [andb].
    rewrite (IH (Some c) Ht Hc). reflexivity.
Qed.

Lemma span_app p a b :
  forallb p a = true ->
  match b with c :: _ => p c = false | [] => True end ->
  span p (a ++ b) = (a, b).
Proof.
  intros Ha Hb. induction a as [|x t IH].
  - destruct b as [|c b']; [reflexivity|]. simpl. rewrite Hb. reflexivity.
  - simpl in Ha. apply andb_prop in Ha as [Hx Ht].
    simpl. rewrite Hx, (IH Ht). reflexivity.
Qed.

Lemma span_all p a : forallb p a = true -> span p a = (a, []).
Proof.
  intro H. rewrite <- (app_nil_r a) at 1. apply span_app; [exact H|exact I].
Qed.

(** [float] on digits with an optional point and [d] digits after it. *)
Lemma py_float_numeral ip fp d :
  forallb is_digit ip = true -> ip <> [] ->
  forallb is_digit fp = true -> List.length fp = d ->
  py_float (ip ++ match d with O => [] | S _ => "."%char :: fp end)
  = Some (decimal_Q false (digits_value (ip ++ fp)) (- Z.of_nat d)).
Proof.
  intros Hip Hne Hfp Hlen.
  set (t := ip ++ match d with O => [] | S _ => "."%char :: fp end).
  assert (Ht : Forall (fun c => is_digit c = true \/ c = "."%char) t).
  { unfold t. apply Forall_app. split; [apply digits_numeral, Hip|].
    destruct d; [constructor|].
    constructor; [right; reflexivity|apply digits_numeral, Hfp]. }
  assert (F : forall (P : ascii -> Prop),
             (forall c, is_digit c = true \/ c = "."%char -> P c) -> Forall P t).
  { intros P HP. eapply Forall_impl; [|exact Ht]. exact HP. }
  unfold py_float.
  assert (E1 : map space_to_ascii t = t).
  { rewrite <- (map_id t) at 2. apply map_ext_Forall.
    apply F. intros c Hc. apply numeral_chr, Hc. }
  rewrite E1.
  rewrite drop_underscores_id;
    [|apply F; intros c Hc; apply numeral_chr, Hc|reflexivity].
  rewrite float_strip_id by (apply F; intros c Hc; apply numeral_chr, Hc).
  destruct ip as [|c ip']; [congruence|].
  assert (Hc : is_digit c = true)
    by (simpl in Hip; apply andb_prop in Hip as [H _]; exact H).
  destruct (digit_plain c Hc) as (_ & _ & _ & _ & _ & Hm & Hp & _).
  unfold t, take_sign. cbn [Datatypes.app]. rewrite Hm, Hp.
  change (c :: ip' ++ match d with O => [] | S _ => "."%char :: fp end)
    with ((c :: ip') ++ match d with O => [] | S _ => "."%char :: fp end).
  destruct d as [|d'].
  - destruct fp; [|discriminate].
    rewrite app_nil_r, (span_all _ _ Hip).
    cbn [Datatypes.app exponent List.length]. reflexivity.
  - rewrite (span_app is_digit (c :: ip') ("."%char :: fp) Hip) by reflexivity.
    cbn [chr_eqb]. change (chr_eqb "." ".") with true. cbn iota.
    rewrite (span_all _ _ Hfp).
    cbn [Datatypes.app exponent]. rewrite Hlen. reflexivity.
Qed.

End NumeralFacts.

(* ------------------------------------------------------------------ *)
(** ** [parse_amount_input] of a formatted amount *)

Module RoundTripFacts.
Import PyStr PyFloat Amount StrFacts SplitFacts DigitFacts FormatFacts
  NumeralFacts.

Lemma group3_chars ds :
  forallb is_digit ds = true ->
  Forall (fun c => is_digit c = true \/ c = ","%char) (group3 ds).
Proof.
  unfold group3. induction ds as [|c t IH]; intro H; [constructor|].
  simpl in H. apply andb_prop in H as [Hc Ht]. specialize (IH Ht).
  cbn [group3_from]. destruct (group3_from t) as [k g]. cbn [snd] in IH.
  destruct (k =? 3)%nat; cbn [snd].
  - constructor; [left; exact Hc|]. constructor; [right; reflexivity|exact IH].
  - constructor; [left; exact Hc|exact IH].
Qed.

(** The digits [format_amount_display] writes for [x] with [d]
    decimals: those before the point and those after it. *)
Lemma format_digits x d :
  let ds := pad_left (S d) (digits_of (scaled x d)) in
  let k := (List.length ds - d)%nat in
  forallb is_digit (firstn k ds) = true /\ firstn k ds <> []
  /\ forallb is_digit (skipn k ds) = true /\ List.length (skipn k ds) = d
  /\ digits_value (firstn k ds ++ skipn k ds) = scaled x d.
Proof.
  intros ds k.
  assert (Hds : forallb is_digit ds = true)
    by apply pad_left_digits, digits_of_digits.
  assert (Hlen : (S d <= List.length ds)%nat) by apply pad_left_length.
  rewrite <- (firstn_skipn k ds), forallb_app in Hds.
  apply andb_prop in Hds as [H1 H2].
  split; [exact H1|]. split.
  { intro E. apply (f_equal (@List.length ascii)) in E.
    rewrite length_firstn in E. simpl in E. unfold k in E. lia. }
  split; [exact H2|]. split.
  { rewrite length_skipn. unfold k. lia. }
  rewrite firstn_skipn. unfold ds. rewrite pad_left_value.
  apply digits_of_value.
Qed.

(** The text of a formatted amount: a minus sign for a negative value,
    the digits before the point in groups of three with dots between
    them, and a comma and [d] digits when [d] is not zero. *)
Lemma format_shape x d :
  let ds := pad_left (S d) (digits_of (scaled x d)) in
  let k := (List.length ds - d)%nat in
  format_amount_display x d
  = (if (Qnum x <? 0)%Z then ["-"%char] else [])
    ++ map swap_marks (group3 (firstn k ds))
    ++ match d with O => [] | S _ => ","%char :: skipn k ds end.
Proof.
  intros ds k.
  destruct (format_digits x d) as (Hip & _ & Hfp & _ & _).
  fold ds k in Hip, Hfp.
  unfold format_amount_display. rewrite three_replaces.
  - unfold py_format_f. fold ds k. rewrite !map_app. f_equal.
    + destruct (Qnum x <? 0)%Z; reflexivity.
    + f_equal. destruct d; [reflexivity|].
      cbn [map]. rewrite (map_swap_digits _ Hfp). reflexivity.
  - unfold py_format_f. fold ds k. rewrite !count_chr_app.
    assert (E1 : count_chr "_" (if (Qnum x <? 0)%Z then ["-"%char] else []) = 0%nat)
      by (destruct (Qnum x <? 0)%Z; reflexivity).
    assert (E2 : count_chr "_" (group3 (firstn k ds)) = 0%nat).
    { apply (count_chr_none (fun c => is_digit c = true \/ c = ","%char));
        [|apply group3_chars, Hip].
      intros c [H| ->]; [apply (digit_plain c H)|reflexivity]. }
    assert (E3 : count_chr "_" match d with
                               | O => []
                               | S _ => "."%char :: skipn k ds
                               end = 0%nat).
    { destruct d; [reflexivity|].
      change (count_chr "_" ("."%char :: skipn k ds))
        with (count_chr "_" (skipn k ds)).
      apply count_digits; [|exact Hfp].
      intros c Hc. apply (digit_plain c Hc). }
    assert (Hsum : forall a b c : nat,
               a = 0%nat -> b = 0%nat -> c = 0%nat -> (a + (b + c) = 0)%nat)
      by (intros; lia).
    apply Hsum; [exact E1|exact E2|exact E3].
Qed.

Lemma replace_comma_point a b :
  forallb is_digit a = true -> forallb is_digit b = true ->
  replace (lit ",") (lit ".") (a ++ ","%char :: b) = a ++ "."%char :: b.
Proof.
  intros Ha Hb. change (lit ",") with [","%char].
  change (lit ".") with ["."%char]. rewrite replace_chr.
  assert (Hid : forall ds, forallb is_digit ds = true ->
                  flat_map (fun x => if chr_eqb x "," then ["."%char] else [x]) ds
                  = ds).
  { induction ds as [|c t IH]; [reflexivity|].
    cbn [flat_map forallb]. intro H. apply andb_prop in H as [Hc Ht].
    destruct (digit_plain c Hc) as (Hcomma & _).
    rewrite Hcomma, (IH Ht). reflexivity. }
  rewrite flat_map_app. cbn [flat_map].
  change (chr_eqb "," ",") with true. cbn iota.
  rewrite (Hid a Ha), (Hid b Hb). reflexivity.
Qed.

(** Lines 61-75 on the body of a formatted amount: the grouping dots go
    and the comma becomes the decimal point. *)
Lemma separators_formatted ip fp d :
  forallb is_digit ip = true -> forallb is_digit fp = true ->
  separators (map swap_marks (group3 ip)
              ++ match d with O => [] | S _ => ","%char :: fp end)
  = ip ++ match d with O => [] | S _ => "."%char :: fp end.
Proof.
  intros Hip Hfp.
  pose proof (grouped_dots ip Hip) as H. cbv zeta in H.
  remember (map swap_marks (group3 ip)) as g eqn:Eg.
  destruct H as (Hk & Hrem & Hall & (p & ps & Hsp & Hp & Hps) & _).
  clear Eg.
  assert (Hnc : count_chr "," g = 0%nat).
  { apply (count_chr_none _ _ _ (fun c H => proj1 (numeral_chr c H)) Hall). }
  unfold separators.
  change (lit ".") with ["."%char]. change (lit ",") with [","%char].
  change (lit "") with (@nil ascii).
  rewrite !str_in_chr_count.
  assert (Hg0 : count_chr "." g = 0%nat -> g = ip).
  { intro Hz. rewrite <- Hrem. symmetry. apply remove_chr_absent, Hz. }
  destruct d as [|d'].
  - rewrite app_nil_r, Hnc.
    destruct (count_chr "." g) as [|n] eqn:Ec; cbn [Nat.ltb Nat.leb andb negb].
    + rewrite app_nil_r. apply Hg0. reflexivity.
    + pose proof (split_length "." g) as Hl.
      pose proof (split_join "." g) as Hj.
      rewrite Hrem, Hsp in Hj. rewrite Hsp, Ec in Hl. rewrite Hsp.
      rewrite app_nil_r.
      destruct ps as [|q [|q2 ps']].
      * discriminate Hl.
      * cbn [List.length nth].
        inversion Hps as [|? ? Hq _].
        rewrite Hq, Nat.eqb_refl. cbn [andb].
        destruct (Nat.leb_spec (List.length p) 3) as [_|M]; [|lia].
        unfold join in Hj. cbn [concat] in Hj. rewrite app_nil_r in Hj.
        exact Hj.
      * cbn [List.length]. exact Hj.
  - rewrite !count_chr_app, Hnc.
    assert (Hfc : count_chr "," (","%char :: fp) = 1%nat).
    { change (count_chr "," (","%char :: fp)) with (S (count_chr "," fp)).
      rewrite count_digits; [reflexivity| |exact Hfp].
      intros c Hc. apply (digit_plain c Hc). }
    assert (Hfd : count_chr "." (","%char :: fp) = 0%nat).
    { change (count_chr "." (","%char :: fp)) with (count_chr "." fp).
      apply count_digits; [|exact Hfp].
      intros c Hc. apply (digit_plain c Hc). }
    rewrite Hfc, Hfd, Nat.add_0_r.
    destruct (count_chr "." g) as [|n] eqn:Ec;
      cbn [Nat.add Nat.ltb Nat.leb andb negb].
    + rewrite (Hg0 eq_refl). apply replace_comma_point; assumption.
    + rewrite replace_chr_empty, remove_chr_app, Hrem.
      rewrite (remove_chr_absent "." _ Hfd).
      apply replace_comma_point; assumption.
Qed.

Lemma sign_body_plain c t :
  is_digit c = true -> sign_of (c :: t) = 1%Z /\ body_of (c :: t) = c :: t.
Proof.
  intro Hc. destruct (digit_plain c Hc) as (_ & _ & _ & _ & _ & Hm & Hp & _).
  unfold sign_of, body_of.
  change (lit "-") with ["-"%char]. change (lit "+-") with ["+"; "-"]%char.
  cbn [startswith firstn str_in].
  rewrite (chr_eqb_sym "-" c), Hm, Hp. split; reflexivity.
Qed.

Lemma sign_body_minus t :
  sign_of ("-"%char :: t) = (-1)%Z /\ body_of ("-"%char :: t) = strip t.
Proof. split; reflexivity. Qed.

(** What [parse_amount_input] reads in the text of a formatted amount:
    the value rounded to [d] decimals, with its sign. *)
Lemma parse_formatted x d :
  parse_amount_input (format_amount_display x d)
  = inr (inject_Z (if (Qnum x <? 0)%Z then -1 else 1)
         * decimal_Q false (scaled x d) (- Z.of_nat d)).
Proof.
  destruct (format_digits x d) as (Hip & Hne & Hfp & Hlen & Hval).
  rewrite format_shape.
  set (ds := pad_left (S d) (digits_of (scaled x d))) in *.
  set (ip := firstn (List.length ds - d) ds) in *.
  set (fp := skipn (List.length ds - d) ds) in *.
  pose proof (grouped_dots ip Hip) as H. cbv zeta in H.
  destruct H as (_ & _ & Hall & _ & Hhead).
  destruct ip as [|c ip'] eqn:Eip; [congruence|]. rewrite <- Eip in *.
  destruct (Hhead c ip' Eip) as (g' & Eg).
  assert (Hc : is_digit c = true).
  { rewrite Eip in Hip. simpl in Hip. apply andb_prop in Hip as [Hc _]. exact Hc. }
  set (tail := match d with O => [] | S _ => ","%char :: fp end).
  set (body := map swap_marks (group3 ip) ++ tail).
  assert (Hbody : Forall (fun c => is_space c = false) body).
  { unfold body, tail. apply Forall_app. split.
    - eapply Forall_impl; [|exact Hall]. intros a Ha. apply (numeral_chr a Ha).
    - destruct d; [constructor|]. constructor; [reflexivity|].
      eapply Forall_impl; [|apply digits_numeral, Hfp].
      intros a Ha. apply (numeral_chr a Ha). }
  assert (Hsb : sign_of body = 1%Z /\ body_of body = body).
  { unfold body. rewrite Eg. apply sign_body_plain, Hc. }
  assert (Hnum : Forall (fun c => is_digit c = true \/ c = "."%char)
                   (ip ++ match d with O => [] | S _ => "."%char :: fp end)).
  { apply Forall_app. split; [apply digits_numeral, Hip|].
    destruct d; [constructor|].
    constructor; [right; reflexivity|apply digits_numeral, Hfp]. }
  assert (Hclean : forall body',
             strip body' = body' ->
             separators (body_of body') = ip ++ match d with O => [] | S _ => "."%char :: fp end ->
             body' <> [] ->
             parse_amount_input body'
             = inr (inject_Z (sign_of body')
                    * decimal_Q false (scaled x d) (- Z.of_nat d))).
  { intros body' Hs Hsep Hnn. rewrite (DotClaims.parse_amount_input_body body')
      by (rewrite Hs; exact Hnn).
    rewrite Hs, Hsep.
    change (lit " ") with [" "%char]. change (lit "'") with ["'"%char].
    change (lit "") with (@nil ascii).
    rewrite !replace_chr_empty.
    rewrite (remove_chr_absent " ")
      by (apply (count_chr_none _ _ _ (fun a Ha => proj1 (proj2 (proj2 (numeral_chr a Ha)))) Hnum)).
    rewrite (remove_chr_absent "'")
      by (apply (count_chr_none _ _ _ (fun a Ha => proj1 (proj2 (proj2 (proj2 (numeral_chr a Ha))))) Hnum)).
    rewrite (py_float_numeral ip fp d Hip Hne Hfp Hlen), Hval. reflexivity. }
  destruct Hsb as [Hsign Hbd].
  destruct (Qnum x <? 0)%Z; cbn [Datatypes.app].
  - fold body.
    rewrite (Hclean ("-"%char :: body)).
    + reflexivity.
    + apply strip_id. constructor; [reflexivity|exact Hbody].
    + destruct (sign_body_minus body) as [_ ->].
      rewrite (strip_id body Hbody). apply separators_formatted; assumption.
    + discriminate.
  - fold body. rewrite (Hclean body).
    + rewrite Hsign. reflexivity.
    + apply strip_id, Hbody.
    + rewrite Hbd. apply separators_formatted; assumption.
    + unfold body. rewrite Eg. discriminate.
Qed.

End RoundTripFacts.

(* ------------------------------------------------------------------ *)
(** ** The round trip of an amount through its text *)

Module RoundTripClaims.
Import PyStr PyFloat Amount RoundTripFacts.

Lemma round_half_even_spec num den :
  (0 <= num)%Z ->
  (0 <= round_half_even num den
   /\ - Zpos den <= 2 * (round_half_even num den * Zpos den - num) <= Zpos den)%Z.
Proof.
  intro Hnum. unfold round_half_even.
  pose proof (Z.div_mod num (Zpos den) ltac:(discriminate)) as Hdm.
  pose proof (Z.mod_pos_bound num (Zpos den) ltac:(reflexivity)) as Hr.
  pose proof (Z.div_pos num (Zpos den) Hnum ltac:(reflexivity)) as Hq.
  set (q := (num / Zpos den)%Z) in *. set (r := (num mod Zpos den)%Z) in *.
  destruct (Z.compare_spec (2 * r) (Zpos den)) as [E|L|G];
    [destruct (Z.even q)| |]; split; lia.
Qed.

Lemma scaled_close x d :
  let m := Z.of_N (scaled x d) in
  let sgn := if (Qnum x <? 0)%Z then (-1)%Z else 1%Z in
  (- Zpos (Qden x)
   <= 2 * (sgn * m * Zpos (Qden x) - Qnum x * 10 ^ Z.of_nat d)
   <= Zpos (Qden x))%Z.
Proof.
  intros m sgn.
  assert (HP : (0 < 10 ^ Z.of_nat d)%Z) by (apply Z.pow_pos_nonneg; lia).
  destruct (round_half_even_spec (Z.abs (Qnum x) * 10 ^ Z.of_nat d) (Qden x))
    as [H0 H1]; [apply Z.mul_nonneg_nonneg; lia|].
  assert (Hm : m = round_half_even (Z.abs (Qnum x) * 10 ^ Z.of_nat d) (Qden x))
    by (unfold m, scaled; apply Z2N.id, H0).
  rewrite <- Hm in H1. unfold sgn.
  destruct (Z.ltb_spec (Qnum x) 0) as [L|L].
  - rewrite Z.abs_neq in H1 by lia. lia.
  - rewrite Z.abs_eq in H1 by lia. lia.
Qed.

Lemma decimal_Q_scaled n d :
  decimal_Q false n (- Z.of_nat d) == Z.of_N n # Z.to_pos (10 ^ Z.of_nat d).
Proof.
  unfold decimal_Q. rewrite Qred_correct.
  destruct d as [|d']; [reflexivity|].
  cbn [Z.of_nat Z.opp].
  rewrite <- Pos2Z.inj_pow. reflexivity.
Qed.

Lemma parsed_value x d :
  inject_Z (if (Qnum x <? 0)%Z then -1 else 1)
  * decimal_Q false (scaled x d) (- Z.of_nat d)
  == ((if (Qnum x <? 0)%Z then -1 else 1) * Z.of_N (scaled x d))
     # Z.to_pos (10 ^ Z.of_nat d).
Proof.
  rewrite decimal_Q_scaled. unfold Qeq, Qmult, inject_Z. cbn [Qnum Qden].
  rewrite Pos.mul_1_l. reflexivity.
Qed.

Lemma Qabs_bound (n : Z) (p : positive) (x : Q) :
  (- Zpos (Qden x) <= 2 * (n * Zpos (Qden x) - Qnum x * Zpos p) <= Zpos (Qden x))%Z ->
  Qabs ((n # p) - x) <= 1 # (2 * p).
Proof.
  intro H. apply Qabs_Qle_condition.
  destruct x as [a D]. cbn [Qnum Qden] in H.
  unfold Qle, Qminus, Qplus, Qopp. cbn [Qnum Qden].
  rewrite !Pos2Z.inj_mul. split; nia.
Qed.

Lemma half_tolerance d : 1 # (2 * Z.to_pos (10 ^ Z.of_nat d)) == (1 # 2) * ten_to_minus d.
Proof. unfold ten_to_minus, Qeq, Qmult. cbn [Qnum Qden]. reflexivity. Qed.

Lemma tolerance_le d : (1 # 2) * ten_to_minus d <= ten_to_minus d.
Proof.
  unfold ten_to_minus, Qle, Qmult. cbn [Qnum Qden].
  rewrite !Pos2Z.inj_mul. lia.
Qed.

(** One round trip: the text of [x] with [d] decimals reads as a value
    within half a unit of the last decimal. *)
Lemma format_parse_close x d :
  exists y,
    parse_amount_input (format_amount_display x d) = inr y
    /\ Qabs (y - x) <= (1 # 2) * ten_to_minus d.
Proof.
  eexists. split; [apply parse_formatted|].
  rewrite parsed_value, <- half_tolerance.
  apply Qabs_bound.
  rewrite Z2Pos.id by (apply Z.pow_pos_nonneg; lia).
  apply scaled_close.
Qed.

(** C3, as the code has it.  For every value [x] and every number [d] of
    decimals, the text [format_amount_display] writes is accepted by
    [parse_amount_input] and reads as a value within [10^-d] of [x].  So
    for a text [t] that parses to a finite number [v] (a decimal numeral
    within the range of a double, not [inf] or [nan]), the text of [v] in
    the default two decimals parses to a value within [10^-2] of [v]: the
    decimals of [v] beyond the second are lost. *)
Theorem format_parse_roundtrip :
  (forall (x : Q) (d : nat),
      exists y,
        parse_amount_input (format_amount_display x d) = inr y
        /\ Qabs (y - x) <= ten_to_minus d)
  /\ (forall (t : str) (v : Q),
        parse_amount_input t = inr v ->
        Qabs v <= DBL_MAX ->
        exists y,
          parse_amount_input (format_amount_display v 2) = inr y
          /\ Qabs (y - v) <= 1 # 100).
Proof.
  split.
  - intros x d. destruct (format_parse_close x d) as (y & Hy & Hb).
    exists y. split; [exact Hy|].
    eapply Qle_trans; [exact Hb|apply tolerance_le].
  - intros t v _ _. destruct (format_parse_close v 2) as (y & Hy & Hb).
    exists y. split; [exact Hy|].
    eapply Qle_trans; [exact Hb|]. apply (tolerance_le 2).
Qed.

(** C3, the claim as stated: [1,234] parses to 1.234, which is written
    [1,23] and read back as 1.23, at a distance of 0.004 and not within
    1e-9. *)
Lemma roundtrip_loses_decimals :
  parse_amount_input (lit "1,234") = inr (617 # 500)
  /\ format_amount_display (617 # 500) 2 = lit "1,23"
  /\ parse_amount_input (format_amount_display (617 # 500) 2) = inr (123 # 100)
  /\ ~ (Qabs ((123 # 100) - (617 # 500)) <= 1 # 1000000000).
Proof.
  split; [reflexivity|]. split; [reflexivity|]. split; [reflexivity|].
  intro H. vm_compute in H. apply H. reflexivity.
Qed.

End RoundTripClaims.

(* ------------------------------------------------------------------ *)
(** ** What the operations keep *)

Module Invariants.
Import PyStr Amount Db Ledger StrFacts SortRowsFacts SortClaims AddClaims
  AddUndoClaims.


Section WithDatetime.
Context {DT : PyDatetime}.

Lemma sort_by_column_mirrored c app :
  mirrored app -> mirrored (sort_by_column c app).
Proof.
  intros H r. rewrite <- (H r). cbn [sort_by_column df db_conn].
  split; intro Hr.
  - eapply Permutation_in; [apply Permutation_sym, sort_rows_perm|exact Hr].
  - eapply Permutation_in; [apply sort_rows_perm|exact Hr].
Qed.

Lemma reapply_sort_mirrored app : mirrored app -> mirrored (reapply_sort app).
Proof.
  intro H. unfold reapply_sort.
  destruct (col (sort_state app)); [apply sort_by_column_mirrored, H|exact H].
Qed.

(** The table of a freshly loaded ledger mirrors the database. *)
Lemma load_db_into_df_mirrored app app' :
  load_db_into_df true app = inr app' -> mirrored app'.
Proof.
  unfold load_db_into_df, get_all. intro H. inversion H; subst. clear H.
  intro r. cbn [df db_conn]. apply SortFacts.sort_In.
Qed.

(** [add_item] keeps the table a mirror of the database. *)
Lemma add_item_mirrored io today form app :
  mirrored app -> mirrored (fst (add_item io today form app)).
Proof.
  intro H. unfold add_item.
  destruct (str_eqb _ _); [exact H|].
  destruct (parse_amount_input _); [exact H|].
  unfold insert. destruct io; [|exact H].
  cbn [fst]. apply reapply_sort_mirrored.
  intro r. unfold _push_undo. cbn [df db_conn table].
  rewrite !in_app_iff, (H r). reflexivity.
Qed.

End WithDatetime.

End Invariants.

(* ------------------------------------------------------------------ *)
(** ** Removing what is not there *)

Module RemoveClaims.
Import PyStr Db Ledger Views Invariants.


Section WithDatetime.
Context {DT : PyDatetime}.


End WithDatetime.

Import RefDates Examples.


End RemoveClaims.

(* ------------------------------------------------------------------ *)
(** ** db.py: reading back what was written *)

Module DbProps.
Import PyStr Db Views OrderFacts.

Lemma id_leb_total a b : id_leb a b = true \/ id_leb b a = true.
Proof. unfold id_leb. rewrite !Z.leb_le. lia. Qed.

Lemma id_leb_trans a b c :
  id_leb a b = true -> id_leb b c = true -> id_leb a c = true.
Proof. unfold id_leb. rewrite !Z.leb_le. lia. Qed.

Lemma get_all_rows conn : get_all true conn = inr (StableSort.sort id_leb (table conn)).
Proof. reflexivity. Qed.

Lemma insert_last (x y : Row) s :
  id_leb y x = true -> StableSort.insert id_leb y (s ++ [x]) = StableSort.insert id_leb y s ++ [x].
Proof.
  intro H. induction s as [|z t IH]; simpl; [rewrite H; reflexivity|].
  destruct (id_leb y z); [reflexivity|]. rewrite IH. reflexivity.
Qed.

(** A row above all the others sorts to the end. *)
Lemma sort_last (x : Row) l :
  (forall y, In y l -> id_leb y x = true) ->
  StableSort.sort id_leb (l ++ [x]) = StableSort.sort id_leb l ++ [x].
Proof.
  induction l as [|y t IH]; intro H; [reflexivity|].
  simpl. rewrite IH by (intros z Hz; apply H; right; exact Hz).
  apply insert_last, H. left. reflexivity.
Qed.

Lemma max_id_bound r rows : In r rows -> (id r <= max_id rows)%Z.
Proof.
  induction rows as [|x t IH]; [intros []|].
  simpl. intros [->|H]; [lia|]. specialize (IH H). lia.
Qed.

Lemma has_id_In rid rows :
  has_id rid rows = true <-> In rid (map id rows).
Proof.
  unfold has_id. rewrite existsb_exists, in_map_iff.
  split; intros (r & H1 & H2).
  - exists r. split; [apply Z.eqb_eq, H2|exact H1].
  - exists r. split; [exact H2|apply Z.eqb_eq, H1].
Qed.

Lemma unique_ids_app_one rows r :
  unique_ids rows -> ~ In (id r) (map id rows) -> unique_ids (rows ++ [r]).
Proof.
  unfold unique_ids. intros Hn Hr. rewrite map_app. cbn [map].
  apply NoDup_app; [exact Hn|repeat constructor; intros []| ].
  intros a Ha [<-|[]]. exact (Hr Ha).
Qed.

Lemma unique_ids_filter p rows : unique_ids rows -> unique_ids (filter p rows).
Proof.
  unfold unique_ids. induction rows as [|x t IH]; intro H; [constructor|].
  cbn [map] in H. inversion H as [|? ? Hx Ht]; subst.
  cbn [filter]. destruct (p x); [|apply IH, Ht].
  cbn [map]. constructor; [|apply IH, Ht].
  intro Hin. apply Hx. apply in_map_iff in Hin as (y & Hy & Hyin).
  apply filter_In in Hyin as [Hyin _]. apply in_map_iff. eauto.
Qed.

Lemma unique_ids_perm l l' :
  Permutation l l' -> unique_ids l -> unique_ids l'.
Proof.
  unfold unique_ids. intros H Hn.
  eapply Permutation_NoDup; [apply Permutation_map, H|exact Hn].
Qed.

(** X1.  [get_all] answers every row of the table exactly once, in
    ascending order of id. *)
Theorem get_all_sorted_by_id (conn : Conn) :
  exists rows,
    get_all true conn = inr rows
    /\ Permutation (table conn) rows
    /\ StableSort.sorted id_leb rows = true.
Proof.
  exists (StableSort.sort id_leb (table conn)). split; [reflexivity|]. split.
  - apply SortFacts.sort_perm.
  - apply SortFacts.sort_sorted. exact id_leb_total.
Qed.

(** X2.  A row inserted is read back by [get_all] as the last row, after
    all the rows read before, with the fields given and an id above
    every id of the table. *)
Theorem insert_then_get_all (conn conn' : Conn)
    (d g ds : str) (a : Q) (rid : Z) (rows : list Row) :
  insert true conn d g ds a = inr (conn', rid) ->
  get_all true conn = inr rows ->
  get_all true conn' = inr (rows ++ [mkRow rid d g ds a])
  /\ (forall r, In r rows -> (id r < rid)%Z).
Proof.
  unfold insert. intros Hi Hg. inversion Hi; subst conn' rid. clear Hi.
  rewrite get_all_rows in Hg. inversion Hg; subst rows. clear Hg.
  assert (Hlt : forall r, In r (table conn) -> (id r < next_id conn)%Z).
  { intros r Hr. apply max_id_bound in Hr. unfold next_id. lia. }
  split.
  - rewrite get_all_rows. cbn [table]. f_equal. apply sort_last.
    intros y Hy. unfold id_leb. cbn [id]. apply Z.leb_le.
    specialize (Hlt y Hy). lia.
  - intros r Hr. apply Hlt. apply (SortFacts.sort_In id_leb). exact Hr.
Qed.

(** X3.  After [delete_ids], [get_all] answers the rows it answered
    before without those whose id was named, in the same order; deleting
    the same ids once more changes nothing. *)
Theorem delete_ids_then_get_all (conn conn' : Conn) (ids : list Z)
    (rows : list Row) :
  delete_ids true conn ids = inr conn' ->
  get_all true conn = inr rows ->
  get_all true conn'
  = inr (filter (fun r => negb (existsb (Z.eqb (id r)) ids)) rows)
  /\ delete_ids true conn' ids = inr conn'.
Proof.
  intros Hd Hg. rewrite get_all_rows in Hg. inversion Hg; subst rows. clear Hg.
  unfold delete_ids in *. destruct ids as [|i ids].
  - inversion Hd; subst conn'. split; [|reflexivity].
    rewrite get_all_rows. f_equal. symmetry. apply forallb_filter_id.
    apply forallb_forall. reflexivity.
  - inversion Hd; subst conn'. clear Hd. cbn [table seq]. split.
    + rewrite get_all_rows. cbn [table]. f_equal. symmetry.
      apply (SortFacts.filter_sort id_leb id_leb_total id_leb_trans).
    + f_equal. f_equal. apply forallb_filter_id. apply forallb_forall.
      intros r Hr. apply filter_In in Hr as [_ Hr]. exact Hr.
Qed.


(** X5.  The primary key: when no two rows of the table share an id,
    none do after an insert, an insert with an explicit id, a delete or a
    clear. *)
Theorem table_ids_stay_unique (conn conn' : Conn) :
  unique_ids (table conn) ->
  (forall d g ds a rid,
      insert true conn d g ds a = inr (conn', rid) -> unique_ids (table conn'))
  /\ (forall r, insert_with_id true conn r = inr conn' -> unique_ids (table conn'))
  /\ (forall ids, delete_ids true conn ids = inr conn' -> unique_ids (table conn'))
  /\ (clear_all true conn = inr conn' -> unique_ids (table conn')).
Proof.
  intro Hu. repeat split.
  - intros d g ds a rid H. unfold insert in H. inversion H; subst. clear H.
    cbn [table]. apply unique_ids_app_one; [exact Hu|].
    cbn [id]. intro Hin. apply in_map_iff in Hin as (r & Hr & Hin).
    apply max_id_bound in Hin. unfold next_id in Hr. lia.
  - intros r H. unfold insert_with_id in H.
    destruct (has_id (id r) (table conn)) eqn:E; [discriminate|].
    inversion H; subst. clear H. cbn [table].
    apply unique_ids_app_one; [exact Hu|].
    intro Hin. apply has_id_In in Hin. congruence.
  - intros ids H. unfold delete_ids in H.
    destruct ids; inversion H; subst; [exact Hu|].
    cbn [table]. apply unique_ids_filter, Hu.
  - intro H. unfold clear_all in H. inversion H. constructor.
Qed.

Import Examples.

(** X2 on the table of two rows: the third row is read back last. *)
Lemma insert_then_get_all_witness :
  get_all true
    (mkConn (two_rows ++ [mkRow 3 (lit "2025-02-01") (lit "Gider") (lit "Kira") (-7)]) 3)
  = inr (two_rows ++ [mkRow 3 (lit "2025-02-01") (lit "Gider") (lit "Kira") (-7)])
  /\ (forall r, In r two_rows -> (id r < 3)%Z).
Proof.
  apply (insert_then_get_all (mkConn two_rows 2) _
           (lit "2025-02-01") (lit "Gider") (lit "Kira") (-7) 3 two_rows);
    reflexivity.
Defined.

(** X3 on the table of two rows, the first of which is deleted. *)
Lemma delete_ids_then_get_all_witness :
  get_all true (mkConn [row 2 "Gelir" 2] 2)
  = inr (filter (fun r => negb (existsb (Z.eqb (id r)) [1%Z; 5%Z])) two_rows)
  /\ delete_ids true (mkConn [row 2 "Gelir" 2] 2) [1%Z; 5%Z]
     = inr (mkConn [row 2 "Gelir" 2] 2).
Proof.
  apply (delete_ids_then_get_all (mkConn two_rows 2) _ [1%Z; 5%Z] two_rows);
    reflexivity.
Defined.


(** X5 on the table of two rows and the table a delete of the first row
    leaves. *)
Lemma table_ids_stay_unique_witness :
  delete_ids true (mkConn two_rows 2) [1%Z] = inr (mkConn [row 2 "Gelir" 2] 2)
  /\ unique_ids [row 2 "Gelir" 2].
Proof.
  split; [reflexivity|].
  assert (Hu : unique_ids (table (mkConn two_rows 2))).
  { unfold unique_ids. cbn. repeat constructor; cbn; intuition discriminate. }
  destruct (table_ids_stay_unique (mkConn two_rows 2)
              (mkConn [row 2 "Gelir" 2] 2) Hu) as (_ & _ & Hd & _).
  apply (Hd [1%Z]). reflexivity.
Defined.

End DbProps.

(* ------------------------------------------------------------------ *)
(** ** app.py: what [sort_by_column] gives *)

Module SortProps.
Import PyStr Db Ledger Views StableSort OrderFacts SortValuesFacts
  SortRowsFacts.

Section Tied.
Context {A : Type} (leb : A -> A -> bool).
Hypothesis leb_total : total leb.
Hypothesis leb_trans : transitive leb.

(** Elements that are all tied with one element are sorted as they
    stand. *)
Lemma sorted_when_tied (x : A) l :
  (forall y, In y l -> leb x y = true /\ leb y x = true) ->
  sorted leb l = true.
Proof.
  induction l as [|a t IH]; intro H; [reflexivity|].
  cbn [sorted]. rewrite IH by (intros y Hy; apply H; right; exact Hy).
  rewrite andb_true_r. destruct t as [|b t']; [reflexivity|].
  apply leb_trans with x.
  - apply (H a). left. reflexivity.
  - apply (H b). right. left. reflexivity.
Qed.

Lemma sort_keeps_ties (x : A) (p : A -> bool) l :
  (forall y, p y = true -> leb x y = true /\ leb y x = true) ->
  filter p (sort leb l) = filter p l.
Proof.
  intro Hp. rewrite (SortFacts.filter_sort leb leb_total leb_trans).
  apply (SortFacts.sort_of_sorted leb leb_trans).
  apply (sorted_when_tied x). intros y Hy.
  apply filter_In in Hy as [_ Hy]. apply Hp, Hy.
Qed.

End Tied.

Section WithDatetime.
Context {DT : PyDatetime}.

Lemma row_leb_flip {K : Type} (key : Row -> K) (leb : K -> K -> bool) a x y :
  row_leb key leb true x y = true /\ row_leb key leb true y x = true ->
  row_leb key leb a x y = true /\ row_leb key leb a y x = true.
Proof. unfold row_leb. destruct a; tauto. Qed.

Lemma sort_values_stable {K : Type} (key : Row -> K) (leb : K -> K -> bool)
    a rows x :
  total leb -> transitive leb ->
  filter (fun y => row_leb key leb true x y && row_leb key leb true y x)
    (sort_values key leb a rows)
  = filter (fun y => row_leb key leb true x y && row_leb key leb true y x) rows.
Proof.
  intros Ht Htr. unfold sort_values.
  apply (sort_keeps_ties (row_leb key leb a)
           (cmp_total key leb Ht a) (cmp_trans key leb Htr a) x).
  intros y Hy. apply andb_prop in Hy. apply row_leb_flip, Hy.
Qed.

(** X6.  [sort_by_column] keeps the rows, records the column, and
    records the ascending direction when the column was not the active
    one; the database and the undo log are not touched.  For the columns
    whose key is read off the row itself (date, group, description,
    amount) the table is then in the order of the column, in the
    direction recorded. *)
Theorem sort_by_column_sorts (c : Column) (app : App) :
  let app' := sort_by_column c app in
  Permutation (df app) (df app')
  /\ col (sort_state app') = Some c
  /\ (c <> ColPercent ->
      rows_sorted c (asc (sort_state app')) (df app') = true)
  /\ (col (sort_state app) <> Some c -> asc (sort_state app') = true)
  /\ db_conn app' = db_conn app
  /\ undo_stack app' = undo_stack app.
Proof.
  intro app'. split; [apply sort_rows_perm|]. split; [reflexivity|].
  split; [intros _; apply sort_rows_sorted|]. split; [|split; reflexivity].
  intro H. unfold app', sort_by_column. cbn [sort_state asc].
  destruct (col (sort_state app)) as [c'|]; [|reflexivity].
  destruct (Column_eqb c' c) eqn:E; [|reflexivity].
  exfalso. apply H. destruct c', c; try discriminate; reflexivity.
Qed.

(** X7.  The sort by date, group, description or amount is stable in
    both directions: the rows that tie with a given row in the column
    stand after the sort in the order they stood in before. *)
Theorem sort_rows_stable (c : Column) (a : bool) (rows : list Row) (x : Row) :
  c <> ColPercent ->
  filter (tied c rows x) (sort_rows c a rows) = filter (tied c rows x) rows.
Proof.
  intro Hc. destruct c; try congruence; unfold tied, sort_rows;
    apply sort_values_stable; auto with orders.
Qed.

End WithDatetime.

Import RefDates Examples.

(** X7 on three incomes sorted by amount in descending order: the two
    rows of amount 1 keep their order, id 1 before id 3. *)
Lemma sort_rows_stable_witness :
  filter (tied ColAmount [row 1 "Gelir" 1; row 2 "Gelir" 2; row 3 "Gelir" 1]
            (row 1 "Gelir" 1))
    (sort_rows ColAmount false
       [row 1 "Gelir" 1; row 2 "Gelir" 2; row 3 "Gelir" 1])
  = [row 1 "Gelir" 1; row 3 "Gelir" 1].
Proof.
  rewrite (sort_rows_stable ColAmount false
             [row 1 "Gelir" 1; row 2 "Gelir" 2; row 3 "Gelir" 1]
             (row 1 "Gelir" 1)) by discriminate.
  reflexivity.
Defined.

End SortProps.

(* ------------------------------------------------------------------ *)
(** ** app.py: operations that stop, and what a removal does *)

Module LedgerProps.
Import PyStr Amount Db Ledger Views StrFacts SortRowsFacts SortClaims
  UndoClaims AddClaims Invariants DbProps.

Lemma not_selected_spec sel r :
  not_selected sel r = true <-> ~ In (id r) sel.
Proof.
  unfold not_selected. rewrite negb_true_iff, <- not_true_iff_false.
  rewrite existsb_exists. split; intros H H'.
  - apply H. exists (id r). split; [exact H'|apply Z.eqb_refl].
  - destruct H' as (j & Hj & E). apply Z.eqb_eq in E. subst j. exact (H Hj).
Qed.

Lemma unique_ids_inj rows x y :
  unique_ids rows -> In x rows -> In y rows -> id x = id y -> x = y.
Proof.
  unfold unique_ids. induction rows as [|z t IH]; [intros _ []|].
  cbn [map]. intro H. inversion H as [|? ? Hz Ht]; subst.
  intros [->|Hx] [->|Hy] E.
  - reflexivity.
  - exfalso. apply Hz. rewrite E. apply in_map, Hy.
  - exfalso. apply Hz. rewrite <- E. apply in_map, Hx.
  - apply IH; assumption.
Qed.

Lemma unique_ids_NoDup rows : unique_ids rows -> NoDup rows.
Proof. apply NoDup_map_inv. Qed.

Lemma selected_rows_In sel rows r :
  In r (selected_rows sel rows) -> In r rows /\ In (id r) sel.
Proof.
  unfold selected_rows. rewrite in_flat_map. intros (rid & Hrid & Hr).
  destruct (filter _ rows) as [|x l] eqn:E; [destruct Hr|].
  destruct Hr as [<-|[]].
  assert (Hx : In x (filter (fun r => (id r =? rid)%Z) rows))
    by (rewrite E; left; reflexivity).
  apply filter_In in Hx as [Hx Hid]. apply Z.eqb_eq in Hid.
  split; [exact Hx|congruence].
Qed.

Lemma selected_rows_complete sel rows r :
  unique_ids rows -> In r rows -> In (id r) sel ->
  In r (selected_rows sel rows).
Proof.
  intros Hu Hr Hsel. unfold selected_rows. apply in_flat_map.
  exists (id r). split; [exact Hsel|].
  destruct (filter _ rows) as [|x l] eqn:E.
  - assert (Hin : In r (filter (fun r0 => (id r0 =? id r)%Z) rows))
      by (apply filter_In; split; [exact Hr|apply Z.eqb_refl]).
    rewrite E in Hin. destruct Hin.
  - assert (Hx : In x (filter (fun r0 => (id r0 =? id r)%Z) rows))
      by (rewrite E; left; reflexivity).
    apply filter_In in Hx as [Hx Hid]. apply Z.eqb_eq in Hid.
    left. apply (unique_ids_inj rows); assumption.
Qed.

Lemma selected_rows_unique sel rows :
  NoDup sel -> unique_ids (selected_rows sel rows).
Proof.
  unfold unique_ids. induction sel as [|i t IH]; intro H; [constructor|].
  inversion H as [|? ? Hi Ht]; subst.
  change (selected_rows (i :: t) rows)
    with ((match filter (fun r => (id r =? i)%Z) rows with
           | r :: _ => [r]
           | [] => []
           end) ++ selected_rows t rows).
  destruct (filter _ rows) as [|x l] eqn:E; [apply IH, Ht|].
  cbn [Datatypes.app map]. constructor; [|apply IH, Ht].
  assert (Hx : In x (filter (fun r => (id r =? i)%Z) rows))
    by (rewrite E; left; reflexivity).
  apply filter_In in Hx as [_ Hid]. apply Z.eqb_eq in Hid.
  intro Hin. apply in_map_iff in Hin as (y & Hy & Hin).
  apply selected_rows_In in Hin as [_ Hin]. apply Hi. congruence.
Qed.

Lemma filter_split {A : Type} (p : A -> bool) l :
  Permutation l (filter p l ++ filter (fun x => negb (p x)) l).
Proof.
  induction l as [|x t IH]; [constructor|].
  cbn [filter]. destruct (p x); cbn [negb Datatypes.app].
  - constructor. exact IH.
  - apply Permutation_cons_app. exact IH.
Qed.

(** The rows of a sound ledger that a removal records are the rows it
    deletes from the database. *)
Lemma selected_rows_deleted sel app :
  well_formed app -> NoDup sel ->
  Permutation
    (filter (fun r => negb (not_selected sel r)) (table (db_conn app)))
    (selected_rows sel (df app)).
Proof.
  intros (Hm & Ht & Hd) Hsel. apply NoDup_Permutation.
  - apply NoDup_filter, unique_ids_NoDup, Ht.
  - apply unique_ids_NoDup, selected_rows_unique, Hsel.
  - intro r. rewrite filter_In, negb_true_iff, <- not_true_iff_false.
    rewrite not_selected_spec. split.
    + intros [Hr Hin]. apply selected_rows_complete; [exact Hd|apply Hm, Hr|].
      destruct (in_dec Z.eq_dec (id r) sel) as [H|H]; [exact H|tauto].
    + intro Hr. apply selected_rows_In in Hr as [Hr Hin].
      split; [apply Hm, Hr|tauto].
Qed.

(** The reinsertion loop of [undo] on rows whose ids are free: every row
    goes back with its id. *)
Lemma reinsert_all rows : forall conn acc,
  unique_ids rows ->
  (forall r, In r rows -> ~ In (id r) (map id (table conn))) ->
  table (fst (fold_left (reinsert true) rows (conn, acc))) = table conn ++ rows
  /\ snd (fold_left (reinsert true) rows (conn, acc)) = acc ++ map id rows.
Proof.
  unfold unique_ids.
  induction rows as [|r t IH]; intros conn acc Hu Hfree.
  - cbn. rewrite !app_nil_r. split; reflexivity.
  - cbn [map] in Hu. inversion Hu as [|? ? Hr Ht]; subst.
    assert (E : has_id (id r) (table conn) = false).
    { apply not_true_is_false. intro H. apply has_id_In in H.
      exact (Hfree r (or_introl eq_refl) H). }
    assert (Hstep : reinsert true (conn, acc) r
                    = (mkConn (table conn ++ [r]) (Z.max (seq conn) (id r)),
                       acc ++ [id r])).
    { unfold reinsert, insert_with_id. rewrite E. reflexivity. }
    cbn [fold_left]. rewrite Hstep.
    destruct (IH (mkConn (table conn ++ [r]) (Z.max (seq conn) (id r)))
                (acc ++ [id r]) Ht) as [H1 H2].
    { intros x Hx. cbn [table]. rewrite map_app, in_app_iff. cbn [map In].
      intros [H|[H|[]]].
      - exact (Hfree x (or_intror Hx) H).
      - apply Hr. rewrite H. apply in_map, Hx. }
    rewrite H1, H2. cbn [table map]. rewrite <- !app_assoc. split; reflexivity.
Qed.

(** One turn of the loop keeps the ids of the database unique, whether
    the row goes back with its id, with a fresh one, or not at all. *)
Lemma reinsert_unique io st r :
  unique_ids (table (fst st)) -> unique_ids (table (fst (reinsert io st r))).
Proof.
  destruct st as [conn acc]. cbn [fst]. intro Hu.
  unfold reinsert, insert_with_id, insert. destruct io; [|exact Hu].
  destruct (has_id (id r) (table conn)) eqn:E; cbn [fst table].
  - apply unique_ids_app_one; [exact Hu|]. cbn [id].
    intro Hin. apply in_map_iff in Hin as (x & Hx & Hin).
    apply max_id_bound in Hin. unfold next_id in Hx. lia.
  - apply unique_ids_app_one; [exact Hu|].
    intro Hin. apply has_id_In in Hin. congruence.
Qed.

Lemma reinsert_fold_unique io rows : forall st,
  unique_ids (table (fst st)) ->
  unique_ids (table (fst (fold_left (reinsert io) rows st))).
Proof.
  induction rows as [|r t IH]; intros st H; [exact H|].
  cbn [fold_left]. apply IH, reinsert_unique, H.
Qed.

Section WithDatetime.
Context {DT : PyDatetime}.

Lemma remove_selected_done sel app :
  sel <> [] ->
  remove_selected true true sel app
  = (reapply_sort
       (let app1 :=
          mkApp (mkConn (filter (not_selected sel) (table (db_conn app)))
                   (seq (db_conn app)))
            (filter (not_selected sel) (df app))
            (sort_state app) (undo_stack app) in
        match selected_rows sel (df app) with
        | [] => app1
        | _ :: _ => _push_undo (ActDelete (selected_rows sel (df app))) app1
        end),
     Completed).
Proof. destruct sel as [|i sel]; [congruence|]. reflexivity. Qed.

(** [undo] on a log whose last entry is a delete with rows. *)
Lemma undo_delete io app older rows :
  undo_stack app = older ++ [ActDelete rows] -> rows <> [] ->
  undo io app
  = (let st := fold_left (reinsert io) rows (db_conn app, []) in
     let app1 := mkApp (fst st) (df app) (sort_state app) older in
     match load_db_into_df io app1 with
     | inl e => (app1, Unexpected e)
     | inr app2 => (reapply_sort app2, Restored (List.length (snd st)))
     end).
Proof.
  intros H Hne. unfold undo. rewrite H, rev_app_distr. cbn [rev Datatypes.app].
  rewrite rev_involutive. destruct rows as [|r rows]; [congruence|].
  destruct (fold_left _ _ _) as [conn re]. reflexivity.
Qed.

Lemma reapply_sort_sort_state_twice (a b : App) :
  sort_state b = sort_state (reapply_sort a) ->
  sort_state (reapply_sort b) = sort_state a.
Proof.
  intro H. destruct (sort_state a) as [[c|] s] eqn:E.
  - rewrite (reapply_sort_active c s a E) in H. cbn [sort_state] in H.
    rewrite (reapply_sort_active c (negb s) b H). cbn [sort_state].
    rewrite negb_involutive. reflexivity.
  - rewrite (reapply_sort_inactive a) in H by (rewrite E; reflexivity).
    rewrite E in H.
    rewrite (reapply_sort_inactive b) by (rewrite H; reflexivity). exact H.
Qed.

Lemma reapply_sort_well_formed app :
  well_formed app -> well_formed (reapply_sort app).
Proof.
  intros (Hm & Ht & Hd). split; [apply reapply_sort_mirrored, Hm|].
  split; [rewrite reapply_sort_db_conn; exact Ht|].
  eapply unique_ids_perm; [apply reapply_sort_perm|exact Hd].
Qed.

Lemma push_undo_well_formed a app :
  well_formed app -> well_formed (_push_undo a app).
Proof. intro H. exact H. Qed.

(** What [get_all] reads into memory is a sound ledger when the ids of
    the database are unique. *)
Lemma loaded_well_formed conn s u d app' :
  unique_ids (table conn) ->
  load_db_into_df true (mkApp conn d s u) = inr app' ->
  well_formed app'.
Proof.
  intros Hu H. split; [apply (load_db_into_df_mirrored _ _ H)|].
  unfold load_db_into_df, get_all in H. inversion H; subst. clear H.
  cbn [db_conn df]. split; [exact Hu|].
  eapply unique_ids_perm; [apply SortFacts.sort_perm|exact Hu].
Qed.

(** X8.  [add_item] changes the ledger only when it completes: whenever
    it stops short (the amount is blank or is refused, or the database
    cannot be written), the database, the table, the sort state and the
    undo log are all as before.  It never completes with a blank amount
    or without the insert; a blank amount is answered by the warning
    alone. *)
Theorem add_item_all_or_nothing io today form app :
  (snd (add_item io today form app) = Completed
   -> io = true /\ strip (amount_var form) <> [])
  /\ (snd (add_item io today form app) <> Completed
      -> fst (add_item io today form app) = app)
  /\ (strip (amount_var form) = []
      -> add_item io today form app = (app, MissingAmount)).
Proof.
  unfold add_item.
  destruct (str_eqb (strip (amount_var form)) []) eqn:E.
  - apply str_eqb_eq in E. cbn [fst snd].
    split; [discriminate|]. split; reflexivity.
  - apply str_eqb_nil in E.
    destruct (parse_amount_input _) as [e|raw].
    + cbn [fst snd]. split; [discriminate|]. split; [reflexivity|].
      intro H. contradiction.
    + unfold insert. destruct io; cbn [fst snd].
      * split; [intros _; split; [reflexivity|exact E]|].
        split; [congruence|]. intro H. contradiction.
      * split; [discriminate|]. split; [reflexivity|].
        intro H. contradiction.
Qed.

(** X9.  [remove_selected] changes the ledger only when it completes:
    with nothing selected, with the dialog declined, or with a database
    that cannot be written, the whole state is as before.  It completes
    exactly when rows are selected, the dialog is confirmed and the
    delete succeeds. *)
Theorem remove_selected_all_or_nothing io confirm sel app :
  (snd (remove_selected io confirm sel app) = Completed
   <-> io = true /\ confirm = true /\ sel <> [])
  /\ (snd (remove_selected io confirm sel app) <> Completed
      -> fst (remove_selected io confirm sel app) = app).
Proof.
  unfold remove_selected. destruct sel as [|i sel].
  - cbn [fst snd]. split; [|reflexivity].
    split; [discriminate|]. intros (_ & _ & H). congruence.
  - destruct confirm; cbn [negb].
    + unfold delete_ids. destruct io; cbn [fst snd].
      * split; [|congruence]. split; [|reflexivity].
        intros _. repeat split. discriminate.
      * split; [|reflexivity]. split; [discriminate|].
        intros (H & _). discriminate.
    + cbn [fst snd]. split; [|reflexivity].
      split; [discriminate|]. intros (_ & H & _). discriminate.
Qed.

(** X10.  A confirmed removal deletes from the database exactly the rows
    whose id is selected and keeps the id counter; the table keeps the
    rows whose id is not selected; the rows of the table that were
    selected are logged as one undo entry, and nothing is logged when no
    selected id is in the table. *)
Theorem remove_selected_removes sel app :
  sel <> [] ->
  let app' := fst (remove_selected true true sel app) in
  table (db_conn app') = filter (not_selected sel) (table (db_conn app))
  /\ seq (db_conn app') = seq (db_conn app)
  /\ Permutation (filter (not_selected sel) (df app)) (df app')
  /\ (forall r, In r (df app') <-> In r (df app) /\ ~ In (id r) sel)
  /\ (selected_rows sel (df app) = [] -> undo_stack app' = undo_stack app)
  /\ (selected_rows sel (df app) <> [] ->
      exists older,
        undo_stack app' = older ++ [ActDelete (selected_rows sel (df app))]).
Proof.
  intros Hsel app'. unfold app'. rewrite (remove_selected_done sel app Hsel).
  cbn [fst]. cbv zeta.
  set (app1 := mkApp _ _ _ _).
  set (app2 := match selected_rows sel (df app) with [] => _ | _ :: _ => _ end).
  assert (Hc : db_conn app2 = db_conn app1)
    by (unfold app2; destruct (selected_rows sel (df app)); reflexivity).
  assert (Hd : df app2 = df app1)
    by (unfold app2; destruct (selected_rows sel (df app)); reflexivity).
  rewrite reapply_sort_db_conn, Hc, reapply_sort_undo_stack.
  assert (Hp : Permutation (filter (not_selected sel) (df app))
                 (df (reapply_sort app2))).
  { eapply Permutation_trans; [|apply reapply_sort_perm]. rewrite Hd.
    apply Permutation_refl. }
  split; [reflexivity|]. split; [reflexivity|]. split; [exact Hp|].
  split; [|split].
  - intro r. split.
    + intro Hr. eapply Permutation_in in Hr; [|apply Permutation_sym, Hp].
      apply filter_In in Hr as [Hr Hn]. split; [exact Hr|].
      apply not_selected_spec, Hn.
    + intros [Hr Hn]. eapply Permutation_in; [apply Hp|].
      apply filter_In. split; [exact Hr|apply not_selected_spec, Hn].
  - intro E. unfold app2. rewrite E. reflexivity.
  - intro Hne. unfold app2.
    destruct (selected_rows sel (df app)) as [|r l] eqn:E; [congruence|].
    rewrite push_undo_stack. eexists. reflexivity.
Qed.

Lemma remove_selected_logged sel app :
  sel <> [] -> selected_rows sel (df app) <> [] ->
  remove_selected true true sel app
  = (reapply_sort
       (_push_undo (ActDelete (selected_rows sel (df app)))
          (mkApp (mkConn (filter (not_selected sel) (table (db_conn app)))
                    (seq (db_conn app)))
             (filter (not_selected sel) (df app))
             (sort_state app) (undo_stack app))),
     Completed).
Proof.
  intros Hsel Hne. rewrite (remove_selected_done sel app Hsel). cbv zeta.
  destruct (selected_rows sel (df app)); [congruence|reflexivity].
Qed.

Lemma load_db_into_df_true app :
  load_db_into_df true app
  = inr (mkApp (db_conn app) (StableSort.sort id_leb (table (db_conn app)))
           (sort_state app) (undo_stack app)).
Proof. reflexivity. Qed.

Lemma add_item_well_formed io today form app :
  well_formed app -> well_formed (fst (add_item io today form app)).
Proof.
  intro H. pose proof H as (Hm & Ht & Hd). unfold add_item.
  destruct (str_eqb _ _); [exact H|].
  destruct (parse_amount_input _); [exact H|].
  unfold insert. destruct io; [|exact H].
  cbn [fst]. apply reapply_sort_well_formed, push_undo_well_formed.
  assert (Hfresh : forall rows, (forall r, In r rows -> In r (table (db_conn app))) ->
            forall d g ds a,
              ~ In (id (mkRow (next_id (db_conn app)) d g ds a)) (map id rows)).
  { intros rows Hsub d g ds a Hin. cbn [id] in Hin.
    apply in_map_iff in Hin as (x & Hx & Hin).
    apply Hsub, max_id_bound in Hin. unfold next_id in Hx. lia. }
  split; [|split]; cbn [db_conn df table].
  - intro r. cbn [db_conn df table]. rewrite !in_app_iff, (Hm r). reflexivity.
  - apply unique_ids_app_one; [exact Ht|]. apply Hfresh. auto.
  - apply unique_ids_app_one; [exact Hd|]. apply Hfresh.
    intros r Hr. apply Hm, Hr.
Qed.

Lemma remove_selected_well_formed io confirm sel app :
  well_formed app -> well_formed (fst (remove_selected io confirm sel app)).
Proof.
  intro H. pose proof H as (Hm & Ht & Hd). unfold remove_selected.
  destruct sel as [|i sel]; [exact H|].
  destruct (negb confirm); [exact H|].
  unfold delete_ids. destruct io; [|exact H].
  cbn [fst]. apply reapply_sort_well_formed.
  assert (W : well_formed
                (mkApp
                   (mkConn (filter (not_selected (i :: sel)) (table (db_conn app)))
                      (seq (db_conn app)))
                   (filter (not_selected (i :: sel)) (df app))
                   (sort_state app) (undo_stack app))).
  { split; [|split]; cbn [db_conn df table].
    - intro r. cbn [db_conn df table]. rewrite !filter_In, (Hm r). reflexivity.
    - apply unique_ids_filter, Ht.
    - apply unique_ids_filter, Hd. }
  destruct (flat_map _ _); exact W.
Qed.

Lemma sort_by_column_well_formed c app :
  well_formed app -> well_formed (sort_by_column c app).
Proof.
  intros (Hm & Ht & Hd). split; [apply sort_by_column_mirrored, Hm|].
  split; [exact Ht|].
  eapply unique_ids_perm; [apply sort_rows_perm|exact Hd].
Qed.

Lemma undo_well_formed app :
  well_formed app -> well_formed (fst (undo true app)).
Proof.
  intro H. pose proof H as (Hm & Ht & Hd).
  destruct (undo_stack app) as [|x st] eqn:E using rev_ind.
  - unfold undo. rewrite E. exact H.
  - destruct x as [rid|rows].
    + rewrite (AddUndoClaims.undo_add app st rid E). cbn [fst].
      apply reapply_sort_well_formed.
      split; [|split]; cbn [db_conn df table].
      * intro r. cbn [db_conn df table]. rewrite !filter_In, (Hm r). cbn [existsb].
        rewrite orb_false_r. reflexivity.
      * apply unique_ids_filter, Ht.
      * apply unique_ids_filter, Hd.
    + destruct rows as [|r rows].
      * unfold undo. rewrite E, rev_app_distr. cbn [rev Datatypes.app fst].
        exact H.
      * rewrite (undo_delete true app st (r :: rows) E) by discriminate.
        cbv zeta. rewrite load_db_into_df_true. cbn [fst].
        apply reapply_sort_well_formed.
        eapply loaded_well_formed; [|apply load_db_into_df_true].
        cbn [db_conn]. apply reinsert_fold_unique. exact Ht.
Qed.

Lemma load_sample_well_formed app :
  well_formed app -> well_formed (fst (load_sample true app)).
Proof.
  intro H. unfold load_sample, clear_all.
  match goal with
  | |- context [fold_left ?f sample (inr ?c)] =>
      assert (Hu : forall data acc c',
                 (forall c0, acc = inr c0 -> unique_ids (table c0)) ->
                 fold_left f data acc = inr c' -> unique_ids (table c'));
        [|pose proof (Hu sample (inr c)) as Hs;
          destruct (fold_left f sample (inr c)) as [e|conn]]
  end.
  - induction data as [|x t IH]; intros acc c' Hacc Hc';
      [apply Hacc, Hc'|].
    cbn [fold_left] in Hc'. eapply IH; [|exact Hc'].
    intros c0 Hc0. destruct acc as [e|c1]; [discriminate|].
    destruct x as [[[d g] ds] a]. unfold insert in Hc0.
    inversion Hc0; subst. clear Hc0. cbn [table].
    apply unique_ids_app_one; [apply Hacc; reflexivity|]. cbn [id].
    intro Hin. apply in_map_iff in Hin as (y & Hy & Hin).
    apply max_id_bound in Hin. unfold next_id in Hy. lia.
  - exact H.
  - rewrite load_db_into_df_true. cbn [fst db_conn df sort_state].
    apply reapply_sort_well_formed.
    assert (Hc : unique_ids (table conn)).
    { apply Hs; [|reflexivity]. intros c0 Hc0. inversion Hc0. constructor. }
    split; [|split]; cbn [db_conn df].
    + intro r. cbn [db_conn df table]. apply SortFacts.sort_In.
    + exact Hc.
    + eapply unique_ids_perm; [apply SortFacts.sort_perm|exact Hc].
Qed.

(** X11.  Soundness is kept: when the table in memory holds the rows of
    the database and no two rows share an id, the same is true after
    [add_item] and [remove_selected] (whether or not the database can be
    written: each makes one change to the database, before it changes
    anything else), after [sort_by_column], and after [undo] and
    [load_sample] on a database that can be written. *)
Theorem well_formed_kept (app : App) :
  well_formed app ->
  (forall io today form, well_formed (fst (add_item io today form app)))
  /\ (forall io confirm sel,
        well_formed (fst (remove_selected io confirm sel app)))
  /\ (forall c, well_formed (sort_by_column c app))
  /\ well_formed (fst (undo true app))
  /\ well_formed (fst (load_sample true app)).
Proof.
  intro H. split; [intros; apply add_item_well_formed, H|].
  split; [intros; apply remove_selected_well_formed, H|].
  split; [intros; apply sort_by_column_well_formed, H|].
  split; [apply undo_well_formed, H|].
  apply load_sample_well_formed, H.
Qed.

(** X12.  A removal undone: in a sound ledger, removing a selection of
    distinct ids of which one at least is in the table, and undoing right
    after, puts every removed row back with the id it had.  The database
    and the table hold the rows of before (in some order), the sort state
    is the one of before, the undo log is the one of before (without its
    oldest entry when it was full), and the count reported is the number
    of rows removed. *)
Theorem remove_then_undo (sel : list Z) (app : App) :
  well_formed app -> NoDup sel ->
  (exists r, In r (df app) /\ In (id r) sel) ->
  let app1 := fst (remove_selected true true sel app) in
  let app2 := fst (undo true app1) in
  snd (undo true app1) = Restored (List.length (selected_rows sel (df app)))
  /\ Permutation (table (db_conn app)) (table (db_conn app2))
  /\ Permutation (df app) (df app2)
  /\ sort_state app2 = sort_state app
  /\ undo_stack app2
     = (if (List.length (undo_stack app) <? UNDO_STACK_MAX)%nat
        then undo_stack app else tl (undo_stack app))
  /\ well_formed app2.
Proof.
  intros W Hnd (r0 & Hr0 & Hr0sel) app1 app2.
  pose proof W as (Hm & Ht & Hd).
  assert (Hsel : sel <> []) by (intro E; rewrite E in Hr0sel; destruct Hr0sel).
  assert (Hne : selected_rows sel (df app) <> []).
  { intro E. pose proof (selected_rows_complete sel (df app) r0 Hd Hr0 Hr0sel) as Hin.
    rewrite E in Hin. destruct Hin. }
  pose proof (remove_selected_logged sel app Hsel Hne) as R.
  remember (selected_rows sel (df app)) as rows eqn:Erows.
  remember (mkApp (mkConn (filter (not_selected sel) (table (db_conn app)))
                     (seq (db_conn app)))
              (filter (not_selected sel) (df app))
              (sort_state app) (undo_stack app)) as app0 eqn:E0.
  assert (E1 : app1 = reapply_sort (_push_undo (ActDelete rows) app0))
    by (unfold app1; rewrite R; reflexivity).
  remember (if (List.length (undo_stack app) <? UNDO_STACK_MAX)%nat
            then undo_stack app else tl (undo_stack app)) as older eqn:Eo.
  assert (Hst : undo_stack app1 = older ++ [ActDelete rows]).
  { rewrite E1, reapply_sort_undo_stack, push_undo_stack, E0, Eo. reflexivity. }
  assert (Hdb : db_conn app1
                = mkConn (filter (not_selected sel) (table (db_conn app)))
                    (seq (db_conn app))).
  { rewrite E1, reapply_sort_db_conn, E0. reflexivity. }
  assert (Hss : sort_state (reapply_sort
                  (mkApp (fst (fold_left (reinsert true) rows (db_conn app1, [])))
                     (StableSort.sort id_leb
                        (table (fst (fold_left (reinsert true) rows
                                       (db_conn app1, [])))))
                     (sort_state app1) older))
                = sort_state app).
  { rewrite (reapply_sort_sort_state_twice (_push_undo (ActDelete rows) app0));
      [rewrite E0; reflexivity|].
    cbn [sort_state]. rewrite E1. reflexivity. }
  assert (Hfree : forall r, In r rows ->
            ~ In (id r) (map id (table (db_conn app1)))).
  { intros r Hr Hin. rewrite Hdb in Hin. cbn [table] in Hin.
    apply in_map_iff in Hin as (y & Hy & Hin).
    apply filter_In in Hin as [_ Hin]. apply not_selected_spec in Hin.
    rewrite Erows in Hr. apply selected_rows_In in Hr as [_ Hr].
    apply Hin. rewrite Hy. exact Hr. }
  assert (Hru : unique_ids rows)
    by (rewrite Erows; apply selected_rows_unique, Hnd).
  destruct (reinsert_all rows (db_conn app1) [] Hru Hfree) as [Htab Hre].
  assert (Hperm : Permutation (table (db_conn app))
                    (table (fst (fold_left (reinsert true) rows
                                   (db_conn app1, []))))).
  { rewrite Htab, Hdb. cbn [table].
    eapply Permutation_trans; [apply (filter_split (not_selected sel))|].
    apply Permutation_app_head. rewrite Erows.
    apply selected_rows_deleted; assumption. }
  assert (Hdt : Permutation (df app) (table (db_conn app))).
  { apply NoDup_Permutation;
      [apply unique_ids_NoDup, Hd|apply unique_ids_NoDup, Ht|exact Hm]. }
  unfold app2. rewrite (undo_delete true app1 older rows Hst Hne).
  cbv zeta. rewrite load_db_into_df_true.
  cbn [fst snd db_conn sort_state undo_stack df].
  split; [rewrite Hre; cbn [Datatypes.app]; rewrite length_map; reflexivity|].
  split; [rewrite reapply_sort_db_conn; exact Hperm|].
  split.
  { eapply Permutation_trans; [|apply reapply_sort_perm]. cbn [df].
    eapply Permutation_trans; [exact Hdt|].
    eapply Permutation_trans; [exact Hperm|]. apply SortFacts.sort_perm. }
  split; [exact Hss|].
  split; [rewrite reapply_sort_undo_stack; reflexivity|].
  apply reapply_sort_well_formed.
  assert (Hc : unique_ids (table (fst (fold_left (reinsert true) rows
                                         (db_conn app1, [])))))
    by (eapply unique_ids_perm; [exact Hperm|exact Ht]).
  split; [|split]; cbn [db_conn df].
  - intro r. cbn [db_conn df table]. apply SortFacts.sort_In.
  - exact Hc.
  - eapply unique_ids_perm; [apply SortFacts.sort_perm|exact Hc].
Qed.

End WithDatetime.

Import RefDates Examples.

Lemma app_unsorted_well_formed : well_formed app_unsorted.
Proof.
  split; [intro r; reflexivity|].
  split; unfold unique_ids; cbn; repeat constructor; cbn; intuition discriminate.
Defined.

(** X10 on the ledger of two rows, of which the first is removed. *)
Lemma remove_selected_removes_witness :
  table (db_conn (fst (remove_selected true true [1%Z] app_unsorted)))
  = [row 2 "Gelir" 2]
  /\ undo_stack (fst (remove_selected true true [1%Z] app_unsorted))
     = [ActAdd 1; ActAdd 2; ActDelete [row 1 "Gelir" 1]].
Proof.
  destruct (remove_selected_removes [1%Z] app_unsorted)
    as (Ht & _ & _ & _ & _ & Hlog); [discriminate|].
  split; [exact Ht|]. destruct Hlog as (older & Ho); [discriminate|].
  reflexivity.
Defined.

(** X11 on the ledger of two rows. *)
Lemma well_formed_kept_witness :
  well_formed (fst (undo true app_unsorted))
  /\ well_formed (sort_by_column ColAmount app_unsorted).
Proof.
  destruct (well_formed_kept app_unsorted app_unsorted_well_formed)
    as (_ & _ & Hs & Hu & _).
  split; [exact Hu|apply Hs].
Defined.

(** X12 on the ledger of two rows: the first row removed and put back. *)
Lemma remove_then_undo_witness :
  snd (undo true (fst (remove_selected true true [1%Z] app_unsorted)))
  = Restored 1
  /\ Permutation (df app_unsorted)
       (df (fst (undo true (fst (remove_selected true true [1%Z] app_unsorted))))).
Proof.
  destruct (remove_then_undo [1%Z] app_unsorted app_unsorted_well_formed)
    as (Hn & _ & Hp & _).
  - repeat constructor. intros [].
  - exists (row 1 "Gelir" 1). split; left; reflexivity.
  - split; [exact Hn|exact Hp].
Defined.

End LedgerProps.

(* ------------------------------------------------------------------ *)
(** ** app.py: the signs of the amounts and of the totals *)

Module SignProps.
Import PyStr Amount Db Ledger Views StrFacts SortRowsFacts SortClaims
  UndoClaims AddClaims.

Lemma sum_nonneg l : forall a,
  (forall x, In x l -> 0 <= x) ->
  a <= fold_left Qplus l a
  /\ (forall x, In x l -> a + x <= fold_left Qplus l a).
Proof.
  induction l as [|y t IH]; intros a H; cbn [fold_left].
  - split; [lra|intros x []].
  - destruct (IH (a + y)) as [H1 H2];
      [intros x Hx; apply H; right; exact Hx|].
    pose proof (H y (or_introl eq_refl)) as Hy.
    split; [lra|]. intros x [<-|Hx]; [exact H1|].
    specialize (H2 x Hx). lra.
Qed.

Lemma sum_nonpos l : forall a,
  (forall x, In x l -> x <= 0) ->
  fold_left Qplus l a <= a
  /\ (forall x, In x l -> fold_left Qplus l a <= a + x).
Proof.
  induction l as [|y t IH]; intros a H; cbn [fold_left].
  - split; [lra|intros x []].
  - destruct (IH (a + y)) as [H1 H2];
      [intros x Hx; apply H; right; exact Hx|].
    pose proof (H y (or_introl eq_refl)) as Hy.
    split; [lra|]. intros x [<-|Hx]; [exact H1|].
    specialize (H2 x Hx). lra.
Qed.

Lemma group_amounts g rows x :
  In x (map amount (filter (fun r => str_eqb (group r) g) rows)) ->
  exists r, In r rows /\ group r = g /\ amount r = x.
Proof.
  intro H. apply in_map_iff in H as (r & Hx & Hr).
  apply filter_In in Hr as [Hr Hg]. apply str_eqb_eq in Hg. eauto.
Qed.

Lemma group_amount_In g rows r :
  In r rows -> group r = g ->
  In (amount r) (map amount (filter (fun r => str_eqb (group r) g) rows)).
Proof.
  intros Hr Hg. apply in_map, filter_In. split; [exact Hr|].
  apply str_eqb_eq, Hg.
Qed.

(** The sign of a row by its group. *)
Lemma sign_ok_plus r :
  sign_ok r -> group r = lit "Gelir" \/ group r = lit "Aktif" -> 0 <= amount r.
Proof. unfold sign_ok. intros H [E|E]; rewrite E in H; exact H. Qed.

Lemma sign_ok_minus r :
  sign_ok r -> group r = lit "Gider" \/ group r = lit "Pasif" -> amount r <= 0.
Proof. unfold sign_ok. intros H [E|E]; rewrite E in H; exact H. Qed.

Lemma group_total_plus g rows :
  g = lit "Gelir" \/ g = lit "Aktif" ->
  Forall sign_ok rows ->
  0 <= group_total g rows
  /\ (forall r, In r rows -> group r = g -> amount r <= group_total g rows).
Proof.
  intros Hg Hs. rewrite Forall_forall in Hs. unfold group_total.
  destruct (sum_nonneg (map amount (filter (fun r => str_eqb (group r) g) rows)) 0)
    as [H1 H2].
  - intros x Hx. apply group_amounts in Hx as (r & Hr & Hgr & <-).
    apply sign_ok_plus; [apply Hs, Hr|]. rewrite Hgr. exact Hg.
  - split; [exact H1|]. intros r Hr Hgr.
    specialize (H2 (amount r) (group_amount_In g rows r Hr Hgr)). lra.
Qed.

Lemma group_total_minus g rows :
  g = lit "Gider" \/ g = lit "Pasif" ->
  Forall sign_ok rows ->
  group_total g rows <= 0
  /\ (forall r, In r rows -> group r = g -> group_total g rows <= amount r).
Proof.
  intros Hg Hs. rewrite Forall_forall in Hs. unfold group_total.
  destruct (sum_nonpos (map amount (filter (fun r => str_eqb (group r) g) rows)) 0)
    as [H1 H2].
  - intros x Hx. apply group_amounts in Hx as (r & Hr & Hgr & <-).
    apply sign_ok_minus; [apply Hs, Hr|]. rewrite Hgr. exact Hg.
  - split; [exact H1|]. intros r Hr Hgr.
    specialize (H2 (amount r) (group_amount_In g rows r Hr Hgr)). lra.
Qed.

(** X13.  When every amount has the sign of its group (as [add_item]
    stores it), the totals of the summary have the sign of their group:
    the totals of income and of assets are not negative, the totals of
    expenses and of liabilities are not positive. *)
Theorem totals_signs (rows : list Row) :
  Forall sign_ok rows ->
  0 <= total_gelir (totals rows)
  /\ total_gider (totals rows) <= 0
  /\ 0 <= total_aktif (totals rows)
  /\ total_pasif (totals rows) <= 0.
Proof.
  intro H. unfold totals.
  cbn [total_gelir total_gider total_aktif total_pasif].
  destruct (group_total_plus (lit "Gelir") rows (or_introl eq_refl) H) as [H1 _].
  destruct (group_total_minus (lit "Gider") rows (or_introl eq_refl) H) as [H2 _].
  destruct (group_total_plus (lit "Aktif") rows (or_intror eq_refl) H) as [H3 _].
  destruct (group_total_minus (lit "Pasif") rows (or_intror eq_refl) H) as [H4 _].
  repeat split; assumption.
Qed.

Lemma signed_amount_ok i d g ds raw :
  sign_ok (mkRow i d g ds (signed_amount g raw)).
Proof.
  unfold sign_ok, signed_amount. cbn [group amount]. cbv zeta.
  pose proof (Qabs_nonneg raw) as H.
  destruct (str_eqb g (lit "Gider") || str_eqb g (lit "Pasif")); lra.
Qed.

Lemma Forall_filter {A : Type} (P : A -> Prop) p l :
  Forall P l -> Forall P (filter p l).
Proof.
  rewrite !Forall_forall. intros H x Hx. apply filter_In in Hx as [Hx _].
  apply H, Hx.
Qed.

Lemma Forall_tl {A : Type} (P : A -> Prop) l : Forall P l -> Forall P (tl l).
Proof. intro H. destruct l; [exact H|]. inversion H; assumption. Qed.

Lemma Forall_one_more {A : Type} (P : A -> Prop) l x :
  Forall P l -> P x -> Forall P (l ++ [x]).
Proof. intros H Hx. apply Forall_app. split; [exact H|]. repeat constructor. exact Hx. Qed.

Lemma selected_rows_sub sel rows r :
  In r (selected_rows sel rows) -> In r rows.
Proof.
  unfold selected_rows. rewrite in_flat_map. intros (rid & _ & Hr).
  destruct (filter _ rows) as [|x l] eqn:E; [destruct Hr|].
  destruct Hr as [<-|[]].
  assert (Hx : In x (filter (fun r => (id r =? rid)%Z) rows))
    by (rewrite E; left; reflexivity).
  apply filter_In in Hx as [Hx _]. exact Hx.
Qed.

(** One turn of the reinsertion loop of [undo] stores the amount of the
    row under its group, whatever id the row gets. *)
Lemma reinsert_signed io st r :
  sign_ok r -> Forall sign_ok (table (fst st)) ->
  Forall sign_ok (table (fst (reinsert io st r))).
Proof.
  destruct st as [conn acc]. cbn [fst]. intros Hr H.
  unfold reinsert, insert_with_id, insert. destruct io; [|exact H].
  destruct (has_id (id r) (table conn)); cbn [fst table];
    apply Forall_one_more; try exact H; exact Hr.
Qed.

Lemma reinsert_fold_signed io rows : forall st,
  Forall sign_ok rows -> Forall sign_ok (table (fst st)) ->
  Forall sign_ok (table (fst (fold_left (reinsert io) rows st))).
Proof.
  induction rows as [|r t IH]; intros st Hr H; [exact H|].
  inversion Hr; subst. cbn [fold_left].
  apply IH; [assumption|]. apply reinsert_signed; assumption.
Qed.

Section WithDatetime.
Context {DT : PyDatetime}.

Lemma reapply_sort_signed app : signed app -> signed (reapply_sort app).
Proof.
  intros (Hd & Ht & Hu). split; [|split].
  - eapply Permutation_Forall; [apply reapply_sort_perm|exact Hd].
  - rewrite reapply_sort_db_conn. exact Ht.
  - rewrite reapply_sort_undo_stack. exact Hu.
Qed.

Lemma push_undo_signed a app :
  Forall sign_ok (action_rows a) -> signed app -> signed (_push_undo a app).
Proof.
  intros Ha (Hd & Ht & Hu). split; [exact Hd|]. split; [exact Ht|].
  rewrite push_undo_stack. apply Forall_one_more; [|exact Ha].
  destruct (_ <? _)%nat; [exact Hu|apply Forall_tl, Hu].
Qed.

Lemma add_item_signed io today form app :
  signed app -> signed (fst (add_item io today form app)).
Proof.
  intro H. pose proof H as (Hd & Ht & Hu). unfold add_item.
  destruct (str_eqb _ _); [exact H|].
  destruct (parse_amount_input _); [exact H|].
  unfold insert. destruct io; [|exact H].
  cbn [fst]. apply reapply_sort_signed, push_undo_signed; [constructor|].
  split; [|split]; cbn [db_conn df table undo_stack].
  - apply Forall_one_more; [exact Hd|apply signed_amount_ok].
  - apply Forall_one_more; [exact Ht|apply signed_amount_ok].
  - exact Hu.
Qed.

Lemma remove_selected_signed io confirm sel app :
  signed app -> signed (fst (remove_selected io confirm sel app)).
Proof.
  intro H. pose proof H as (Hd & Ht & Hu). unfold remove_selected.
  destruct sel as [|i sel]; [exact H|].
  destruct (negb confirm); [exact H|].
  unfold delete_ids. destruct io; [|exact H].
  cbn [fst]. apply reapply_sort_signed.
  assert (W : signed
                (mkApp
                   (mkConn (filter (not_selected (i :: sel)) (table (db_conn app)))
                      (seq (db_conn app)))
                   (filter (not_selected (i :: sel)) (df app))
                   (sort_state app) (undo_stack app))).
  { split; [|split]; cbn [db_conn df table undo_stack].
    - apply Forall_filter, Hd.
    - apply Forall_filter, Ht.
    - exact Hu. }
  change (flat_map _ (i :: sel)) with (selected_rows (i :: sel) (df app)).
  destruct (selected_rows (i :: sel) (df app)) as [|r l] eqn:E; [exact W|].
  apply push_undo_signed; [|exact W]. cbn [action_rows].
  apply Forall_forall. intros x Hx. rewrite <- E in Hx.
  apply selected_rows_sub in Hx.
  apply (proj1 (Forall_forall _ _) Hd x Hx).
Qed.

Lemma sort_by_column_signed c app : signed app -> signed (sort_by_column c app).
Proof.
  intros (Hd & Ht & Hu). split; [|split; assumption].
  eapply Permutation_Forall; [apply sort_rows_perm|exact Hd].
Qed.

Lemma undo_signed io app : signed app -> signed (fst (undo io app)).
Proof.
  intro H. pose proof H as (Hd & Ht & Hu).
  destruct (undo_stack app) as [|x st] eqn:E using rev_ind.
  - unfold undo. rewrite E. exact H.
  - apply Forall_app in Hu as [Hst Hx]. inversion Hx as [|? ? Hrows _]; subst.
    destruct x as [rid|rows].
    + unfold undo. rewrite E, rev_app_distr. cbn [rev Datatypes.app].
      rewrite rev_involutive. cbn [fst]. apply reapply_sort_signed.
      split; [|split]; cbn [db_conn df table undo_stack].
      * apply Forall_filter, Hd.
      * unfold delete_ids. destruct io; [|exact Ht].
        cbn [table]. apply Forall_filter, Ht.
      * exact Hst.
    + cbn [action_rows] in Hrows. destruct rows as [|r rows].
      * unfold undo. rewrite E, rev_app_distr. cbn [rev Datatypes.app fst].
        rewrite rev_involutive. split; [|split]; assumption.
      * rewrite (LedgerProps.undo_delete io app st (r :: rows) E) by discriminate.
        cbv zeta.
        pose proof (reinsert_fold_signed io (r :: rows) (db_conn app, [])
                      Hrows Ht) as Hc.
        unfold load_db_into_df, get_all. cbn [db_conn].
        destruct io; cbn [fst].
        -- apply reapply_sort_signed. split; [|split];
             cbn [db_conn df table undo_stack]; try assumption.
           eapply Permutation_Forall; [apply SortFacts.sort_perm|exact Hc].
        -- split; [|split]; cbn [db_conn df table undo_stack]; assumption.
Qed.

Lemma load_sample_signed io app :
  signed app -> signed (fst (load_sample io app)).
Proof.
  intro H. unfold load_sample, clear_all. destruct io; [|exact H].
  match goal with
  | |- context [fold_left ?f sample (inr ?c)] =>
      assert (Hu : forall data acc c',
                 (forall c0, acc = inr c0 -> Forall sign_ok (table c0)) ->
                 fold_left f data acc = inr c' -> Forall sign_ok (table c'));
        [|pose proof (Hu sample (inr c)) as Hs;
          destruct (fold_left f sample (inr c)) as [e|conn]]
  end.
  - induction data as [|x t IH]; intros acc c' Hacc Hc';
      [apply Hacc, Hc'|].
    cbn [fold_left] in Hc'. eapply IH; [|exact Hc'].
    intros c0 Hc0. destruct acc as [e|c1]; [discriminate|].
    destruct x as [[[d g] ds] a]. unfold insert in Hc0.
    inversion Hc0; subst. clear Hc0. cbn [table].
    apply Forall_one_more; [apply Hacc; reflexivity|].
    apply (signed_amount_ok _ d g ds a).
  - exact H.
  - unfold load_db_into_df, get_all. cbn [fst db_conn df sort_state].
    apply reapply_sort_signed.
    assert (Hc : Forall sign_ok (table conn)).
    { apply Hs; [|reflexivity]. intros c0 Hc0. inversion Hc0. constructor. }
    split; [|split]; cbn [db_conn df undo_stack].
    + eapply Permutation_Forall; [apply SortFacts.sort_perm|exact Hc].
    + exact Hc.
    + constructor.
Qed.

(** X15.  The sign of every stored amount follows its group, always:
    when no income or asset is negative and no expense or liability is
    positive, in the table, in the database and in the rows the undo log
    keeps, the same holds after [add_item], [remove_selected],
    [sort_by_column], [undo] and [load_sample], whether or not the
    database can be written. *)
Theorem signed_kept (app : App) :
  signed app ->
  (forall io today form, signed (fst (add_item io today form app)))
  /\ (forall io confirm sel, signed (fst (remove_selected io confirm sel app)))
  /\ (forall c, signed (sort_by_column c app))
  /\ (forall io, signed (fst (undo io app)))
  /\ (forall io, signed (fst (load_sample io app))).
Proof.
  intro H. split; [intros; apply add_item_signed, H|].
  split; [intros; apply remove_selected_signed, H|].
  split; [intros; apply sort_by_column_signed, H|].
  split; [intros; apply undo_signed, H|].
  intros; apply load_sample_signed, H.
Qed.

End WithDatetime.

Import RefDates Examples.

Lemma two_rows_signed : Forall sign_ok two_rows.
Proof. repeat constructor; vm_compute; discriminate. Defined.

Lemma mixed_rows_signed : Forall sign_ok mixed_rows.
Proof. repeat constructor; vm_compute; discriminate. Defined.

(** X13 on the rows of an income of 1 and an expense of 1. *)
Lemma totals_signs_witness :
  0 <= total_gelir (totals mixed_rows) /\ total_gider (totals mixed_rows) <= 0.
Proof.
  destruct (totals_signs mixed_rows mixed_rows_signed) as (H1 & H2 & _).
  split; assumption.
Defined.

(** X15 on the ledger of two incomes: an expense typed as [9] is added. *)
Lemma signed_kept_witness :
  signed (fst (add_item true today (form "Gider" "9") app_unsorted)).
Proof.
  assert (H : signed app_unsorted).
  { split; [exact two_rows_signed|]. split; [exact two_rows_signed|].
    repeat constructor. }
  destruct (signed_kept app_unsorted H) as (Ha & _). apply Ha.
Defined.

End SignProps.

(* ------------------------------------------------------------------ *)
(** ** app.py: amounts that are refused, and the sign that is typed *)

Module ParseProps.
Import PyStr PyFloat Amount Db Ledger Views StrFacts SplitFacts NumeralFacts
  DotClaims RoundTripFacts.

Lemma count_chr_cons c x s :
  count_chr c (x :: s)
  = ((if chr_eqb x c then 1 else 0) + count_chr c s)%nat.
Proof. unfold count_chr. cbn [filter]. destruct (chr_eqb x c); reflexivity. Qed.

Lemma count_chr_rev c s : count_chr c (rev s) = count_chr c s.
Proof.
  induction s as [|x t IH]; [reflexivity|].
  cbn [rev]. rewrite count_chr_app, IH, !count_chr_cons.
  unfold count_chr at 2. cbn [filter List.length]. lia.
Qed.

(** Dropping characters other than [c] keeps the number of [c]. *)
Lemma count_chr_remove c x s :
  chr_eqb x c = false -> count_chr c (remove_chr x s) = count_chr c s.
Proof.
  intro H. unfold remove_chr. induction s as [|y t IH]; [reflexivity|].
  cbn [filter]. destruct (chr_eqb y x) eqn:E; cbn [negb].
  - apply chr_eqb_eq in E. subst y. rewrite count_chr_cons, H. exact IH.
  - rewrite !count_chr_cons, IH. reflexivity.
Qed.

Lemma count_chr_lstrip c s :
  is_space c = false -> count_chr c (lstrip s) = count_chr c s.
Proof.
  intro H. induction s as [|x t IH]; [reflexivity|].
  cbn [lstrip]. destruct (is_space x) eqn:E; [|reflexivity].
  rewrite count_chr_cons, IH.
  destruct (chr_eqb x c) eqn:Ex; [|reflexivity].
  apply chr_eqb_eq in Ex. congruence.
Qed.

Lemma count_chr_strip c s :
  is_space c = false -> count_chr c (strip s) = count_chr c s.
Proof.
  intro H. unfold strip, rstrip.
  rewrite count_chr_rev, (count_chr_lstrip c _ H), count_chr_rev.
  apply count_chr_lstrip, H.
Qed.

Lemma count_chr_float_lstrip c s :
  float_space c = false -> count_chr c (float_lstrip s) = count_chr c s.
Proof.
  intro H. induction s as [|x t IH]; [reflexivity|].
  cbn [float_lstrip]. destruct (float_space x) eqn:E; [|reflexivity].
  rewrite count_chr_cons, IH.
  destruct (chr_eqb x c) eqn:Ex; [|reflexivity].
  apply chr_eqb_eq in Ex. congruence.
Qed.

Lemma count_chr_float_strip c s :
  float_space c = false -> count_chr c (float_strip s) = count_chr c s.
Proof.
  intro H. unfold float_strip.
  rewrite count_chr_rev, (count_chr_float_lstrip c _ H), count_chr_rev.
  apply count_chr_float_lstrip, H.
Qed.

Lemma point_space_to_ascii x :
  chr_eqb (space_to_ascii x) "." = chr_eqb x ".".
Proof.
  destruct x as [[] [] [] [] [] [] [] []]; reflexivity.
Qed.

Lemma count_point_spaces s :
  count_chr "." (map space_to_ascii s) = count_chr "." s.
Proof.
  induction s as [|x t IH]; [reflexivity|].
  cbn [map]. rewrite !count_chr_cons, point_space_to_ascii, IH. reflexivity.
Qed.

Lemma count_point_underscores s : forall prev s',
  drop_underscores prev s = Some s' -> count_chr "." s' = count_chr "." s.
Proof.
  induction s as [|x t IH]; intros prev s' H; cbn [drop_underscores] in H.
  - destruct (match prev with Some c => chr_eqb c "_" | None => false end);
      inversion H; reflexivity.
  - destruct (chr_eqb x "_") eqn:E.
    + apply chr_eqb_eq in E. subst x.
      destruct (match prev with Some c => is_digit c | None => false end);
        [|discriminate].
      rewrite count_chr_cons. cbn. apply (IH _ _ H).
    + destruct (_ && _); [discriminate|].
      destruct (drop_underscores (Some x) t) as [u|] eqn:D; [|discriminate].
      cbn [option_map] in H. inversion H; subst.
      rewrite !count_chr_cons, (IH _ _ D). reflexivity.
Qed.

Lemma span_parts p s : forall a b,
  span p s = (a, b) -> s = a ++ b /\ forallb p a = true.
Proof.
  induction s as [|x t IH]; intros a b H; cbn [span] in H.
  - inversion H. split; reflexivity.
  - destruct (p x) eqn:E.
    + destruct (span p t) as [a' b'] eqn:S. inversion H; subst.
      destruct (IH a' b eq_refl) as [-> Ha]. split; [reflexivity|].
      cbn [forallb]. rewrite E, Ha. reflexivity.
    + inversion H; subst. split; reflexivity.
Qed.

Lemma digit_not_point x : is_digit x = true -> chr_eqb x "." = false.
Proof. destruct x as [[] [] [] [] [] [] [] []]; first [reflexivity|discriminate]. Qed.

Lemma count_point_digits ds :
  forallb is_digit ds = true -> count_chr "." ds = 0%nat.
Proof. apply count_digits. exact digit_not_point. Qed.

Lemma count_point_sign s :
  count_chr "." (snd (take_sign s)) = count_chr "." s.
Proof.
  destruct s as [|x t]; [reflexivity|]. unfold take_sign.
  destruct (chr_eqb x "-") eqn:E1;
    [apply chr_eqb_eq in E1; subst; reflexivity|].
  destruct (chr_eqb x "+") eqn:E2;
    [apply chr_eqb_eq in E2; subst; reflexivity|].
  reflexivity.
Qed.

(** An exponent part holds no point. *)
Lemma exponent_no_point s e : exponent s = Some e -> count_chr "." s = 0%nat.
Proof.
  destruct s as [|c t]; [reflexivity|]. unfold exponent.
  destruct (chr_eqb c "e" || chr_eqb c "E") eqn:E; [|discriminate].
  pose proof (count_point_sign t) as Hs.
  destruct (take_sign t) as [neg t']. cbn [snd] in Hs.
  destruct (span is_digit t') as [ds rest] eqn:S.
  destruct (span_parts _ _ _ _ S) as [-> Hd].
  destruct ds as [|d ds]; [discriminate|].
  destruct rest; [|discriminate]. intros _.
  rewrite count_chr_cons, <- Hs, app_nil_r, (count_point_digits _ Hd).
  destruct (chr_eqb c ".") eqn:Ec; [|reflexivity].
  apply chr_eqb_eq in Ec. subst c. discriminate.
Qed.

(** [float] refuses a text with two points. *)
Lemma py_float_two_points s :
  (2 <= count_chr "." s)%nat -> py_float s = None.
Proof.
  intro H. unfold py_float.
  destruct (drop_underscores None (map space_to_ascii s)) as [s1|] eqn:D;
    [|reflexivity].
  apply count_point_underscores in D. rewrite count_point_spaces in D.
  pose proof (count_point_sign (float_strip s1)) as Hs.
  rewrite (count_chr_float_strip "." s1 eq_refl), D in Hs.
  destruct (take_sign (float_strip s1)) as [neg body]. cbn [snd] in Hs.
  destruct (span is_digit body) as [ip rest] eqn:S.
  destruct (span_parts _ _ _ _ S) as [-> Hip].
  rewrite count_chr_app, (count_point_digits _ Hip) in Hs.
  destruct rest as [|c t].
  - change (count_chr "." []) with 0%nat in Hs. lia.
  - rewrite count_chr_cons in Hs. destruct (chr_eqb c ".") eqn:Ec.
    + destruct (span is_digit t) as [fp rest'] eqn:S'.
      destruct (span_parts _ _ _ _ S') as [-> Hfp].
      rewrite count_chr_app, (count_point_digits _ Hfp) in Hs.
      destruct (ip ++ fp); [reflexivity|].
      destruct (exponent rest') as [e|] eqn:Ex; [|reflexivity].
      apply exponent_no_point in Ex. lia.
    + destruct (ip ++ []); [reflexivity|].
      destruct (exponent (c :: t)) as [e|] eqn:Ex; [|reflexivity].
      apply exponent_no_point in Ex. rewrite count_chr_cons, Ec in Ex. lia.
Qed.

(** Turning every comma into a point. *)
Lemma count_point_commas s :
  count_chr "." (replace (lit ",") (lit ".") s)
  = (count_chr "," s + count_chr "." s)%nat.
Proof.
  change (lit ",") with [","%char]. rewrite replace_chr.
  induction s as [|x t IH]; [reflexivity|].
  cbn [flat_map]. rewrite count_chr_app, IH, !count_chr_cons.
  destruct (chr_eqb x ",") eqn:E.
  - apply chr_eqb_eq in E. subst x. reflexivity.
  - unfold count_chr at 1. cbn [filter]. destruct (chr_eqb x "."); cbn; lia.
Qed.

Lemma separators_two_commas s :
  (2 <= count_chr "," s)%nat -> (2 <= count_chr "." (separators s))%nat.
Proof.
  intro H. unfold separators. change (lit ".") with ["."%char].
  change (lit ",") with [","%char]. rewrite !str_in_chr_count.
  assert (Hc : (0 <? count_chr "," s)%nat = true) by (apply Nat.ltb_lt; lia).
  rewrite Hc. destruct (0 <? count_chr "." s)%nat eqn:Hd; cbn [andb negb].
  - change [","%char] with (lit ","). change (replace ["."%char] (lit "") s)
      with (replace ["."%char] [] s).
    rewrite count_point_commas, replace_chr_empty.
    rewrite (count_chr_remove "," "." s eq_refl). lia.
  - change [","%char] with (lit ","). rewrite count_point_commas. lia.
Qed.

(** X16.  An amount with two commas or more is refused, whatever else it
    holds: [parse_amount_input] raises the ValueError that names the
    text. *)
Theorem two_commas_refused (s : str) :
  (2 <= count_chr "," s)%nat ->
  parse_amount_input s = inl (BadAmountFormat (strip s)).
Proof.
  intro H.
  assert (Hs : (2 <= count_chr "," (strip s))%nat)
    by (rewrite (count_chr_strip "," s eq_refl); exact H).
  assert (Hne : strip s <> []).
  { intro E. rewrite E in Hs. unfold count_chr in Hs. cbn in Hs. lia. }
  rewrite (parse_amount_input_body s Hne).
  assert (Hb : (2 <= count_chr "," (body_of (strip s)))%nat).
  { unfold body_of. destruct (strip s) as [|c t]; [congruence|].
    destruct (str_in (firstn 1 (c :: t)) (lit "+-")) eqn:E; [|exact Hs].
    rewrite (count_chr_strip "," _ eq_refl). cbn [skipn].
    rewrite count_chr_cons in Hs.
    destruct (chr_eqb c ",") eqn:Ec; [|exact Hs].
    apply chr_eqb_eq in Ec. subst c. vm_compute in E. discriminate. }
  apply separators_two_commas in Hb.
  rewrite py_float_two_points; [reflexivity|].
  change (lit "'") with ["'"%char]. change (lit " ") with [" "%char].
  change (lit "") with (@nil ascii). rewrite !replace_chr_empty.
  rewrite (count_chr_remove "." "'" _ eq_refl).
  rewrite (count_chr_remove "." " " _ eq_refl). exact Hb.
Qed.

Lemma lstrip_length s : (List.length (lstrip s) <= List.length s)%nat.
Proof.
  induction s as [|c t IH]; [reflexivity|].
  cbn [lstrip]. destruct (is_space c); cbn [List.length]; lia.
Qed.

Lemma rstrip_length s : (List.length (rstrip s) <= List.length s)%nat.
Proof.
  unfold rstrip. rewrite length_rev.
  pose proof (lstrip_length (rev s)) as H. rewrite length_rev in H. exact H.
Qed.

(** A text that [strip] leaves alone has no white space at either end. *)
Lemma strip_fixed t : strip t = t -> lstrip t = t /\ rstrip t = t.
Proof.
  intro H. assert (Hl : lstrip t = t).
  { destruct t as [|c t']; [reflexivity|]. cbn [lstrip].
    destruct (is_space c) eqn:E; [|reflexivity]. exfalso.
    unfold strip in H. cbn [lstrip] in H. rewrite E in H.
    apply (f_equal (@List.length ascii)) in H. cbn [List.length] in H.
    pose proof (rstrip_length (lstrip t')). pose proof (lstrip_length t'). lia. }
  split; [exact Hl|]. unfold strip in H. rewrite Hl in H. exact H.
Qed.

Lemma lstrip_last l c :
  is_space c = false -> lstrip (l ++ [c]) = lstrip l ++ [c].
Proof.
  intro H. induction l as [|x t IH]; cbn [Datatypes.app lstrip].
  - rewrite H. reflexivity.
  - destruct (is_space x); [exact IH|reflexivity].
Qed.

Lemma strip_cons c t :
  is_space c = false -> rstrip t = t -> strip (c :: t) = c :: t.
Proof.
  intros Hc Ht. unfold strip. cbn [lstrip]. rewrite Hc.
  unfold rstrip in *. cbn [rev]. rewrite (lstrip_last _ c Hc).
  rewrite rev_app_distr. cbn [rev Datatypes.app]. rewrite Ht. reflexivity.
Qed.

(** The sign [parse_amount_input] gives the number does not show in its
    size. *)
Lemma Qabs_sign v : Qabs (inject_Z (-1) * v) = Qabs (inject_Z 1 * v).
Proof. destruct v as [[|p|p] d]; reflexivity. Qed.

Lemma signed_amount_sign g v :
  signed_amount g (inject_Z (-1) * v) = signed_amount g (inject_Z 1 * v).
Proof. unfold signed_amount. rewrite Qabs_sign. reflexivity. Qed.

Section WithDatetime.
Context {DT : PyDatetime}.

(** X17.  The sign typed in front of an amount changes nothing: for a
    text without white space at its ends that does not start with a
    sign, [add_item] ends in the same state (database, table, sort state,
    undo log) whether the text is typed as it is, with a minus or with a
    plus in front. *)
Theorem add_item_ignores_typed_sign io today (d g ds t : str) (app : App) :
  strip t = t ->
  str_in (firstn 1 t) (lit "+-") = false ->
  fst (add_item io today (mkForm d g ds ("-"%char :: t)) app)
  = fst (add_item io today (mkForm d g ds t) app)
  /\ fst (add_item io today (mkForm d g ds ("+"%char :: t)) app)
     = fst (add_item io today (mkForm d g ds t) app).
Proof.
  intros Hs Hf. destruct (strip_fixed t Hs) as [_ Hr].
  assert (Hne : t <> []) by (intro E; rewrite E in Hf; discriminate).
  assert (Hm : strip ("-"%char :: t) = "-"%char :: t)
    by (apply strip_cons; [reflexivity|exact Hr]).
  assert (Hp : strip ("+"%char :: t) = "+"%char :: t)
    by (apply strip_cons; [reflexivity|exact Hr]).
  assert (Hbody : body_of t = t) by (unfold body_of; rewrite Hf; reflexivity).
  assert (Hsign : sign_of t = 1%Z).
  { unfold sign_of. destruct t as [|c t']; [congruence|].
    change (lit "-") with ["-"%char]. rewrite startswith_chr.
    destruct (chr_eqb "-" c) eqn:E; [|reflexivity].
    apply chr_eqb_eq in E. subst c. vm_compute in Hf. discriminate. }
  assert (Pm : parse_amount_input ("-"%char :: t)
               = match py_float
                         (replace (lit "'") (lit "")
                            (replace (lit " ") (lit "") (separators t)))
                 with
                 | None => inl (BadAmountFormat ("-"%char :: t))
                 | Some val => inr (inject_Z (-1) * val)
                 end).
  { rewrite parse_amount_input_body by (rewrite Hm; discriminate).
    rewrite Hm. change (body_of ("-"%char :: t)) with (strip t).
    rewrite Hs. reflexivity. }
  assert (Pp : parse_amount_input ("+"%char :: t)
               = match py_float
                         (replace (lit "'") (lit "")
                            (replace (lit " ") (lit "") (separators t)))
                 with
                 | None => inl (BadAmountFormat ("+"%char :: t))
                 | Some val => inr (inject_Z 1 * val)
                 end).
  { rewrite parse_amount_input_body by (rewrite Hp; discriminate).
    rewrite Hp. change (body_of ("+"%char :: t)) with (strip t).
    rewrite Hs. reflexivity. }
  assert (P0 : parse_amount_input t
               = match py_float
                         (replace (lit "'") (lit "")
                            (replace (lit " ") (lit "") (separators t)))
                 with
                 | None => inl (BadAmountFormat t)
                 | Some val => inr (inject_Z 1 * val)
                 end).
  { rewrite parse_amount_input_body by (rewrite Hs; exact Hne).
    rewrite Hs, Hbody, Hsign. reflexivity. }
  unfold add_item. cbn [amount_var group_var desc_var date_var].
  rewrite Hm, Hp, Hs, Pm, Pp, P0.
  apply str_eqb_nil in Hne. rewrite Hne. cbn [str_eqb].
  destruct (py_float _) as [v|]; [|split; reflexivity].
  rewrite signed_amount_sign. split; reflexivity.
Qed.

End WithDatetime.

Import RefDates Examples.

(** X17 for an expense typed as [-12,50], as [+12,50] and as [12,50]. *)
Lemma add_item_ignores_typed_sign_witness :
  fst (add_item true today (form "Gider" "-12,50") app_unsorted)
  = fst (add_item true today (form "Gider" "12,50") app_unsorted)
  /\ fst (add_item true today (form "Gider" "+12,50") app_unsorted)
     = fst (add_item true today (form "Gider" "12,50") app_unsorted).
Proof.
  apply (add_item_ignores_typed_sign true today (lit "2025-01-05") (lit "Gider")
           (lit "") (lit "12,50") app_unsorted); reflexivity.
Defined.

Lemma two_commas_refused_witness :
  parse_amount_input (lit " 1,234,567.89")
  = inl (BadAmountFormat (lit "1,234,567.89")).
Proof. apply (two_commas_refused (lit " 1,234,567.89")). vm_compute. lia. Defined.

End ParseProps.

(* ------------------------------------------------------------------ *)
(** ** app.py: the sample, and what errors leave behind *)

Module EdgeProps.
Import PyStr Amount Db Ledger Views StrFacts SortRowsFacts SortClaims
  UndoClaims AddClaims DateClaims DbProps.

Lemma insert_at conn n d g ds a :
  next_id conn = n ->
  insert true conn d g ds a
  = inr (mkConn (table conn ++ [mkRow n d g ds a]) n, n).
Proof. intros <-. reflexivity. Qed.

Lemma max_id_last rows r :
  max_id (rows ++ [r]) = Z.max (max_id rows) (id r).
Proof.
  induction rows as [|x t IH]; cbn [Datatypes.app max_id fold_right].
  - lia.
  - fold (max_id (t ++ [r])). fold (max_id t). rewrite IH. lia.
Qed.

(** The rows a run of [sample_step] adds: the data in their order, signed
    by group, with ids from the next free one on. *)
Lemma sample_steps data : forall conn,
  map (fun r => (date r, group r, amount r))
    (table (fold_left sample_step data conn))
  = map (fun r => (date r, group r, amount r)) (table conn)
    ++ map (fun x : str * str * str * Q =>
              let '(d, g, _, a) := x in (d, g, signed_amount g a)) data
  /\ (forall r, In r (table (fold_left sample_step data conn)) ->
      In r (table conn) \/ (next_id conn <= id r)%Z).
Proof.
  induction data as [|x t IH]; intro conn; cbn [fold_left map].
  - rewrite app_nil_r. split; [reflexivity|]. intros r Hr. left. exact Hr.
  - destruct x as [[[d g] ds] a].
    destruct (IH (sample_step conn (d, g, ds, a))) as [Hmap Hids].
    assert (Hstep : sample_step conn (d, g, ds, a)
                    = mkConn (table conn
                              ++ [mkRow (next_id conn) d g ds (signed_amount g a)])
                        (next_id conn)) by reflexivity.
    rewrite Hstep in Hmap, Hids. cbn [table] in Hmap, Hids.
    rewrite Hstep. split.
    + rewrite Hmap, map_app. cbn [map date group amount].
      rewrite <- app_assoc. reflexivity.
    + intros r Hr. destruct (Hids r Hr) as [H|H].
      * apply in_app_or in H as [H|[<-|[]]]; [left; exact H|].
        right. cbn [id]. lia.
      * right. unfold next_id in H at 1. cbn [table seq] in H.
        rewrite max_id_last in H. cbn [id] in H. lia.
Qed.

Section WithDatetime.
Context {DT : PyDatetime}.

Lemma sample_rows_sorted b :
  StableSort.sort id_leb (sample_rows b) = sample_rows b.
Proof.
  apply (SortFacts.sort_of_sorted id_leb id_leb_trans).
  unfold sample_rows. cbn [map combine sample StableSort.sorted].
  unfold id_leb. cbn [id].
  repeat (apply andb_true_intro; split); try reflexivity; apply Z.leb_le; lia.
Qed.

(** X18.  [load_sample] on a database that can be written replaces the
    ledger by the sample: whatever the database held, it holds afterwards
    six rows, with the dates, the groups and the amounts of the sample in
    their order, each amount with the sign of its group, and with fresh
    ids that follow the id counter; the table holds the same rows (in
    their order when no sort is active); the undo log is empty, so the
    rows that were replaced cannot be brought back by [undo]. *)
Theorem load_sample_replaces (app : App) :
  let base := Z.max (seq (db_conn app)) 0 in
  let app' := fst (load_sample true app) in
  snd (load_sample true app) = Completed
  /\ map id (table (db_conn app')) = map (Z.add base) [1; 2; 3; 4; 5; 6]%Z
  /\ map (fun r => (date r, group r, amount r)) (table (db_conn app'))
     = map (fun x : str * str * str * Q =>
              let '(d, g, _, a) := x in (d, g, signed_amount g a)) sample
  /\ seq (db_conn app') = (base + 6)%Z
  /\ Permutation (table (db_conn app')) (df app')
  /\ (col (sort_state app) = None -> df app' = table (db_conn app'))
  /\ undo_stack app' = []
  /\ undo true app' = (app', NothingToUndo).
Proof.
  intros base app'. unfold app'. clear app'.
  unfold load_sample, clear_all.
  assert (Eb : base = Z.max (seq (db_conn app)) 0) by reflexivity.
  clearbody base.
  match goal with
  | |- context [fold_left ?f sample (inr ?c)] =>
      assert (F : fold_left f sample (inr c)
                  = inr (mkConn (sample_rows base) (base + 6)))
  end.
  { cbn [fold_left sample].
    rewrite (insert_at _ (base + 1))
      by (unfold next_id; cbn [table seq max_id fold_right Datatypes.app id]; lia).
    cbv beta iota.
    rewrite (insert_at _ (base + 2))
      by (unfold next_id; cbn [table seq max_id fold_right Datatypes.app id]; lia).
    cbv beta iota.
    rewrite (insert_at _ (base + 3))
      by (unfold next_id; cbn [table seq max_id fold_right Datatypes.app id]; lia).
    cbv beta iota.
    rewrite (insert_at _ (base + 4))
      by (unfold next_id; cbn [table seq max_id fold_right Datatypes.app id]; lia).
    cbv beta iota.
    rewrite (insert_at _ (base + 5))
      by (unfold next_id; cbn [table seq max_id fold_right Datatypes.app id]; lia).
    cbv beta iota.
    rewrite (insert_at _ (base + 6))
      by (unfold next_id; cbn [table seq max_id fold_right Datatypes.app id]; lia).
    reflexivity. }
  rewrite F. unfold load_db_into_df, get_all. cbn [db_conn table fst snd df
    sort_state undo_stack].
  change (StableSort.sort _ (sample_rows base))
    with (StableSort.sort id_leb (sample_rows base)).
  rewrite sample_rows_sorted.
  split; [reflexivity|].
  split; [rewrite reapply_sort_db_conn; reflexivity|].
  split; [rewrite reapply_sort_db_conn; reflexivity|].
  split; [rewrite reapply_sort_db_conn; reflexivity|].
  split; [rewrite reapply_sort_db_conn; apply (reapply_sort_perm (mkApp _ _ _ _))|].
  split; [intro Hc; rewrite reapply_sort_inactive by exact Hc; reflexivity|].
  split; [rewrite reapply_sort_undo_stack; reflexivity|].
  unfold undo. rewrite reapply_sort_undo_stack. reflexivity.
Qed.

(** X14.  [load_sample] is not all-or-nothing.  When the database fails
    after the DELETE of [clear_all] and before the last INSERT, the
    error is reported and the table, the sort state and the undo log are
    as before, but the database has changed: it holds the sample rows
    inserted so far and nothing else, all with fresh ids.  So when the
    table was not empty and its ids were ones the database had given out,
    the table no longer mirrors the database. *)
Theorem load_sample_not_atomic (ok : nat) (app : App) :
  (1 <= ok <= 6)%nat ->
  let app' := fst (load_sample_failing ok app) in
  snd (load_sample_failing ok app) = Unexpected OperationalError
  /\ df app' = df app
  /\ sort_state app' = sort_state app
  /\ undo_stack app' = undo_stack app
  /\ map (fun r => (date r, group r, amount r)) (table (db_conn app'))
     = map (fun x : str * str * str * Q =>
              let '(d, g, _, a) := x in (d, g, signed_amount g a))
         (firstn (ok - 1) sample)
  /\ (forall r, In r (table (db_conn app')) -> (seq (db_conn app) < id r)%Z)
  /\ (df app <> [] ->
      (forall r, In r (df app) -> (id r <= seq (db_conn app))%Z) ->
      ~ mirrored app').
Proof.
  intros Hok app'. unfold app'. clear app'.
  destruct ok as [|n]; [lia|]. unfold load_sample_failing.
  assert (Hn : (n <? List.length sample)%nat = true)
    by (apply Nat.ltb_lt; cbn [List.length sample]; lia).
  rewrite Hn. cbn [fst snd df sort_state undo_stack db_conn].
  replace (S n - 1)%nat with n by lia.
  destruct (sample_steps (firstn n sample) (mkConn [] (seq (db_conn app))))
    as (Hmap & Hids).
  cbn [table map Datatypes.app] in Hmap.
  assert (Hfresh : forall r,
             In r (table (fold_left sample_step (firstn n sample)
                            (mkConn [] (seq (db_conn app))))) ->
             (seq (db_conn app) < id r)%Z).
  { intros r Hr. destruct (Hids r Hr) as [[]|H].
    unfold next_id in H. cbn [table seq max_id fold_right] in H. lia. }
  split; [reflexivity|]. split; [reflexivity|]. split; [reflexivity|].
  split; [reflexivity|]. split; [exact Hmap|]. split; [exact Hfresh|].
  intros Hne Hold Hm. destruct (df app) as [|r l]; [congruence|].
  assert (Hr : In r (r :: l)) by (left; reflexivity).
  pose proof (proj1 (Hm r) Hr) as Hr'. cbn [db_conn] in Hr'.
  apply Hfresh in Hr'. apply Hold in Hr. lia.
Qed.

(** X19.  An add undone while the database cannot be written: the error
    of the delete is swallowed.  The row stays in the database, leaves
    the table, and its undo entry is spent, so when the database held
    the row, the table no longer mirrors the database and a further
    [undo] will not delete the row either. *)
Theorem undo_add_database_failure (app : App) (older : list Action) (rid : Z) :
  undo_stack app = older ++ [ActAdd rid] ->
  let app' := fst (undo false app) in
  snd (undo false app) = Completed
  /\ db_conn app' = db_conn app
  /\ (forall r, In r (df app') <-> In r (df app) /\ id r <> rid)
  /\ undo_stack app' = older
  /\ (has_id rid (table (db_conn app)) = true -> ~ mirrored app').
Proof.
  intros E app'. unfold app'. clear app'. unfold undo.
  rewrite E, rev_app_distr. cbn [rev Datatypes.app]. rewrite rev_involutive.
  cbn [delete_ids fst snd].
  assert (Hin : forall r,
             In r (df (reapply_sort
                         (mkApp (db_conn app)
                            (filter (fun r => negb (id r =? rid)%Z) (df app))
                            (sort_state app) older)))
             <-> In r (df app) /\ id r <> rid).
  { intro r. split.
    - intro Hr. eapply Permutation_in in Hr;
        [|apply Permutation_sym, reapply_sort_perm].
      cbn [df] in Hr. apply filter_In in Hr as [Hr Hn]. split; [exact Hr|].
      apply negb_true_iff, Z.eqb_neq in Hn. exact Hn.
    - intros [Hr Hn]. eapply Permutation_in; [apply reapply_sort_perm|].
      cbn [df]. apply filter_In. split; [exact Hr|].
      apply negb_true_iff, Z.eqb_neq, Hn. }
  split; [reflexivity|].
  split; [rewrite reapply_sort_db_conn; reflexivity|].
  split; [exact Hin|].
  split; [rewrite reapply_sort_undo_stack; reflexivity|].
  intros Hid Hm. unfold has_id in Hid.
  apply existsb_exists in Hid as (r & Hr & Hrid). apply Z.eqb_eq in Hrid.
  assert (Hr' : In r (table (db_conn (reapply_sort
                         (mkApp (db_conn app)
                            (filter (fun r => negb (id r =? rid)%Z) (df app))
                            (sort_state app) older)))))
    by (rewrite reapply_sort_db_conn; exact Hr).
  apply Hm, Hin in Hr'. destruct Hr' as [_ Hn]. exact (Hn Hrid).
Qed.

(** X20.  [add_item] refuses no date: a date text that neither
    [fromisoformat] nor one of the four formats reads is stored as it was
    typed, without the white space at its ends, and the add completes. *)
Theorem add_item_keeps_unread_date today (form : Form) (app : App) (raw : Q) :
  strip (date_var form) <> [] ->
  fromisoformat (strip (date_var form)) = None ->
  (forall fmt, In fmt date_formats -> strptime (strip (date_var form)) fmt = None) ->
  strip (amount_var form) <> [] ->
  parse_amount_input (strip (amount_var form)) = inr raw ->
  snd (add_item true today form app) = Completed
  /\ exists r,
       table (db_conn (fst (add_item true today form app)))
       = table (db_conn app) ++ [r]
       /\ In r (df (fst (add_item true today form app)))
       /\ date r = strip (date_var form).
Proof.
  intros Hd Hiso Hfmt Ha Hp.
  rewrite (add_item_success today form app raw Ha Hp). cbn [fst snd].
  split; [reflexivity|]. exists (new_row today form app raw).
  split; [rewrite reapply_sort_db_conn; reflexivity|]. split.
  - eapply Permutation_in; [apply reapply_sort_perm|].
    unfold appended, _push_undo. cbn [df]. apply in_or_app. right. left.
    reflexivity.
  - unfold new_row. cbn [date]. unfold parse_date.
    apply str_eqb_nil in Hd. rewrite Hd, Hiso.
    apply try_formats_none, Hfmt.
Qed.

End WithDatetime.

Import RefDates Examples.

(** X19 on the ledger of two rows, the second of which is the last add. *)
Lemma undo_add_database_failure_witness :
  db_conn (fst (undo false app_unsorted)) = db_conn app_unsorted
  /\ ~ mirrored (fst (undo false app_unsorted)).
Proof.
  destruct (undo_add_database_failure app_unsorted [ActAdd 1] 2 eq_refl)
    as (_ & Hc & _ & _ & Hm).
  split; [exact Hc|]. apply Hm. reflexivity.
Defined.

(** X14 on the ledger of two rows, when the second INSERT fails: the
    database holds the first sample row and the table the two old rows. *)
Lemma load_sample_not_atomic_witness :
  df (fst (load_sample_failing 2 app_unsorted)) = two_rows
  /\ map amount (table (db_conn (fst (load_sample_failing 2 app_unsorted))))
     = [5000]
  /\ ~ mirrored (fst (load_sample_failing 2 app_unsorted)).
Proof.
  destruct (load_sample_not_atomic 2 app_unsorted) as (_ & Hd & _ & _ & _ & _ & Hm);
    [lia|].
  split; [exact Hd|]. split; [reflexivity|].
  apply Hm; [discriminate|].
  intros r [<-|[<-|[]]]; vm_compute; discriminate.
Defined.

(** X20 for the date text [yarin]. *)
Lemma add_item_keeps_unread_date_witness :
  exists r,
    table (db_conn (fst (add_item true today
                           (mkForm (lit " yarin ") (lit "Gider") (lit "") (lit "5"))
                           app_unsorted)))
    = table (db_conn app_unsorted) ++ [r]
    /\ date r = lit "yarin".
Proof.
  destruct (add_item_keeps_unread_date today
              (mkForm (lit " yarin ") (lit "Gider") (lit "") (lit "5"))
              app_unsorted 5)
    as (_ & r & Ht & _ & Hd).
  - vm_compute. discriminate.
  - reflexivity.
  - intros fmt Hin. cbn in Hin.
    destruct Hin as [<-|[<-|[<-|[<-|[]]]]]; reflexivity.
  - vm_compute. discriminate.
  - vm_compute. reflexivity.
  - exists r. split; [exact Ht|exact Hd].
Defined.

End EdgeProps.

(* ------------------------------------------------------------------ *)
(** ** app.py: the text of an amount *)

Module FormatProps.
Import PyStr PyFloat Amount StrFacts SplitFacts DigitFacts FormatFacts
  NumeralFacts RoundTripFacts.

Lemma before_chr_app c a b :
  count_chr c a = 0%nat -> before_chr c (a ++ c :: b) = a.
Proof.
  unfold count_chr. induction a as [|x t IH]; cbn [Datatypes.app before_chr].
  - intros _. rewrite (proj2 (chr_eqb_eq c c) eq_refl). reflexivity.
  - cbn [filter]. destruct (chr_eqb x c); [discriminate|].
    intro H. rewrite (IH H). reflexivity.
Qed.

Lemma after_chr_app c a b :
  count_chr c a = 0%nat -> after_chr c (a ++ c :: b) = b.
Proof.
  unfold count_chr. induction a as [|x t IH]; cbn [Datatypes.app after_chr].
  - intros _. rewrite (proj2 (chr_eqb_eq c c) eq_refl). reflexivity.
  - cbn [filter]. destruct (chr_eqb x c); [discriminate|].
    intro H. exact (IH H).
Qed.

Lemma group3_from_first c t : (1 <= fst (group3_from (c :: t)))%nat.
Proof.
  cbn [group3_from]. destruct (group3_from t) as [k g].
  destruct (k =? 3)%nat; cbn [fst]; lia.
Qed.

Lemma no_comma_in_group g :
  Forall (fun c => is_digit c = true \/ c = "."%char) g ->
  count_chr "," g = 0%nat.
Proof.
  apply (count_chr_none (fun c => is_digit c = true \/ c = "."%char)).
  intros x [Hx| ->]; [|reflexivity].
  destruct (digit_plain x Hx) as (H & _). exact H.
Qed.

(** X21.  The text of an amount that is not zero, with decimals: a minus
    sign exactly when the value is negative; then the digits before the
    decimal mark, in a leading group of one to three digits and groups
    of exactly three, with dots between the groups; then one comma, the
    only one of the text, and exactly as many digits as decimals were
    asked for. *)
Theorem format_amount_display_shape (x : Q) (d : nat) :
  ~ x == 0 ->
  (0 < d)%nat ->
  let s := format_amount_display x d in
  let body := if (Qnum x <? 0)%Z then skipn 1 s else s in
  s = (if (Qnum x <? 0)%Z then ["-"%char] else []) ++ body
  /\ count_chr "," body = 1%nat
  /\ forallb is_digit (after_chr "," body) = true
  /\ List.length (after_chr "," body) = d
  /\ Forall (fun c => is_digit c = true \/ c = "."%char) (before_chr "," body)
  /\ exists p ps,
       split "." (before_chr "," body) = p :: ps
       /\ (1 <= List.length p <= 3)%nat
       /\ Forall (fun q => List.length q = 3%nat) ps.
Proof.
  intros _ Hd s body. unfold body, s. clear body s.
  rewrite (format_shape x d). cbv zeta.
  destruct (format_digits x d) as (Hip & Hne & Hfp & Hlen & _).
  cbv zeta in Hip, Hne, Hfp, Hlen.
  remember (pad_left (S d) (digits_of (scaled x d))) as ds eqn:Eds.
  remember (List.length ds - d)%nat as k eqn:Ek.
  destruct (grouped_dots (firstn k ds) Hip) as (Hk & _ & Hg & (p & ps & Hsp & Hp & Hps) & _).
  cbv zeta in Hk, Hg, Hsp, Hp, Hps.
  remember (map swap_marks (group3 (firstn k ds))) as g eqn:Eg.
  pose proof (no_comma_in_group g Hg) as Hc.
  destruct d as [|d']; [lia|].
  assert (Hbody : (if (Qnum x <? 0)%Z
                   then skipn 1
                          ((if (Qnum x <? 0)%Z then ["-"%char] else [])
                           ++ g ++ ","%char :: skipn k ds)
                   else (if (Qnum x <? 0)%Z then ["-"%char] else [])
                        ++ g ++ ","%char :: skipn k ds)
                  = g ++ ","%char :: skipn k ds)
    by (destruct (Qnum x <? 0)%Z; reflexivity).
  rewrite Hbody.
  rewrite (before_chr_app "," g _ Hc), (after_chr_app "," g _ Hc).
  split; [reflexivity|].
  split.
  { rewrite count_chr_app, Hc. unfold count_chr. cbn [filter].
    change (chr_eqb "," ",") with true. cbn [List.length].
    fold (count_chr "," (skipn k ds)).
    rewrite (count_digits "," (skipn k ds)); [reflexivity| |exact Hfp].
    intros c Hcd. destruct (digit_plain c Hcd) as (H & _). exact H. }
  split; [exact Hfp|]. split; [exact Hlen|]. split; [exact Hg|].
  exists p, ps. split; [exact Hsp|]. split; [|exact Hps].
  rewrite Hp. split; [|exact Hk].
  destruct (firstn k ds) as [|c t]; [congruence|]. apply group3_from_first.
Qed.

(** X21 for 1234567.891 with two decimals, the text [1.234.567,89]. *)
Lemma format_amount_display_shape_witness :
  count_chr "," (format_amount_display (1234567891 # 1000) 2) = 1%nat
  /\ List.length (after_chr "," (format_amount_display (1234567891 # 1000) 2))
     = 2%nat.
Proof.
  destruct (format_amount_display_shape (1234567891 # 1000) 2)
    as (_ & Hc & _ & Hl & _); [intro H; discriminate H|lia|].
  split; [exact Hc|exact Hl].
Defined.

End FormatProps.
